(** * Edie aggregation of SUMO floating-car data: a shallow embedding

    The development follows [scripts/edies_analysis.py] and
    [scripts/mixed_edies_analysis.py]:

    - [parse_fcd_file] stitches the per-lane raw positions of every vehicle
      into one coordinate and removes lap discontinuities;
    - [calculate_macroscopic_quantities] aggregates the trajectories over a
      space-time grid into density, flow and speed.

    Numbers.  The scripts compute with binary64 floats.  Here every finite
    number is an exact rational ([Q]); the non-finite values that numpy can
    produce from finite operands (nan from [x % 0], inf and nan from the
    slope of [np.interp]) are kept explicit in [npfloat].  Rounding is not
    modelled, so equalities between computed numbers are stated with [==]. *)

From Stdlib Require Import String.
From Stdlib Require Import List Bool Arith ZArith QArith Qround Lia Lqa.
Import ListNotations.

Local Open Scope Q_scope.

(** ** Comparisons and Python arithmetic on finite numbers *)

Definition Qlt_bool (x y : Q) : bool := negb (Qle_bool y x).

(** Python's two-argument [max(a, b)] keeps [a] unless [b > a]; [min(a, b)]
    keeps [a] unless [b < a]. *)
Definition py_max (a b : Q) : Q := if Qlt_bool a b then b else a.
Definition py_min (a b : Q) : Q := if Qlt_bool b a then b else a.

(** ** Exceptions *)

Inductive exn : Type :=
| ValueError
| ZeroDivisionError.

Inductive result (A : Type) : Type :=
| Ok (a : A)
| Raise (e : exn).

Arguments Ok {A} a.
Arguments Raise {A} e.

Definition rbind {A B} (r : result A) (k : A -> result B) : result B :=
  match r with
  | Ok a => k a
  | Raise e => Raise e
  end.

(** The true division [a / b] of Python numbers. *)
Definition py_div (a b : Q) : result Q :=
  if Qeq_bool b 0 then Raise ZeroDivisionError else Ok (a / b).

(** ** numpy values that need not be finite *)

Inductive npfloat : Type :=
| Fin (q : Q)
| PInf
| NInf
| NaN.

Definition isnan (x : npfloat) : bool :=
  match x with NaN => true | _ => false end.

(** [a < b], [a <= b], [a == b] as IEEE comparisons: false on nan. *)
Definition np_lt (a b : npfloat) : bool :=
  match a, b with
  | NaN, _ | _, NaN => false
  | Fin x, Fin y => Qlt_bool x y
  | NInf, NInf => false
  | NInf, _ => true
  | Fin _, PInf => true
  | _, _ => false
  end.

Definition np_le (a b : npfloat) : bool :=
  match a, b with
  | NaN, _ | _, NaN => false
  | Fin x, Fin y => Qle_bool x y
  | NInf, _ => true
  | _, PInf => true
  | _, _ => false
  end.

Definition np_eq (a b : npfloat) : bool :=
  match a, b with
  | Fin x, Fin y => Qeq_bool x y
  | PInf, PInf | NInf, NInf => true
  | _, _ => false
  end.

Definition np_neg (a : npfloat) : npfloat :=
  match a with
  | Fin x => Fin (- x)
  | PInf => NInf
  | NInf => PInf
  | NaN => NaN
  end.

Definition np_add (a b : npfloat) : npfloat :=
  match a, b with
  | NaN, _ | _, NaN => NaN
  | Fin x, Fin y => Fin (x + y)
  | PInf, NInf | NInf, PInf => NaN
  | PInf, _ | _, PInf => PInf
  | NInf, _ | _, NInf => NInf
  end.

Definition np_sub (a b : npfloat) : npfloat := np_add a (np_neg b).

(** The sign of a finite number picks the infinity of a product or of a
    quotient by zero. *)
Definition signed_inf (positive : bool) : npfloat :=
  if positive then PInf else NInf.

Definition np_mul (a b : npfloat) : npfloat :=
  match a, b with
  | NaN, _ | _, NaN => NaN
  | Fin x, Fin y => Fin (x * y)
  | Fin x, PInf | PInf, Fin x =>
      if Qeq_bool x 0 then NaN else signed_inf (Qlt_bool 0 x)
  | Fin x, NInf | NInf, Fin x =>
      if Qeq_bool x 0 then NaN else signed_inf (Qlt_bool x 0)
  | PInf, PInf | NInf, NInf => PInf
  | PInf, NInf | NInf, PInf => NInf
  end.

Definition np_div (a b : npfloat) : npfloat :=
  match a, b with
  | NaN, _ | _, NaN => NaN
  | Fin x, Fin y =>
      if Qeq_bool y 0
      then (if Qeq_bool x 0 then NaN else signed_inf (Qlt_bool 0 x))
      else Fin (x / y)
  | Fin _, _ => Fin 0
  | PInf, Fin y => signed_inf (Qle_bool 0 y)
  | NInf, Fin y => signed_inf (Qlt_bool y 0)
  | _, _ => NaN
  end.

(** [x % m] on a float array: the remainder takes the sign of the divisor,
    and a zero divisor gives nan. *)
Definition np_mod (x m : Q) : npfloat :=
  if Qeq_bool m 0 then NaN
  else Fin (x - m * inject_Z (Qfloor (x / m))).

(** ** numpy array functions used by the scripts

    One-dimensional float arrays are lists.  Arrays of the trajectory table
    hold finite numbers; arrays of wrapped positions hold [npfloat]s. *)

(** [np.concatenate] refuses an empty sequence of arrays. *)
Definition np_concatenate (arrays : list (list Q)) : result (list Q) :=
  match arrays with
  | [] => Raise ValueError
  | _ => Ok (List.concat arrays)
  end.

(** [np.min] and [np.max], like the builtins [min] and [max] on a list,
    refuse an empty argument. *)
Definition np_min (a : list Q) : result Q :=
  match a with
  | [] => Raise ValueError
  | x :: tl => Ok (fold_left py_min tl x)
  end.

Definition np_max (a : list Q) : result Q :=
  match a with
  | [] => Raise ValueError
  | x :: tl => Ok (fold_left py_max tl x)
  end.

(** [np.arange(start, stop, step)]: [ceil((stop - start) / step)] values
    [start + i * step], none when that count is not positive.  A zero step
    makes the length computation fail: with [ZeroDivisionError] on Python
    numbers, as here, and with another exception on numpy scalars, a
    difference that no statement below depends on. *)
Definition np_arange (start stop step : Q) : result (list Q) :=
  if Qeq_bool step 0 then Raise ZeroDivisionError
  else
    let n := Qceiling ((stop - start) / step) in
    Ok (map (fun i => start + inject_Z (Z.of_nat i) * step)
            (seq 0 (Z.to_nat n))).

(** [np.zeros((rows, cols))] refuses a negative dimension. *)
Definition np_zeros (rows cols : Z) : result (list (list Q)) :=
  if ((rows <? 0) || (cols <? 0))%Z then Raise ValueError
  else Ok (repeat (repeat 0 (Z.to_nat cols)) (Z.to_nat rows)).

(** [a[mask]] for a boolean [mask] of the length of [a]. *)
Definition take_mask {A} (a : list A) (mask : list bool) : list A :=
  map fst (filter snd (combine a mask)).

(** [np.any(mask)]. *)
Definition np_any (mask : list bool) : bool := existsb (fun b => b) mask.

(** *** [np.interp]

    The index search of numpy's [compiled_base.c], which assumes a sorted
    table but runs on any table; the scripts call it on wrapped positions,
    which need not be sorted. *)

Definition at_pos (arr : list npfloat) (i : Z) : npfloat :=
  nth (Z.to_nat i) arr NaN.

Definition at_val (arr : list Q) (i : Z) : Q :=
  nth (Z.to_nat i) arr 0.

Definition LIKELY_IN_CACHE_SIZE : Z := 8.

(** [for (i = i0; i < len && key >= arr[i]; i++); return i - 1;] *)
Fixpoint linear_scan (key : npfloat) (rest : list npfloat) (i : Z) : Z :=
  match rest with
  | [] => i
  | a :: tl => if np_le a key then linear_scan key tl (i + 1)%Z else i
  end.

Definition linear_search (key : npfloat) (arr : list npfloat) (i0 : nat) : Z :=
  (linear_scan key (skipn i0 arr) (Z.of_nat i0) - 1)%Z.

(** The closing bisection loop; [fuel] bounds the number of halvings. *)
Fixpoint bisect (fuel : nat) (key : npfloat) (arr : list npfloat)
    (imin imax : Z) : Z :=
  match fuel with
  | O => (imin - 1)%Z
  | S fuel' =>
      if (imin <? imax)%Z then
        let imid := (imin + Z.shiftr (imax - imin) 1)%Z in
        if np_le (at_pos arr imid) key
        then bisect fuel' key arr (imid + 1)%Z imax
        else bisect fuel' key arr imin imid
      else (imin - 1)%Z
  end.

Definition binary_search_with_guess (key : npfloat) (arr : list npfloat)
    (guess : Z) : Z :=
  let len := Z.of_nat (length arr) in
  let fuel := S (length arr) in
  if np_lt (at_pos arr (len - 1)) key then len
  else if np_lt key (at_pos arr 0) then (-1)%Z
  else if (len <=? 4)%Z then linear_search key arr 1
  else
    let guess := if (len - 3 <? guess)%Z then (len - 3)%Z else guess in
    let guess := if (guess <? 1)%Z then 1%Z else guess in
    if np_lt key (at_pos arr guess) then
      if np_lt key (at_pos arr (guess - 1)) then
        let imax := (guess - 1)%Z in
        let imin :=
          if (LIKELY_IN_CACHE_SIZE <? guess)%Z
             && np_le (at_pos arr (guess - LIKELY_IN_CACHE_SIZE)) key
          then (guess - LIKELY_IN_CACHE_SIZE)%Z else 0%Z in
        bisect fuel key arr imin imax
      else (guess - 1)%Z
    else if np_lt key (at_pos arr (guess + 1)) then guess
    else if np_lt key (at_pos arr (guess + 2)) then (guess + 1)%Z
    else
      let imin := (guess + 2)%Z in
      let imax :=
        if (guess <? len - LIKELY_IN_CACHE_SIZE - 1)%Z
           && np_lt key (at_pos arr (guess + LIKELY_IN_CACHE_SIZE))
        then (guess + LIKELY_IN_CACHE_SIZE)%Z else len in
      bisect fuel key arr imin imax.

(** The value at one abscissa once its index [j] is known. *)
Definition interp_value (x_val : Q) (dx : list npfloat) (dy : list Q)
    (left right : npfloat) (j : Z) : npfloat :=
  let lenxp := Z.of_nat (length dx) in
  if (j =? -1)%Z then left
  else if (j =? lenxp)%Z then right
  else if (j =? lenxp - 1)%Z then Fin (at_val dy j)
  else if np_eq (at_pos dx j) (Fin x_val) then Fin (at_val dy j)
  else
    let slope :=
      np_div (Fin (at_val dy (j + 1) - at_val dy j))
             (np_sub (at_pos dx (j + 1)) (at_pos dx j)) in
    let r :=
      np_add (np_mul slope (np_sub (Fin x_val) (at_pos dx j)))
             (Fin (at_val dy j)) in
    if isnan r then
      let r' :=
        np_add (np_mul slope (np_sub (Fin x_val) (at_pos dx (j + 1))))
               (Fin (at_val dy (j + 1))) in
      if isnan r' && Qeq_bool (at_val dy j) (at_val dy (j + 1))
      then Fin (at_val dy j) else r'
    else r.

(** The loop over the abscissas carries the last index as the next guess. *)
Fixpoint interp_loop (xs : list Q) (dx : list npfloat) (dy : list Q)
    (left right : npfloat) (j : Z) : list npfloat :=
  match xs with
  | [] => []
  | x_val :: rest =>
      let j' := binary_search_with_guess (Fin x_val) dx j in
      interp_value x_val dx dy left right j'
        :: interp_loop rest dx dy left right j'
  end.

(** [np.interp(x, xp, fp, left=left, right=right)] for non-empty tables of
    equal length, the only way the scripts call it. *)
Definition np_interp (x : list Q) (xp : list npfloat) (fp : list Q)
    (left right : npfloat) : list npfloat :=
  match xp, fp with
  | [xp_val], [fp_val] =>
      map (fun x_val =>
             if np_lt (Fin x_val) xp_val then left
             else if np_lt xp_val (Fin x_val) then right
             else Fin fp_val) x
  | _, _ => interp_loop x xp fp left right 0
  end.

(** ** The trajectory table

    [trajectories[veh_id]] is a dict of parallel arrays.  The key ['type']
    exists only in [mixed_edies_analysis.py]. *)

Record trajectory : Type := {
  time : list Q;
  pos : list Q;
  speed : list Q;
  lane : list string;
  type : option string
}.

(** A Python dict keeps its keys in insertion order. *)
Definition table : Type := list (string * trajectory).

(** The arrays of one vehicle have one entry per sample.  Masks are taken
    from the times and applied to the positions and the speeds, which numpy
    accepts for arrays of one length only; the tables that [parse_fcd_file]
    builds are of this kind. *)
Definition aligned (data : trajectory) : Prop :=
  length (pos data) = length (time data) /\
  length (speed data) = length (time data).

(** ** Computations over the trajectory table

    Both functions of a script work on one dict of arrays: [parse_fcd_file]
    fills it and then corrects its position arrays in place, and
    [calculate_macroscopic_quantities] receives it by reference.  The table
    is the store of a computation, which may fail and returns the store it
    leaves. *)

Definition M (A : Type) : Type := table -> result A * table.

Definition ret {A} (a : A) : M A := fun s => (Ok a, s).

Definition bind {A B} (m : M A) (k : A -> M B) : M B :=
  fun s =>
    match m s with
    | (Ok a, s') => k a s'
    | (Raise e, s') => (Raise e, s')
    end.

Definition lift {A} (r : result A) : M A := fun s => (r, s).

(** An update of every value of the dict, in place. *)
Definition update_values (f : trajectory -> trajectory) : M unit :=
  fun s => (Ok tt, map (fun entry => (fst entry, f (snd entry))) s).

(** [trajectories.items()] and [trajectories.values()]. *)
Definition trajectories_items : M (list (string * trajectory)) :=
  fun s => (Ok s, s).

Definition trajectories_values : M (list trajectory) :=
  fun s => (Ok (map snd s), s).

Notation "x <- m ;; k" := (bind m (fun x => k))
  (at level 61, m at next level, right associativity).

(** [for x in xs: body], collecting what the bodies produce. *)
Fixpoint for_each {A B} (xs : list A) (body : A -> M B) : M (list B) :=
  match xs with
  | [] => ret []
  | x :: rest =>
      b <- body x ;;
      bs <- for_each rest body ;;
      ret (b :: bs)
  end.

(** ** The reconstructor: [parse_fcd_file]

    The XML reader is not modelled: the input is the stream it yields, one
    group of vehicle elements per [timestep] element, attributes already
    converted. *)

Record vehicle : Type := {
  veh_id : string;
  veh_lane : string;
  raw_pos : Q;
  veh_speed : Q;
  veh_type : string
}.

Definition timestep : Type := (Q * list vehicle)%type.

Definition main_circle_length : Q := 90153 # 100.
Definition total_length : Q := 1000.

Fixpoint dict_get (k : string) (d : table) : option trajectory :=
  match d with
  | [] => None
  | (k', v) :: rest => if String.eqb k' k then Some v else dict_get k rest
  end.

(** [d[k] = v]: an existing key keeps its place, a new one goes last. *)
Fixpoint dict_set (k : string) (v : trajectory) (d : table) : table :=
  match d with
  | [] => [(k, v)]
  | (k', v') :: rest =>
      if String.eqb k' k then (k', v) :: rest
      else (k', v') :: dict_set k v rest
  end.

(** The value the [defaultdict] makes for a missing key. *)
Definition new_trajectory : trajectory :=
  {| time := []; pos := []; speed := []; lane := []; type := None |}.

Definition dict_get_default (k : string) (d : table) : trajectory :=
  match dict_get k d with
  | Some v => v
  | None => new_trajectory
  end.

(** The position of a sample on the axis of the corridor: the connector
    [b_0] follows the main circle. *)
Definition lane_position (lane_id : string) (raw : Q) : Q :=
  if String.eqb lane_id "b_0" then main_circle_length + raw else raw.

(** The position appended for a sample, given the positions already stored
    for the vehicle: one corridor length more when the previous stored
    position exceeds the new one by more than half a corridor. *)
Definition wrap_once (stored : list Q) (p : Q) : Q :=
  match stored with
  | [] => p
  | _ :: _ =>
      let prev_pos := last stored 0 in
      if Qlt_bool (p + total_length / 2) prev_pos then p + total_length else p
  end.

Definition continuous_position (stored : list Q) (lane_id : string)
    (raw : Q) : Q :=
  wrap_once stored (lane_position lane_id raw).

Definition append_sample (t : Q) (veh : vehicle) (data : trajectory)
    : trajectory :=
  {| time := time data ++ [t];
     pos := pos data
            ++ [continuous_position (pos data) (veh_lane veh) (raw_pos veh)];
     speed := speed data ++ [veh_speed veh];
     lane := lane data ++ [veh_lane veh];
     type := type data |}.

(** [positions[i:] += c], in place. *)
Definition add_from (i : nat) (c : Q) (positions : list Q) : list Q :=
  firstn i positions ++ map (fun p => p + c) (skipn i positions).

(** One iteration of the loop over [range(1, len(positions))]. *)
Definition lap_step (positions : list Q) (i : nat) : list Q :=
  if Qlt_bool (nth i positions 0) (nth (i - 1) positions 0 - total_length / 2)
  then add_from i total_length positions
  else positions.

Definition unwrap_laps (positions : list Q) : list Q :=
  fold_left lap_step (seq 1 (length positions - 1)) positions.

(** The second loop over the vehicles: the arrays are converted and the
    positions unwrapped. *)
Definition finish (data : trajectory) : trajectory :=
  {| time := time data;
     pos := unwrap_laps (pos data);
     speed := speed data;
     lane := lane data;
     type := type data |}.

Module Reconstructor.

Section Tagged.

(** How a vehicle element sets the ['type'] key of its trajectory. *)
Variable tag : vehicle -> trajectory -> trajectory.

Definition record_sample (t : Q) (trajectories : table) (veh : vehicle)
    : table :=
  let data := tag veh (dict_get_default (veh_id veh) trajectories) in
  dict_set (veh_id veh) (append_sample t veh data) trajectories.

Definition read_stream (stream : list timestep) : table :=
  fold_left
    (fun trajectories (step : timestep) =>
       fold_left (record_sample (fst step)) (snd step) trajectories)
    stream [].

Definition parse_fcd_file (stream : list timestep) : table :=
  snd (update_values finish (read_stream stream)).

End Tagged.

End Reconstructor.

(** ['regular' in veh_type]. *)
Fixpoint contains (needle s : string) : bool :=
  String.prefix needle s
  || match s with
     | EmptyString => false
     | String _ rest => contains needle rest
     end.


(** ** One vehicle in one cell

    The body of the innermost loop of [calculate_macroscopic_quantities],
    the same text in both scripts.  It updates the three counters of the
    cell. *)

Record totals : Type := {
  total_time_spent : Q;
  total_distance : Q;
  vehicles_crossed : nat
}.

Definition no_totals : totals :=
  {| total_time_spent := 0; total_distance := 0; vehicles_crossed := O |}.

(** The finite number held by an entry that passed a comparison. *)
Definition finite (p : npfloat) : Q :=
  match p with Fin q => q | _ => 0 end.

Section Cell.

Variables dt total_length : Q.
Variables t_start t_end x_start x_end : Q.

(** [(data['time'] >= t_start - dt) & (data['time'] <= t_end + dt)] *)
Definition time_mask (data : trajectory) : list bool :=
  map (fun t => Qle_bool (t_start - dt) t && Qle_bool t (t_end + dt))
      (time data).

(** [times] and [positions]: the samples of the window, positions wrapped. *)
Definition window_times (data : trajectory) : list Q :=
  take_mask (time data) (time_mask data).

Definition window_positions (data : trajectory) : list npfloat :=
  map (fun p => np_mod p total_length) (take_mask (pos data) (time_mask data)).

(** [(positions >= x_start) & (positions < x_end)] *)
Definition in_cell (p : npfloat) : bool :=
  np_le (Fin x_start) p && np_lt p (Fin x_end).

Definition cell_mask (positions : list npfloat) : list bool :=
  map in_cell positions.

Definition cell_times (data : trajectory) : list Q :=
  take_mask (window_times data) (cell_mask (window_positions data)).

Definition cell_positions (data : trajectory) : list Q :=
  map finite
      (take_mask (window_positions data) (cell_mask (window_positions data))).

Definition t_interp (data : trajectory) : list npfloat :=
  np_interp [x_start; x_end] (window_positions data) (window_times data)
            NaN NaN.

Definition time_in_cell (data : trajectory) : Q :=
  py_min t_end (last (cell_times data) 0)
  - py_max t_start (hd 0 (cell_times data)).

Definition distance_in_cell (data : trajectory) : Q :=
  let pos_start := py_max x_start (hd 0 (cell_positions data)) in
  let pos_end := py_min x_end (last (cell_positions data) 0) in
  pos_end - pos_start.

Definition add_time (acc : totals) (d : Q) : totals :=
  {| total_time_spent := total_time_spent acc + d;
     total_distance := total_distance acc;
     vehicles_crossed := vehicles_crossed acc |}.

Definition add_distance (acc : totals) (d : Q) : totals :=
  {| total_time_spent := total_time_spent acc;
     total_distance := total_distance acc + d;
     vehicles_crossed := vehicles_crossed acc |}.

Definition add_crossing (acc : totals) : totals :=
  {| total_time_spent := total_time_spent acc;
     total_distance := total_distance acc;
     vehicles_crossed := S (vehicles_crossed acc) |}.

Definition process_vehicle (acc : totals) (data : trajectory) : totals :=
  if negb (np_any (time_mask data)) then acc
  else
    let speeds := take_mask (speed data) (time_mask data) in
    if (1 <? length (window_times data))%nat then
      if (0 <? length (cell_times data))%nat then
        let acc :=
          if Qlt_bool 0 (time_in_cell data) then
            let acc := add_time acc (time_in_cell data) in
            if Qlt_bool 0 (distance_in_cell data)
            then add_distance acc (distance_in_cell data)
            else acc
          else acc in
        if negb (forallb isnan (t_interp data))
        then add_crossing acc
        else acc
      else acc
    else acc.

(** [for veh_id, data in trajectories.items()], with the filter of the
    mixed script. *)
Definition cell_totals (keep : trajectory -> bool)
    (items : list (string * trajectory)) : totals :=
  fold_left
    (fun acc item =>
       if keep (snd item) then process_vehicle acc (snd item) else acc)
    items no_totals.

End Cell.

(** The three quantities of a cell from its counters, before the change of
    units.  An entry that is not assigned keeps the 0 of [np.zeros]. *)
Definition cell_quantities (dx dt : Q) (acc : totals) : result (Q * Q * Q) :=
  let area := dx * dt in
  rbind (if Qlt_bool 0 area then py_div (total_time_spent acc) area else Ok 0)
    (fun density =>
  rbind (if Qlt_bool 0 dt
         then py_div (inject_Z (Z.of_nat (vehicles_crossed acc))) dt
         else Ok 0)
    (fun flow =>
  rbind (if Qlt_bool 0 (total_time_spent acc)
         then py_div (total_distance acc) (total_time_spent acc)
         else Ok 0)
    (fun speed => Ok (density, flow, speed)))).

(** ** The aggregator *)

(** [(bins[i], bins[i+1]) for i in range(len(bins) - 1)]. *)
Definition windows (bins : list Q) : list (Q * Q) :=
  combine bins (tl bins).

Definition outputs : Type :=
  (list (list Q) * list (list Q) * list (list Q) * list Q * list Q)%type.

Definition scale (c : Q) (a : list (list Q)) : list (list Q) :=
  map (map (fun v => v * c)) a.

(** The two nested loops over the cells; [keep] is the vehicle filter of the
    mixed script ([continue] on another type), constantly true in the
    other. *)
Definition cell (keep : trajectory -> bool) (dx dt total_length : Q)
    (tw xw : Q * Q) : M (Q * Q * Q) :=
  items <- trajectories_items ;;
  let acc :=
    cell_totals dt total_length (fst tw) (snd tw) (fst xw) (snd xw)
                keep items in
  lift (cell_quantities dx dt acc).

Definition cells (keep : trajectory -> bool) (dx dt total_length : Q)
    (t_bins x_bins : list Q) : M (list (list (Q * Q * Q))) :=
  for_each (windows t_bins) (fun tw =>
    for_each (windows x_bins) (fun xw =>
      cell keep dx dt total_length tw xw)).

(** What both scripts do once the time range is known. *)
Definition aggregate (keep : trajectory -> bool) (dx dt total_length : Q)
    (t_min t_max : Q) : M outputs :=
  x_bins <- lift (np_arange 0 (total_length + dx) dx) ;;
  t_bins <- lift (np_arange t_min (t_max + dt) dt) ;;
  _ <- lift (np_zeros (Z.of_nat (length t_bins) - 1)
                      (Z.of_nat (length x_bins) - 1)) ;;
  grid <- cells keep dx dt total_length t_bins x_bins ;;
  let density := scale 1000 (map (map (fun c => fst (fst c))) grid) in
  let flow := scale 3600 (map (map (fun c => snd (fst c))) grid) in
  let speed := scale (36 # 10) (map (map (fun c => snd c)) grid) in
  ret (density, flow, speed, removelast t_bins, removelast x_bins).

Module Edies.

(** [parse_fcd_file] of [edies_analysis.py]: no ['type'] key. *)
Definition parse_fcd_file : list timestep -> table :=
  Reconstructor.parse_fcd_file (fun _ data => data).

(** [calculate_macroscopic_quantities] of [edies_analysis.py]. *)
Definition calculate_macroscopic_quantities (dx dt total_length : Q)
    : M outputs :=
  values <- trajectories_values ;;
  all_times <- lift (np_concatenate (map time values)) ;;
  t_min <- lift (np_min all_times) ;;
  t_max <- lift (np_max all_times) ;;
  aggregate (fun _ => true) dx dt total_length t_min t_max.

End Edies.

Module Mixed.

(** [parse_fcd_file] of [mixed_edies_analysis.py]: the first element of a
    vehicle fixes its type. *)
Definition parse_fcd_file : list timestep -> table :=
  Reconstructor.parse_fcd_file
    (fun veh data =>
       match type data with
       | Some _ => data
       | None =>
           {| time := time data; pos := pos data; speed := speed data;
              lane := lane data;
              type := Some (if contains "regular" (veh_type veh)
                            then "regular" else "stable")%string |}
       end).

(** [veh_type is None or data['type'] == veh_type]. *)
Definition of_type (veh_type : option string) (data : trajectory) : bool :=
  match veh_type with
  | None => true
  | Some v =>
      match type data with
      | Some t => String.eqb t v
      | None => false
      end
  end.

(** [calculate_macroscopic_quantities] of [mixed_edies_analysis.py]. *)
Definition calculate_macroscopic_quantities (dx dt total_length : Q)
    (veh_type : option string) : M outputs :=
  values <- trajectories_values ;;
  let all_times :=
    List.concat (map time (filter (of_type veh_type) values)) in
  t_min <- lift (np_min all_times) ;;
  t_max <- lift (np_max all_times) ;;
  aggregate (of_type veh_type) dx dt total_length t_min t_max.

End Mixed.


(** ** Views used by the statements *)

(** The samples of one vehicle, in stream order. *)
Definition records_of (k : string) (stream : list timestep)
    : list (Q * vehicle) :=
  flat_map
    (fun step : timestep =>
       map (fun veh => (fst step, veh))
           (filter (fun veh => String.eqb (veh_id veh) k) (snd step)))
    stream.

(** The trajectory of a vehicle after its samples [rs], starting from
    [data]. *)
Definition track (tag : vehicle -> trajectory -> trajectory)
    (data : trajectory) (rs : list (Q * vehicle)) : trajectory :=
  fold_left (fun data r => append_sample (fst r) (snd r) (tag (snd r) data))
            rs data.

(** What the table holds for a vehicle once the samples [rs] of that
    vehicle are appended to the entry [o], absent or present. *)
Definition start_of (o : option trajectory) : trajectory :=
  match o with Some v => v | None => new_trajectory end.

Definition after (tag : vehicle -> trajectory -> trajectory)
    (o : option trajectory) (rs : list (Q * vehicle)) : option trajectory :=
  match rs with
  | [] => o
  | _ :: _ => Some (track tag (start_of o) rs)
  end.

(** The stored positions after the corridor positions [ps], starting from
    [stored]. *)
Definition stitch (stored : list Q) (ps : list Q) : list Q :=
  fold_left (fun stored p => stored ++ [wrap_once stored p]) ps stored.

Definition sample_position (r : Q * vehicle) : Q :=
  lane_position (veh_lane (snd r)) (raw_pos (snd r)).

(** No position is more than half a corridor behind the one before it. *)
Fixpoint no_drop (prev : Q) (ps : list Q) : Prop :=
  match ps with
  | [] => True
  | p :: rest => prev <= p + total_length / 2 /\ no_drop p rest
  end.

Definition steady (ps : list Q) : Prop :=
  match ps with
  | [] => True
  | p :: rest => no_drop p rest
  end.

(** The number of laps a vehicle has completed at each sample, as a
    rational, and the number of those laps that the first pass over the
    stream leaves out of the stored position: all but the first. *)
Definition laps_done (m : nat -> nat) (k : nat) : Q :=
  inject_Z (Z.of_nat (m k)).

Definition laps_missed (m : nat -> nat) (k : nat) : Q :=
  inject_Z (Z.of_nat (pred (m k))).

(** ** A vehicle at constant speed on the ring

    Sample [k] is taken at time [k * step]; the vehicle is then [v * t]
    metres from its start, on lane [a_0] for the first [main_circle_length]
    metres of each lap and on the connector [b_0] for the rest. *)

Definition corridor_position (x : Q) : Q :=
  x - total_length * inject_Z (Qfloor (x / total_length)).

Definition constant_speed_sample (name : string) (v step : Q) (k : nat)
    : Q * vehicle :=
  let t := inject_Z (Z.of_nat k) * step in
  let c := corridor_position (v * t) in
  (t,
   if Qlt_bool c main_circle_length
   then {| veh_id := name; veh_lane := "a_0"; raw_pos := c;
           veh_speed := v; veh_type := "regular" |}
   else {| veh_id := name; veh_lane := "b_0";
           raw_pos := c - main_circle_length;
           veh_speed := v; veh_type := "regular" |}).

Definition constant_speed_records (name : string) (v step : Q) (n : nat)
    : list (Q * vehicle) :=
  map (constant_speed_sample name v step) (seq 0 n).

Definition constant_speed_stream (name : string) (v step : Q) (n : nat)
    : list timestep :=
  map (fun r => (fst r, [snd r])) (constant_speed_records name v step n).

(** ** The cells of a run

    The quantities of a cell as plain functions of its counters, and the
    counters of every cell of a grid. *)

Definition cell_density (dx dt : Q) (acc : totals) : Q :=
  if Qlt_bool 0 (dx * dt) then total_time_spent acc / (dx * dt) else 0.

Definition cell_flow (dt : Q) (acc : totals) : Q :=
  if Qlt_bool 0 dt then inject_Z (Z.of_nat (vehicles_crossed acc)) / dt else 0.

Definition cell_speed (acc : totals) : Q :=
  if Qlt_bool 0 (total_time_spent acc)
  then total_distance acc / total_time_spent acc else 0.

Definition grid_totals (keep : trajectory -> bool) (dt total_length : Q)
    (t_bins x_bins : list Q) (T : table) : list (list totals) :=
  map (fun tw =>
         map (fun xw =>
                cell_totals dt total_length (fst tw) (snd tw)
                            (fst xw) (snd xw) keep T)
             (windows x_bins))
      (windows t_bins).

(** The arrays returned for a grid, and the value of a run once the time
    range is known. *)
Definition grid_outputs (keep : trajectory -> bool) (dx dt total_length : Q)
    (t_bins x_bins : list Q) (T : table) : outputs :=
  let grid := grid_totals keep dt total_length t_bins x_bins T in
  (scale 1000 (map (map (cell_density dx dt)) grid),
   scale 3600 (map (map (cell_flow dt)) grid),
   scale (36 # 10) (map (map cell_speed) grid),
   removelast t_bins, removelast x_bins).

Definition aggregate_value (keep : trajectory -> bool)
    (dx dt total_length t_min t_max : Q) (T : table) : result outputs :=
  rbind (np_arange 0 (total_length + dx) dx) (fun x_bins =>
  rbind (np_arange t_min (t_max + dt) dt) (fun t_bins =>
  rbind (np_zeros (Z.of_nat (length t_bins) - 1)
                  (Z.of_nat (length x_bins) - 1)) (fun _ =>
  Ok (grid_outputs keep dx dt total_length t_bins x_bins T)))).

(** The bin edges of a run of [edies_analysis.py]: [x_bins] and [t_bins]. *)
Definition x_edges (dx total_length : Q) : result (list Q) :=
  np_arange 0 (total_length + dx) dx.

Definition t_edges (dt : Q) (T : table) : result (list Q) :=
  rbind (np_concatenate (map time (map snd T))) (fun all_times =>
  rbind (np_min all_times) (fun t_min =>
  rbind (np_max all_times) (fun t_max =>
  np_arange t_min (t_max + dt) dt))).

(** The entry [a[i, j]] of a two-dimensional array. *)
Definition entry {A} (a : list (list A)) (i j : nat) : option A :=
  match nth_error a i with
  | Some row => nth_error row j
  | None => None
  end.

(** A computation that leaves the store as it found it. *)
Definition read_only {A} (m : M A) : Prop :=
  forall s, snd (m s) = s.

(** No sample of the vehicle in the window of the cell has its wrapped
    position in the cell. *)
Definition misses_cell (dt total_length t_start t_end x_start x_end : Q)
    (data : trajectory) : Prop :=
  Forall (fun p => in_cell x_start x_end p = false)
         (window_positions dt total_length t_start t_end data).

Definition is_finite (p : npfloat) : Prop := exists q, p = Fin q.

(** The abscissa [x] lies between the first and the last entry of the
    interpolation table. *)
Definition on_range (x : Q) (xp : list npfloat) : bool :=
  np_le (hd NaN xp) (Fin x) && np_le (Fin x) (last xp NaN).

(** Two tables that differ at most in the speeds they record. *)
Definition same_but_speed (d d' : trajectory) : Prop :=
  time d = time d' /\ pos d = pos d' /\ lane d = lane d' /\
  type d = type d' /\ length (speed d) = length (speed d').

Definition tables_same_but_speed (T T' : table) : Prop :=
  Forall2 (fun e e' => fst e = fst e' /\ same_but_speed (snd e) (snd e')) T T'.

(** The distance travelled at sample [k] by a vehicle at constant speed, and
    the laps it has completed there. *)
Definition travelled (v step : Q) (k : nat) : Q :=
  v * (inject_Z (Z.of_nat k) * step).

Definition lap_of (v step : Q) (k : nat) : nat :=
  Z.to_nat (Qfloor (travelled v step k / total_length)).

(** ** Concrete inputs *)

Definition samples (times positions : list Q) : trajectory :=
  {| time := times; pos := positions;
     speed := map (fun _ => 0) times;
     lane := map (fun _ => "a_0"%string) times;
     type := Some "regular"%string |}.

(** One vehicle seen once. *)
Definition lone_sample : table := [("veh0"%string, samples [0] [0])].

(** A vehicle that steps over the cell [[100, 200)], one that ends in it,
    and one that was in the cell [[0, 100)] only before the time bin
    [[100, 200)]. *)
Definition stepping_over : trajectory := samples [0; 10] [50; 250].
Definition ending_inside : trajectory := samples [0; 10] [50; 150].
Definition early_visit : trajectory := samples [0; 10; 150] [10; 20; 500].

(** The scenario of one vehicle at 10 m/s from position 0 at time 0, seen
    once per second up to time 100, as the reconstructor delivers it. *)
Definition scenario_table : table :=
  Edies.parse_fcd_file (constant_speed_stream "veh0" 10 1 101).

Definition scenario_run : result outputs :=
  fst (Edies.calculate_macroscopic_quantities 100 100 1000 scenario_table).

(** The counters of the cells of the time bin [[0, 100)], on the grid of
    that run. *)
Definition scenario_totals : list totals :=
  match np_arange 0 (100 + 100) 100, np_arange 0 (1000 + 100) 100 with
  | Ok t_bins, Ok x_bins =>
      hd [] (grid_totals (fun _ => true) 100 1000 t_bins x_bins scenario_table)
  | _, _ => []
  end.

(** A trajectory of that vehicle under any sampling: every sample is taken
    at a time of [[0, 100]] and lies at [10 * t]. *)
Definition on_scenario (data : trajectory) : Prop :=
  Forall2 (fun t p => 0 <= t <= 100 /\ p == 10 * t) (time data) (pos data).

(** A table of one vehicle, and the same table with other speeds. *)
Definition one_vehicle : table := [("veh0"%string, ending_inside)].

Definition one_vehicle_faster : table :=
  [("veh0"%string,
    {| time := [0; 10]; pos := [50; 150]; speed := [10; 10];
       lane := ["a_0"; "a_0"]%string; type := Some "regular"%string |})].

(** What a run on [one_vehicle] returns with two space bins. *)
Definition one_vehicle_outputs : outputs :=
  Eval vm_compute in
    match fst (Edies.calculate_macroscopic_quantities 500 10 1000 one_vehicle)
    with
    | Ok out => out
    | Raise _ => ([], [], [], [], [])
    end.

(** A vehicle that leaves the main circle for the connector. *)
Definition on_lane (lane_id : string) (raw : Q) : vehicle :=
  {| veh_id := "veh0"; veh_lane := lane_id; raw_pos := raw;
     veh_speed := 10; veh_type := "regular" |}.

Definition on_main_circle : list (Q * vehicle) :=
  [(0, on_lane "a_0" 890); (1, on_lane "a_0" 900)].

Definition on_connector : list (Q * vehicle) :=
  [(2, on_lane "b_0" (847 # 100)); (3, on_lane "b_0" (1847 # 100))].

Definition connector_stream : list timestep :=
  map (fun r => (fst r, [snd r])) (on_main_circle ++ on_connector).

(** [a[i, j]] exists and equals [q]. *)
Definition entry_is (a : list (list Q)) (i j : nat) (q : Q) : Prop :=
  exists v, entry a i j = Some v /\ v == q.

(** ** More views of the table and of a run *)

(** The keys of the table, in the order of the dict. *)
Definition keys (d : table) : list string := map fst d.

(** The number of corridor lengths that the loop of [unwrap_laps] has added
    to the position of index [j]: one for every earlier step back by more
    than half a corridor. *)
Fixpoint lap_count (positions : list Q) (j : nat) : nat :=
  match j with
  | O => O
  | S i =>
      let n := lap_count positions i in
      if Qlt_bool (nth (S i) positions 0)
                  (nth i positions 0 - total_length / 2)
      then S n else n
  end.

(** The arrays of a vehicle hold one entry per sample, lanes included. *)
Definition well_formed (data : trajectory) : Prop :=
  aligned data /\ length (lane data) = length (time data).

(** The tag of the mixed script, and the type it derives from the [type]
    attribute of a vehicle element. *)
Definition vehicle_class (veh : vehicle) : string :=
  if contains "regular" (veh_type veh) then "regular" else "stable".

(** The time range of a table, as both scripts compute it from the times of
    the vehicles that [keep] selects. *)
Definition time_range (keep : trajectory -> bool) (T : table)
    : result (Q * Q) :=
  let all_times := List.concat (map time (filter keep (map snd T))) in
  rbind (np_min all_times) (fun t_min =>
  rbind (np_max all_times) (fun t_max => Ok (t_min, t_max))).

(** ** [unwrap_positions] of [plot_trajectories.py] *)

(** [np.diff(a)]: [a[i+1] - a[i]]. *)
Definition np_diff (a : list Q) : list Q :=
  map (fun w => snd w - fst w) (combine a (tl a)).

(** [np.where(mask)[0]]: the indices at which the mask holds. *)
Definition np_where (mask : list bool) : list nat :=
  take_mask (seq 0 (length mask)) mask.

(** [a[i] += c], in place. *)
Definition add_at (i : nat) (c : Q) (a : list Q) : list Q :=
  firstn i a
  ++ match skipn i a with
     | [] => []
     | x :: rest => (x + c) :: rest
     end.

Definition unwrap_positions (times positions : list Q) (road_length : Q)
    : list Q :=
  let unwrapped_pos := positions in
  let pos_diff := np_diff positions in
  let jumps :=
    np_where (map (fun d => Qlt_bool d (- road_length / 2)) pos_diff) in
  snd
    (fold_left
       (fun (state : nat * list Q) (i : nat) =>
          let current_lap :=
            if (0 <? i)%nat && existsb (Nat.eqb (i - 1)) jumps
            then S (fst state) else fst state in
          (current_lap,
           add_at i (inject_Z (Z.of_nat current_lap) * road_length)
                  (snd state)))
       (seq 0 (length positions))
       (O, unwrapped_pos)).

(** ** Detector data: [read_detector_data]

    An [interval] element of the detector output, with the attributes that
    the scripts read; [None] is an attribute that the element lacks.
    [float(None)] raises a [TypeError], the only failure of these
    functions, so that their result is an [option]. *)

Record interval : Type := {
  a_begin : option Q;
  a_flow : option Q;
  a_harmonicMeanSpeed : option Q;
  a_occupancy : option Q
}.

Definition obind {A B} (o : option A) (k : A -> option B) : option B :=
  match o with
  | Some a => k a
  | None => None
  end.

(** [interval.get(name, 0)]. *)
Definition get_or_zero (attribute : option Q) : Q :=
  match attribute with
  | Some q => q
  | None => 0
  end.

Module Detector.

(** The dict of [plot_fundamental_diagram.py]. *)
Record data : Type := {
  flow : list Q;
  space_mean_speed : list Q;
  occupancy : list Q;
  density : list Q
}.

(** The loop over the intervals: the three lists, in reading order. *)
Fixpoint read_intervals (intervals : list interval)
    (acc : list Q * list Q * list Q)
    : option (list Q * list Q * list Q) :=
  match intervals with
  | [] => Some acc
  | i :: rest =>
      obind (a_harmonicMeanSpeed i) (fun speed =>
        if Qlt_bool 0 speed then
          obind (a_flow i) (fun flow =>
          obind (a_harmonicMeanSpeed i) (fun speed' =>
          obind (a_occupancy i) (fun occupancy =>
            let '(flows, speeds, occupancies) := acc in
            read_intervals rest
              (flows ++ [flow], speeds ++ [speed'],
               occupancies ++ [occupancy]))))
        else read_intervals rest acc)
  end.

(** [read_detector_data] of [plot_fundamental_diagram.py]. *)
Definition read_detector_data (intervals : list interval) : option data :=
  obind (read_intervals intervals ([], [], [])) (fun lists =>
    let '(flows, speeds, occupancies) := lists in
    let space_mean_speed_kmh := map (fun v => v * (36 # 10)) speeds in
    Some {| flow := flows;
            space_mean_speed := speeds;
            occupancy := occupancies;
            density :=
              map (fun w => fst w / snd w)
                  (combine flows space_mean_speed_kmh) |}).

End Detector.

Module MixedDetector.

(** The dict of [plot_mixed_fundamental.py]. *)
Record data : Type := {
  flow : list Q;
  speed : list Q;
  density : list Q;
  time : list Q
}.

Definition no_data : data :=
  {| flow := []; speed := []; density := []; time := [] |}.

(** [read_detector_data] of [plot_mixed_fundamental.py]. *)
Fixpoint read_intervals (intervals : list interval) (acc : data)
    : option data :=
  match intervals with
  | [] => Some acc
  | i :: rest =>
      obind (a_begin i) (fun t =>
        let f := get_or_zero (a_flow i) in
        let v := get_or_zero (a_harmonicMeanSpeed i) in
        if Qle_bool v 0 then read_intervals rest acc
        else
          let k := if Qlt_bool 0 v then f / (v * (36 # 10)) else 0 in
          read_intervals rest
            {| time := time acc ++ [t];
               flow := flow acc ++ [f];
               speed := speed acc ++ [v];
               density := density acc ++ [k] |})
  end.

Definition read_detector_data (intervals : list interval) : option data :=
  read_intervals intervals no_data.

End MixedDetector.

(** ** [get_vehicle_types] of [plot_mixed_fundamental.py] *)

Fixpoint types_get (k : string) (d : list (string * string)) : option string :=
  match d with
  | [] => None
  | (k', v) :: rest => if String.eqb k' k then Some v else types_get k rest
  end.

(** [if vid not in vehicle_types: vehicle_types[vid] = ...] *)
Definition note_type (vehicle_types : list (string * string)) (veh : vehicle)
    : list (string * string) :=
  match types_get (veh_id veh) vehicle_types with
  | Some _ => vehicle_types
  | None => vehicle_types ++ [(veh_id veh, vehicle_class veh)]
  end.

Definition get_vehicle_types (stream : list timestep)
    : list (string * string) :=
  fold_left
    (fun vehicle_types (step : timestep) =>
       fold_left note_type (snd step) vehicle_types)
    stream [].

(** ** [greenshields_model]

    The speed at density [k], for scalars; [kj] is not zero in any
    statement below. *)
Definition greenshields_model (k uf kj : Q) : Q := uf * (1 - k / kj).

(** ** Views used by the statements on the table and the grid *)

(** The vehicle id [k] occurs in the stream. *)
Definition appears (k : string) (stream : list timestep) : Prop :=
  exists step veh, In step stream /\ In veh (snd step) /\ veh_id veh = k.

(** What both scripts share: a tag that touches the ['type'] key only. *)
Definition keeps_arrays (tag : vehicle -> trajectory -> trajectory) : Prop :=
  forall veh d,
    time (tag veh d) = time d /\ pos (tag veh d) = pos d
    /\ speed (tag veh d) = speed d /\ lane (tag veh d) = lane d.

(** The entry of a vehicle holds the times, speeds and lanes of its samples,
    in stream order, and as many positions. *)
Definition recorded (stream : list timestep) (e : string * trajectory)
    : Prop :=
  let rs := records_of (fst e) stream in
  time (snd e) = map fst rs
  /\ speed (snd e) = map (fun r => veh_speed (snd r)) rs
  /\ lane (snd e) = map (fun r => veh_lane (snd r)) rs
  /\ length (pos (snd e)) = length rs
  /\ well_formed (snd e).

(** The state of the loop of [unwrap_laps] before the iteration [i]: the
    positions up to [i - 1] have their laps, the later ones those of
    [i - 1]. *)
Definition laps_added_before (ps : list Q) (i : nat) (l : list Q) : Prop :=
  length l = length ps
  /\ forall j, (j < length ps)%nat ->
       nth j l 0
       == nth j ps 0
          + inject_Z (Z.of_nat (lap_count ps (Nat.min j (i - 1))))
            * total_length.

(** The state of the loop of [unwrap_positions] before the iteration [i]:
    the lap counter, and the positions below [i] with their laps. *)
Definition lap_added (i : nat) (positions : list Q) (state : nat * list Q)
    : Prop :=
  fst state = lap_count positions (i - 1)
  /\ length (snd state) = length positions
  /\ forall j, (j < length positions)%nat ->
       nth j (snd state) 0
       == if (j <? i)%nat
          then nth j positions 0
               + inject_Z (Z.of_nat (lap_count positions j)) * total_length
          else nth j positions 0.

(** The stored position [p] of the sample [r], wrapped by the aggregator
    for a corridor of [total_length], is the position of the sample on the
    corridor. *)
Definition rewrapped (p : Q) (r : Q * vehicle) : Prop :=
  exists q,
    np_mod p total_length = Fin q
    /\ 0 <= q < total_length
    /\ q == corridor_position (sample_position r)
    /\ (0 <= sample_position r < total_length -> q == sample_position r).

(** The counters of a cell after at most [n] vehicles. *)
Definition within (t_start t_end x_start x_end : Q) (n : nat) (acc : totals)
    : Prop :=
  0 <= total_time_spent acc
  /\ 0 <= total_distance acc
  /\ (t_start <= t_end ->
      total_time_spent acc <= inject_Z (Z.of_nat n) * (t_end - t_start))
  /\ (x_start <= x_end ->
      total_distance acc <= inject_Z (Z.of_nat n) * (x_end - x_start))
  /\ (vehicles_crossed acc <= n)%nat.

(** Density, flow and speed of a cell, in the units returned, for a table
    of [n] vehicles. *)
Definition bounded_values (dx dt : Q) (n : nat) (c : Q * Q * Q) : Prop :=
  let N := inject_Z (Z.of_nat n) in
  0 <= fst (fst c)
  /\ fst (fst c) * dx <= 1000 * N
  /\ 0 <= snd (fst c)
  /\ snd (fst c) * dt <= 3600 * N
  /\ 0 <= snd c.

(** What the detector readers take from an interval. *)
Definition flow_of (i : interval) : Q := get_or_zero (a_flow i).
Definition speed_of (i : interval) : Q := get_or_zero (a_harmonicMeanSpeed i).
Definition occupancy_of (i : interval) : Q := get_or_zero (a_occupancy i).
Definition begin_of (i : interval) : Q := get_or_zero (a_begin i).

(** The interval has a positive harmonic mean speed. *)
Definition measured (i : interval) : bool := Qlt_bool 0 (speed_of i).

Definition density_of (i : interval) : Q :=
  if measured i then flow_of i / (speed_of i * (36 # 10)) else 0.

Definition has_begin (i : interval) : bool :=
  match a_begin i with Some _ => true | None => false end.

(** The interval has the attributes that [plot_fundamental_diagram.py]
    converts. *)
Definition readable (i : interval) : bool :=
  match a_harmonicMeanSpeed i with
  | None => false
  | Some v =>
      if Qlt_bool 0 v
      then match a_flow i, a_occupancy i with
           | Some _, Some _ => true
           | _, _ => false
           end
      else true
  end.

(** ** More concrete inputs *)

(** The arrays of [one_vehicle_outputs]. *)
Definition one_vehicle_density : list (list Q) :=
  fst (fst (fst (fst one_vehicle_outputs))).
Definition one_vehicle_flow : list (list Q) :=
  snd (fst (fst (fst one_vehicle_outputs))).
Definition one_vehicle_speed : list (list Q) :=
  snd (fst (fst one_vehicle_outputs)).

(** Positions with one step back over the end of the corridor. *)
Definition one_lap : list Q := [900; 100; 200].

(** An interval with a measurement and one without vehicles. *)
Definition two_intervals : list interval :=
  [{| a_begin := Some 0; a_flow := Some 720;
      a_harmonicMeanSpeed := Some 10; a_occupancy := Some 5 |};
   {| a_begin := Some 60; a_flow := Some 0;
      a_harmonicMeanSpeed := Some (-1); a_occupancy := Some 0 |}].

Definition two_intervals_data : Detector.data :=
  {| Detector.flow := [720];
     Detector.space_mean_speed := [10];
     Detector.occupancy := [5];
     Detector.density := [720 / (10 * (36 # 10))] |}.

(** ** Inputs and views for the corrected statements *)

(** One step along the corridor: forward by less than half a corridor,
    either without passing its end or over its end into the next lap. *)
Definition forward_step (c c' : Q) : Prop :=
  (c <= c' /\ c' - c < total_length / 2)
  \/ (c - total_length <= c' /\ c' < c - total_length / 2).

Fixpoint forward_from (prev : Q) (ps : list Q) : Prop :=
  match ps with
  | [] => True
  | p :: rest => forward_step prev p /\ forward_from p rest
  end.

Definition forward (ps : list Q) : Prop :=
  match ps with
  | [] => True
  | p :: rest => forward_from p rest
  end.

(** A vehicle that passes the connector twice. *)
Definition two_laps : list (Q * vehicle) :=
  [(0, on_lane "a_0" 890); (1, on_lane "b_0" (847 # 100));
   (2, on_lane "a_0" 10); (3, on_lane "a_0" 450);
   (4, on_lane "a_0" 890); (5, on_lane "b_0" (847 # 100))].

Definition two_laps_stream : list timestep :=
  map (fun r => (fst r, [snd r])) two_laps.

(** The sample [(t, p)] lies in the cell: its time in the time bin and its
    wrapped position in the space bin. *)
Definition inside_rectangle (L t_start t_end x_start x_end : Q)
    (sample : Q * Q) : bool :=
  Qle_bool t_start (fst sample) && Qlt_bool (fst sample) t_end
  && in_cell x_start x_end (np_mod (snd sample) L).

(** No sample of the vehicle lies in the cell. *)
Definition untouched (L t_start t_end x_start x_end : Q)
    (data : trajectory) : Prop :=
  Forall (fun sample =>
            inside_rectangle L t_start t_end x_start x_end sample = false)
         (combine (time data) (pos data)).

(** The dict of every vehicle has the key ['type'].  In a [trajectory] the
    field [type := None] stands for a dict without that key, as in the
    tables of [edies_analysis.py], on which [data['type']] fails. *)
Definition typed (T : table) : Prop :=
  Forall (fun e => type (snd e) <> None) T.

(** A run on [early_visit] with bins of 100 s and 100 m. *)
Definition early_visit_table : table := [("veh0"%string, early_visit)].

Definition early_visit_outputs : outputs :=
  Eval vm_compute in
    match fst (Edies.calculate_macroscopic_quantities 100 100 1000
                 early_visit_table)
    with
    | Ok out => out
    | Raise _ => ([], [], [], [], [])
    end.

(** * Properties *)

(** ** Comparisons *)

Lemma Qlt_bool_iff x y : Qlt_bool x y = true <-> x < y.
Proof.
  unfold Qlt_bool. rewrite negb_true_iff.
  split; intro H.
  - apply Qnot_le_lt. intro Hle. apply Qle_bool_iff in Hle. congruence.
  - destruct (Qle_bool y x) eqn:E; [| reflexivity].
    apply Qle_bool_iff in E. exfalso. apply (Qlt_not_le _ _ H E).
Qed.

Lemma Qlt_bool_false x y : Qlt_bool x y = false <-> y <= x.
Proof.
  unfold Qlt_bool. rewrite negb_false_iff. apply Qle_bool_iff.
Qed.

Lemma Qle_bool_false x y : Qle_bool x y = false <-> y < x.
Proof.
  rewrite <- Qlt_bool_iff. unfold Qlt_bool.
  destruct (Qle_bool x y); simpl; split; congruence.
Qed.

Lemma py_max_lub a b c : py_max a b <= c <-> a <= c /\ b <= c.
Proof.
  unfold py_max. destruct (Qlt_bool a b) eqn:E.
  - apply Qlt_bool_iff in E. split; [intro | intros []]; [split |]; lra.
  - apply Qlt_bool_false in E. split; [intro | intros []]; [split |]; lra.
Qed.

Lemma py_min_glb a b c : c <= py_min a b <-> c <= a /\ c <= b.
Proof.
  unfold py_min. destruct (Qlt_bool b a) eqn:E.
  - apply Qlt_bool_iff in E. split; [intro | intros []]; [split |]; lra.
  - apply Qlt_bool_false in E. split; [intro | intros []]; [split |]; lra.
Qed.


(** ** Computations over the table *)

Lemma bind_run {A B} (m : M A) (k : A -> M B) s a :
  m s = (Ok a, s) -> bind m k s = k a s.
Proof. unfold bind. intros ->. reflexivity. Qed.

Lemma bind_raise {A B} (m : M A) (k : A -> M B) s e :
  m s = (Raise e, s) -> bind m k s = (Raise e, s).
Proof. unfold bind. intros ->. reflexivity. Qed.

Lemma read_only_ret {A} (a : A) : read_only (ret a).
Proof. intro s. reflexivity. Qed.

Lemma read_only_lift {A} (r : result A) : read_only (lift r).
Proof. intro s. reflexivity. Qed.

Lemma read_only_items : read_only trajectories_items.
Proof. intro s. reflexivity. Qed.

Lemma read_only_values : read_only trajectories_values.
Proof. intro s. reflexivity. Qed.

Lemma read_only_bind {A B} (m : M A) (k : A -> M B) :
  read_only m -> (forall a, read_only (k a)) -> read_only (bind m k).
Proof.
  intros Hm Hk s. unfold bind.
  specialize (Hm s). destruct (m s) as [[a | e] s']; simpl in Hm; subst s'.
  - apply Hk.
  - reflexivity.
Qed.

Lemma read_only_for_each {A B} (xs : list A) (body : A -> M B) :
  (forall x, read_only (body x)) -> read_only (for_each xs body).
Proof.
  intro Hbody. induction xs as [| x rest IH]; simpl.
  - apply read_only_ret.
  - apply read_only_bind; [apply Hbody |]. intro b.
    apply read_only_bind; [exact IH |]. intro bs. apply read_only_ret.
Qed.

Create HintDb store.

#[local] Hint Resolve read_only_ret read_only_lift read_only_items
  read_only_values : store.

(** The second loop of [parse_fcd_file] is not of this kind: it rewrites
    the positions of a vehicle that falls back by more than half a
    corridor. *)
Example unwrapping_writes : ~ read_only (update_values finish).
Proof.
  intro H. specialize (H [("veh0"%string, samples [0; 1] [900; 100])]).
  vm_compute in H. discriminate.
Qed.

Lemma read_only_cell keep dx dt L tw xw : read_only (cell keep dx dt L tw xw).
Proof.
  unfold cell. apply read_only_bind; auto with store.
Qed.

Lemma read_only_cells keep dx dt L t_bins x_bins :
  read_only (cells keep dx dt L t_bins x_bins).
Proof.
  unfold cells. apply read_only_for_each. intro tw.
  apply read_only_for_each. intro xw. apply read_only_cell.
Qed.

Lemma read_only_aggregate keep dx dt L t_min t_max :
  read_only (aggregate keep dx dt L t_min t_max).
Proof.
  unfold aggregate.
  do 3 (apply read_only_bind; [auto with store |]; intro).
  apply read_only_bind; [apply read_only_cells |]; intro.
  apply read_only_ret.
Qed.

Lemma read_only_edies dx dt L :
  read_only (Edies.calculate_macroscopic_quantities dx dt L).
Proof.
  unfold Edies.calculate_macroscopic_quantities.
  do 4 (apply read_only_bind; [auto with store |]; intro).
  apply read_only_aggregate.
Qed.

Lemma read_only_mixed dx dt L veh_type :
  read_only (Mixed.calculate_macroscopic_quantities dx dt L veh_type).
Proof.
  unfold Mixed.calculate_macroscopic_quantities.
  do 3 (apply read_only_bind; [auto with store |]; intro).
  apply read_only_aggregate.
Qed.

(** ** The value of a run *)

Lemma py_div_pos a b : 0 < b -> py_div a b = Ok (a / b).
Proof.
  intro H. unfold py_div.
  destruct (Qeq_bool b 0) eqn:E; [| reflexivity].
  apply Qeq_bool_iff in E. lra.
Qed.

Lemma cell_quantities_ok dx dt acc :
  cell_quantities dx dt acc
  = Ok (cell_density dx dt acc, cell_flow dt acc, cell_speed acc).
Proof.
  unfold cell_quantities, cell_density, cell_flow, cell_speed.
  destruct (Qlt_bool 0 (dx * dt)) eqn:Ea;
    [apply Qlt_bool_iff in Ea; rewrite (py_div_pos _ _ Ea) |];
  (destruct (Qlt_bool 0 dt) eqn:Et;
    [apply Qlt_bool_iff in Et; rewrite (py_div_pos _ _ Et) |]);
  (destruct (Qlt_bool 0 (total_time_spent acc)) eqn:Es;
    [apply Qlt_bool_iff in Es; rewrite (py_div_pos _ _ Es) |]);
  reflexivity.
Qed.

Lemma for_each_run {A B} (xs : list A) (body : A -> M B) (g : A -> B) s :
  (forall x, body x s = (Ok (g x), s)) ->
  for_each xs body s = (Ok (map g xs), s).
Proof.
  intro Hbody. induction xs as [| x rest IH]; simpl; [reflexivity |].
  rewrite (bind_run _ _ _ _ (Hbody x)), (bind_run _ _ _ _ IH). reflexivity.
Qed.

Lemma cell_run keep dx dt L tw xw s :
  cell keep dx dt L tw xw s
  = (Ok (let acc := cell_totals dt L (fst tw) (snd tw) (fst xw) (snd xw)
                                keep s in
         (cell_density dx dt acc, cell_flow dt acc, cell_speed acc)), s).
Proof.
  unfold cell, bind, trajectories_items, lift.
  rewrite cell_quantities_ok. reflexivity.
Qed.

Lemma cells_run keep dx dt L t_bins x_bins s :
  cells keep dx dt L t_bins x_bins s
  = (Ok (map (map (fun acc =>
                     (cell_density dx dt acc, cell_flow dt acc,
                      cell_speed acc)))
              (grid_totals keep dt L t_bins x_bins s)), s).
Proof.
  unfold cells, grid_totals. rewrite map_map.
  apply for_each_run. intro tw. rewrite map_map.
  apply for_each_run. intro xw. apply cell_run.
Qed.

Lemma aggregate_run keep dx dt L t_min t_max s :
  aggregate keep dx dt L t_min t_max s
  = (aggregate_value keep dx dt L t_min t_max s, s).
Proof.
  unfold aggregate, aggregate_value, bind, lift.
  destruct (np_arange 0 (L + dx) dx) as [x_bins |]; [| reflexivity].
  destruct (np_arange t_min (t_max + dt) dt) as [t_bins |]; [| reflexivity].
  simpl.
  destruct (np_zeros _ _); [| reflexivity]. simpl.
  rewrite cells_run. unfold ret, grid_outputs.
  repeat rewrite map_map.
  assert (Hrow : forall (f : Q * Q * Q -> Q) (g : totals -> Q),
             (forall acc, f (cell_density dx dt acc, cell_flow dt acc,
                             cell_speed acc) = g acc) ->
             forall grid,
               map (fun row : list totals =>
                      map f (map (fun acc =>
                                    (cell_density dx dt acc, cell_flow dt acc,
                                     cell_speed acc)) row)) grid
               = map (map g) grid).
  { intros f g Hfg grid. apply map_ext. intro row.
    rewrite map_map. apply map_ext. exact Hfg. }
  rewrite (Hrow _ (cell_density dx dt)), (Hrow _ (cell_flow dt)),
    (Hrow _ cell_speed); reflexivity.
Qed.

(** ** The recorded speeds are never read *)

Lemma process_vehicle_same dt L t0 t1 x0 x1 acc d d' :
  same_but_speed d d' ->
  process_vehicle dt L t0 t1 x0 x1 acc d
  = process_vehicle dt L t0 t1 x0 x1 acc d'.
Proof.
  intros (Ht & Hp & _).
  unfold process_vehicle, t_interp, time_in_cell, distance_in_cell,
    cell_times, cell_positions, window_times, window_positions, time_mask.
  rewrite Ht, Hp. reflexivity.
Qed.

Lemma cell_totals_same dt L t0 t1 x0 x1 keep T T' :
  (forall d d', same_but_speed d d' -> keep d = keep d') ->
  tables_same_but_speed T T' ->
  cell_totals dt L t0 t1 x0 x1 keep T = cell_totals dt L t0 t1 x0 x1 keep T'.
Proof.
  intros Hkeep HT. unfold cell_totals. generalize no_totals.
  induction HT as [| e e' T T' [_ He] _ IH]; intro acc; simpl.
  - reflexivity.
  - rewrite (Hkeep _ _ He), (process_vehicle_same _ _ _ _ _ _ _ _ _ He).
    apply IH.
Qed.

Lemma grid_totals_same keep dt L t_bins x_bins T T' :
  (forall d d', same_but_speed d d' -> keep d = keep d') ->
  tables_same_but_speed T T' ->
  grid_totals keep dt L t_bins x_bins T = grid_totals keep dt L t_bins x_bins T'.
Proof.
  intros Hkeep HT. unfold grid_totals.
  apply map_ext. intro tw. apply map_ext. intro xw.
  apply cell_totals_same; assumption.
Qed.

Lemma aggregate_value_same keep dx dt L t_min t_max T T' :
  (forall d d', same_but_speed d d' -> keep d = keep d') ->
  tables_same_but_speed T T' ->
  aggregate_value keep dx dt L t_min t_max T
  = aggregate_value keep dx dt L t_min t_max T'.
Proof.
  intros Hkeep HT. unfold aggregate_value, grid_outputs.
  destruct (np_arange 0 (L + dx) dx) as [x_bins |]; [| reflexivity].
  destruct (np_arange t_min (t_max + dt) dt) as [t_bins |]; [| reflexivity].
  simpl. destruct (np_zeros _ _); [| reflexivity]. simpl.
  rewrite (grid_totals_same _ _ _ _ _ _ _ Hkeep HT). reflexivity.
Qed.

Lemma times_same (keep : trajectory -> bool) T T' :
  (forall d d', same_but_speed d d' -> keep d = keep d') ->
  tables_same_but_speed T T' ->
  map time (filter keep (map snd T)) = map time (filter keep (map snd T')).
Proof.
  intros Hkeep HT.
  induction HT as [| e e' T T' [_ He] _ IH]; simpl; [reflexivity |].
  rewrite (Hkeep _ _ He). destruct He as (Ht & _).
  destruct (keep (snd e')); simpl; rewrite ?Ht, IH; reflexivity.
Qed.

Lemma of_type_same veh_type d d' :
  same_but_speed d d' -> Mixed.of_type veh_type d = Mixed.of_type veh_type d'.
Proof.
  intros (_ & _ & _ & Hty & _). unfold Mixed.of_type. rewrite Hty. reflexivity.
Qed.

Lemma edies_value dx dt L T :
  fst (Edies.calculate_macroscopic_quantities dx dt L T)
  = rbind (np_concatenate (map time (map snd T))) (fun all_times =>
    rbind (np_min all_times) (fun t_min =>
    rbind (np_max all_times) (fun t_max =>
    aggregate_value (fun _ => true) dx dt L t_min t_max T))).
Proof.
  unfold Edies.calculate_macroscopic_quantities, bind, lift,
    trajectories_values.
  destruct (np_concatenate _) as [all_times |]; [| reflexivity]. simpl.
  destruct (np_min all_times) as [t_min |]; [| reflexivity]. simpl.
  destruct (np_max all_times) as [t_max |]; [| reflexivity]. simpl.
  rewrite aggregate_run. reflexivity.
Qed.

Lemma mixed_value dx dt L veh_type T :
  fst (Mixed.calculate_macroscopic_quantities dx dt L veh_type T)
  = let all_times :=
      List.concat (map time (filter (Mixed.of_type veh_type) (map snd T))) in
    rbind (np_min all_times) (fun t_min =>
    rbind (np_max all_times) (fun t_max =>
    aggregate_value (Mixed.of_type veh_type) dx dt L t_min t_max T)).
Proof.
  unfold Mixed.calculate_macroscopic_quantities, bind, lift,
    trajectories_values. simpl.
  destruct (np_min _) as [t_min |]; [| reflexivity]. simpl.
  destruct (np_max _) as [t_max |]; [| reflexivity]. simpl.
  rewrite aggregate_run. reflexivity.
Qed.

(** C10.  Two trajectory tables that agree on everything but the recorded
    per-sample speeds give the same result, in both scripts and for every
    choice of the grid: the same density, flow and speed arrays and the same
    bin starts, or the same failure.  The speed array that is returned comes
    from the distance and the time accumulated in each cell only. *)
Theorem recorded_speeds_are_irrelevant :
  forall (T T' : table) (dx dt L : Q) (veh_type : option string),
    tables_same_but_speed T T' ->
    fst (Edies.calculate_macroscopic_quantities dx dt L T)
    = fst (Edies.calculate_macroscopic_quantities dx dt L T')
    /\ fst (Mixed.calculate_macroscopic_quantities dx dt L veh_type T)
       = fst (Mixed.calculate_macroscopic_quantities dx dt L veh_type T').
Proof.
  intros T T' dx dt L veh_type HT. split.
  - rewrite !edies_value.
    pose proof (times_same (fun _ => true) T T' (fun _ _ _ => eq_refl) HT)
      as Htimes.
    assert (Hall : forall l : list trajectory,
               filter (fun _ => true) l = l).
    { induction l as [| a l IH]; simpl; [| rewrite IH]; reflexivity. }
    rewrite !Hall in Htimes. rewrite Htimes.
    destruct (np_concatenate _) as [all_times |]; [| reflexivity]. simpl.
    destruct (np_min all_times) as [t_min |]; [| reflexivity]. simpl.
    destruct (np_max all_times) as [t_max |]; [| reflexivity]. simpl.
    apply aggregate_value_same; [reflexivity | exact HT].
  - rewrite !mixed_value.
    rewrite (times_same (Mixed.of_type veh_type) T T'
               (of_type_same veh_type) HT). simpl.
    destruct (np_min _) as [t_min |]; [| reflexivity]. simpl.
    destruct (np_max _) as [t_max |]; [| reflexivity]. simpl.
    apply aggregate_value_same; [apply of_type_same | exact HT].
Qed.

(** C9.  A run of the aggregator leaves the trajectory table as it found
    it, whether it returns or fails, so that a second run on the table gives
    the same result as the first. *)
Theorem aggregation_reads_only :
  forall (T : table) (dx dt L : Q),
    snd (Edies.calculate_macroscopic_quantities dx dt L T) = T
    /\ fst (Edies.calculate_macroscopic_quantities dx dt L
              (snd (Edies.calculate_macroscopic_quantities dx dt L T)))
       = fst (Edies.calculate_macroscopic_quantities dx dt L T).
Proof.
  intros T dx dt L.
  pose proof (read_only_edies dx dt L T) as H.
  split; [exact H | rewrite H; reflexivity].
Qed.


(** ** Cells that no sample touches *)

Lemma take_mask_none {A} (a : list A) (mask : list bool) :
  Forall (fun b => b = false) mask -> take_mask a mask = [].
Proof.
  unfold take_mask. intro H. revert a.
  induction H as [| b mask Hb _ IH]; intros [| x a]; simpl; try reflexivity.
  subst b. simpl. apply IH.
Qed.

Lemma process_vehicle_miss dt L t0 t1 x0 x1 acc data :
  misses_cell dt L t0 t1 x0 x1 data ->
  process_vehicle dt L t0 t1 x0 x1 acc data = acc.
Proof.
  intro Hmiss. unfold process_vehicle.
  destruct (negb _); [reflexivity |].
  destruct (1 <? _)%nat; [| reflexivity].
  assert (Hnone : cell_times dt L t0 t1 x0 x1 data = []).
  { unfold cell_times, cell_mask. apply take_mask_none.
    apply Forall_map. exact Hmiss. }
  rewrite Hnone. reflexivity.
Qed.

Lemma cell_totals_miss dt L t0 t1 x0 x1 keep T :
  (forall e, In e T -> keep (snd e) = true ->
             misses_cell dt L t0 t1 x0 x1 (snd e)) ->
  cell_totals dt L t0 t1 x0 x1 keep T = no_totals.
Proof.
  unfold cell_totals. generalize no_totals.
  induction T as [| e T IH]; intros acc Hmiss; simpl; [reflexivity |].
  destruct (keep (snd e)) eqn:Hk.
  - rewrite process_vehicle_miss by (apply Hmiss; [left; reflexivity | exact Hk]).
    apply IH. intros e' Hin. apply Hmiss. right. exact Hin.
  - apply IH. intros e' Hin. apply Hmiss. right. exact Hin.
Qed.

Lemma entry_map {A B} (f : A -> B) (a : list (list A)) i j :
  entry (map (map f) a) i j = option_map f (entry a i j).
Proof.
  unfold entry. rewrite nth_error_map.
  destruct (nth_error a i) as [row |]; simpl; [apply nth_error_map | reflexivity].
Qed.

Lemma entry_grid_totals keep dt L t_bins x_bins T i j tw xw :
  nth_error (windows t_bins) i = Some tw ->
  nth_error (windows x_bins) j = Some xw ->
  entry (grid_totals keep dt L t_bins x_bins T) i j
  = Some (cell_totals dt L (fst tw) (snd tw) (fst xw) (snd xw) keep T).
Proof.
  intros Ht Hx. unfold entry, grid_totals.
  rewrite nth_error_map, Ht. simpl. rewrite nth_error_map, Hx. reflexivity.
Qed.

Lemma aggregate_value_inv keep dx dt L t_min t_max T out :
  aggregate_value keep dx dt L t_min t_max T = Ok out ->
  exists t_bins x_bins,
    np_arange 0 (L + dx) dx = Ok x_bins
    /\ np_arange t_min (t_max + dt) dt = Ok t_bins
    /\ out = grid_outputs keep dx dt L t_bins x_bins T.
Proof.
  unfold aggregate_value.
  destruct (np_arange 0 (L + dx) dx) as [x_bins |]; [| discriminate].
  destruct (np_arange t_min (t_max + dt) dt) as [t_bins |]; [| discriminate].
  simpl. destruct (np_zeros _ _); [| discriminate]. simpl.
  intro H. injection H as <-. exists t_bins, x_bins. auto.
Qed.

Lemma edies_value_inv dx dt L T out :
  fst (Edies.calculate_macroscopic_quantities dx dt L T) = Ok out ->
  exists t_bins x_bins,
    t_edges dt T = Ok t_bins
    /\ x_edges dx L = Ok x_bins
    /\ out = grid_outputs (fun _ => true) dx dt L t_bins x_bins T.
Proof.
  rewrite edies_value. unfold t_edges, x_edges.
  destruct (np_concatenate _) as [all_times |]; [| discriminate]. simpl.
  destruct (np_min all_times) as [t_min |]; [| discriminate]. simpl.
  destruct (np_max all_times) as [t_max |]; [| discriminate]. simpl.
  intro H. apply aggregate_value_inv in H.
  destruct H as (t_bins & x_bins & Hx & Ht & ->). eauto.
Qed.

(** C7, as the scripts behave.  In the arrays that a run returns, every
    pair of consecutive bin edges in time and in space has its entry, and
    a cell in which no vehicle has a sample (no wrapped position of its
    window, the time bin widened by [dt] on both sides, in the space range
    of the cell) has density, flow and speed equal to 0.  Any cell whose
    accumulated time is zero has speed 0.  The quotients of a cell are
    taken under guards, so that forming them never fails, whatever the
    counters and the steps are. *)
Theorem empty_cell_convention :
  forall (T : table) (dx dt L : Q)
         (density flow speed : list (list Q)) (t_starts x_starts : list Q),
    fst (Edies.calculate_macroscopic_quantities dx dt L T)
    = Ok (density, flow, speed, t_starts, x_starts) ->
    (forall acc, exists q, cell_quantities dx dt acc = Ok q)
    /\ exists t_bins x_bins,
        t_edges dt T = Ok t_bins /\ x_edges dx L = Ok x_bins
        /\ t_starts = removelast t_bins /\ x_starts = removelast x_bins
        /\ forall i j tw xw,
            nth_error (windows t_bins) i = Some tw ->
            nth_error (windows x_bins) j = Some xw ->
            exists d f s,
              entry density i j = Some d
              /\ entry flow i j = Some f
              /\ entry speed i j = Some s
              /\ ((forall e, In e T ->
                     misses_cell dt L (fst tw) (snd tw) (fst xw) (snd xw)
                                 (snd e)) ->
                  d == 0 /\ f == 0 /\ s == 0)
              /\ (total_time_spent
                    (cell_totals dt L (fst tw) (snd tw) (fst xw) (snd xw)
                                 (fun _ => true) T) == 0 ->
                  s == 0).
Proof.
  intros T dx dt L density flow speed t_starts x_starts Hrun.
  split.
  { intro acc. rewrite cell_quantities_ok. eauto. }
  apply edies_value_inv in Hrun.
  destruct Hrun as (t_bins & x_bins & Ht_bins & Hx_bins & Hout).
  exists t_bins, x_bins. unfold grid_outputs in Hout.
  injection Hout as -> -> -> -> ->.
  split; [exact Ht_bins |]. split; [exact Hx_bins |].
  split; [reflexivity |]. split; [reflexivity |].
  intros i j tw xw Ht Hx.
  unfold scale. rewrite !entry_map.
  rewrite (entry_grid_totals _ _ _ _ _ _ _ _ _ _ Ht Hx). simpl.
  do 3 eexists. repeat (split; [reflexivity |]). split.
  - intro Hmiss.
    rewrite cell_totals_miss by (intros e Hin _; apply Hmiss; exact Hin).
    unfold cell_density, cell_flow, cell_speed, no_totals. simpl.
    destruct (Qlt_bool 0 (dx * dt)), (Qlt_bool 0 dt);
      repeat split; unfold Qdiv; ring.
  - intro Hzero. unfold cell_speed.
    destruct (Qlt_bool 0 _) eqn:E; [| ring].
    apply Qlt_bool_iff in E. lra.
Qed.

(** The statement of C7 itself fails when a cell is empty in the sense that
    none of its samples lies in it: [early_visit] has no sample in the cell
    of the time bin [[100, 200)] and the space bin [[0, 100)], and the
    flow of that cell is 36 veh/hr, from the samples at times 0 and 10,
    which lie in the space bin and within [dt] of the time bin. *)
Lemma untouched_cell_has_flow :
  ~ (forall (T : table) (dx dt L : Q)
            (density flow speed : list (list Q)) (t_starts x_starts : list Q)
            (t_bins x_bins : list Q) (i j : nat) (tw xw : Q * Q) (f : Q),
        fst (Edies.calculate_macroscopic_quantities dx dt L T)
        = Ok (density, flow, speed, t_starts, x_starts) ->
        t_edges dt T = Ok t_bins ->
        x_edges dx L = Ok x_bins ->
        nth_error (windows t_bins) i = Some tw ->
        nth_error (windows x_bins) j = Some xw ->
        (forall e, In e T ->
           untouched L (fst tw) (snd tw) (fst xw) (snd xw) (snd e)) ->
        entry flow i j = Some f ->
        f == 0).
Proof.
  intro H.
  assert (Hrun : fst (Edies.calculate_macroscopic_quantities 100 100 1000
                        early_visit_table)
                 = Ok (fst (fst (fst (fst early_visit_outputs))),
                       snd (fst (fst (fst early_visit_outputs))),
                       snd (fst (fst early_visit_outputs)),
                       snd (fst early_visit_outputs),
                       snd early_visit_outputs))
    by (vm_compute; reflexivity).
  destruct (entry (snd (fst (fst (fst early_visit_outputs)))) 1 0)
    as [f |] eqn:Ef; [| vm_compute in Ef; discriminate].
  assert (Hf : f == 0).
  { apply (H early_visit_table 100 100 1000 _ _ _ _ _
             [0; 100; 200]
             [0; 100; 200; 300; 400; 500; 600; 700; 800; 900; 1000]
             1%nat 0%nat (100, 200) (0, 100) f Hrun).
    - vm_compute. reflexivity.
    - vm_compute. reflexivity.
    - reflexivity.
    - reflexivity.
    - intros e [<- | []]. repeat constructor.
    - exact Ef. }
  vm_compute in Ef. injection Ef as <-.
  vm_compute in Hf. discriminate.
Qed.

(** ** Grids with a step that is not positive *)

Lemma fold_py_min_le tl : forall a, fold_left py_min tl a <= a.
Proof.
  induction tl as [| b tl IH]; intro a; simpl; [lra |].
  specialize (IH (py_min a b)).
  assert (py_min a b <= a) by (apply (py_min_glb a b); lra). lra.
Qed.

Lemma fold_py_max_ge tl : forall a, a <= fold_left py_max tl a.
Proof.
  induction tl as [| b tl IH]; intro a; simpl; [lra |].
  specialize (IH (py_max a b)).
  assert (a <= py_max a b) by (apply (py_max_lub a b); lra). lra.
Qed.

Lemma np_min_le_np_max a t_min t_max :
  np_min a = Ok t_min -> np_max a = Ok t_max -> t_min <= t_max.
Proof.
  destruct a as [| x tl]; simpl; [discriminate |].
  intros Hmin Hmax. injection Hmin as <-. injection Hmax as <-.
  pose proof (fold_py_min_le tl x). pose proof (fold_py_max_ge tl x). lra.
Qed.

(** A descending [np.arange] whose stop is at most one step below its start
    has at most one element. *)
Lemma np_arange_descending start stop step bins :
  step < 0 -> start + step <= stop ->
  np_arange start stop step = Ok bins -> (length bins <= 1)%nat.
Proof.
  intros Hstep Hstop. unfold np_arange.
  destruct (Qeq_bool step 0); [discriminate |].
  intro H. injection H as <-.
  rewrite length_map, length_seq.
  assert (Hq : (stop - start) / step <= 1).
  { apply Qnot_lt_le. intro Hlt.
    assert (Heq : (stop - start) / step * step == stop - start)
      by (field; lra).
    nra. }
  apply Qceiling_resp_le in Hq.
  change 1 with (inject_Z 1) in Hq. rewrite Qceiling_Z in Hq. lia.
Qed.

Lemma windows_short bins : (length bins <= 1)%nat -> windows bins = [].
Proof.
  destruct bins as [| a [| b bins]]; simpl; intro H;
    [reflexivity | reflexivity | lia].
Qed.

Lemma np_arange_zero_step start stop step :
  step == 0 -> np_arange start stop step = Raise ZeroDivisionError.
Proof.
  intro H. unfold np_arange.
  apply Qeq_bool_iff in H. rewrite H. reflexivity.
Qed.

Lemma grid_rows_no_space (f : totals -> Q) c keep dt L t_bins x_bins T :
  windows x_bins = [] ->
  Forall (fun row => row = [])
         (scale c (map (map f) (grid_totals keep dt L t_bins x_bins T))).
Proof.
  intro H. unfold grid_totals, scale. rewrite H.
  repeat rewrite map_map. simpl.
  apply Forall_forall. intros row Hin.
  apply in_map_iff in Hin. destruct Hin as (tw & <- & _). reflexivity.
Qed.

(** C5, as the scripts behave.  There is no validation of the steps.  With
    a corridor length that is not negative and [dx <= 0] or [dt <= 0], a run
    computes no cell: a zero step always makes it fail, and a negative one
    makes it either fail (no time range, or a negative array dimension) or
    return density, flow and speed arrays without any entry. *)
Theorem degenerate_grid_has_no_cell :
  forall (T : table) (dx dt L : Q),
    0 <= L ->
    dx <= 0 \/ dt <= 0 ->
    match fst (Edies.calculate_macroscopic_quantities dx dt L T) with
    | Raise _ => True
    | Ok (density, flow, speed, _, _) =>
        ~ dx == 0 /\ ~ dt == 0
        /\ Forall (fun row => row = []) density
        /\ Forall (fun row => row = []) flow
        /\ Forall (fun row => row = []) speed
    end.
Proof.
  intros T dx dt L HL Hdeg. rewrite edies_value.
  destruct (np_concatenate _) as [all_times |]; [| exact I]. simpl.
  destruct (np_min all_times) as [t_min |] eqn:Hmin; [| exact I]. simpl.
  destruct (np_max all_times) as [t_max |] eqn:Hmax; [| exact I]. simpl.
  pose proof (np_min_le_np_max _ _ _ Hmin Hmax) as Hrange.
  unfold aggregate_value.
  destruct (np_arange 0 (L + dx) dx) as [x_bins |] eqn:Hx; [| exact I].
  destruct (np_arange t_min (t_max + dt) dt) as [t_bins |] eqn:Ht;
    [| exact I].
  simpl. destruct (np_zeros _ _); [| exact I]. simpl.
  assert (Hdx : ~ dx == 0).
  { intro H0. rewrite (np_arange_zero_step _ _ _ H0) in Hx. discriminate. }
  assert (Hdt : ~ dt == 0).
  { intro H0. rewrite (np_arange_zero_step _ _ _ H0) in Ht. discriminate. }
  destruct Hdeg as [Hneg | Hneg].
  - assert (Hshort : windows x_bins = []).
    { apply windows_short.
      apply (np_arange_descending 0 (L + dx) dx); [lra | lra | exact Hx]. }
    split; [exact Hdx |]. split; [exact Hdt |].
    repeat split; apply grid_rows_no_space; exact Hshort.
  - assert (Hshort : windows t_bins = []).
    { apply windows_short.
      apply (np_arange_descending t_min (t_max + dt) dt);
        [lra | lra | exact Ht]. }
    unfold grid_totals. rewrite Hshort. simpl.
    repeat split; [exact Hdx | exact Hdt | constructor ..].
Qed.

(** The statement of C5 itself fails: with [dt = -10] a table with a single
    sample gives a grid without time bins, and the run returns. *)
Lemma negative_step_can_return :
  ~ (forall (T : table) (dx dt L : Q),
        dx <= 0 \/ dt <= 0 ->
        exists e,
          fst (Edies.calculate_macroscopic_quantities dx dt L T) = Raise e).
Proof.
  intro H.
  destruct (H lone_sample 10 (-10) 1000) as [e He].
  - right. vm_compute. discriminate.
  - vm_compute in He. discriminate.
Qed.

(** ** [np.interp] on a finite table

    On a table of finite abscissas the result is nan exactly off the range
    spanned by the first and the last entry, however the table is ordered. *)

Lemma np_lt_false_le a b :
  is_finite a -> is_finite b -> np_lt a b = false -> np_le b a = true.
Proof.
  intros [x ->] [y ->]. simpl. intro H.
  apply Qle_bool_iff. apply Qlt_bool_false. exact H.
Qed.

Lemma np_lt_negb_le a b :
  is_finite a -> is_finite b -> np_lt a b = negb (np_le b a).
Proof. intros [x ->] [y ->]. reflexivity. Qed.

Lemma at_pos_finite arr j :
  Forall is_finite arr -> (0 <= j < Z.of_nat (length arr))%Z ->
  is_finite (at_pos arr j).
Proof.
  intros Hall Hj. unfold at_pos.
  rewrite Forall_forall in Hall. apply Hall. apply nth_In. lia.
Qed.

Lemma at_pos_first arr : at_pos arr 0 = hd NaN arr.
Proof. destruct arr; reflexivity. Qed.

Lemma at_pos_last arr :
  arr <> [] -> at_pos arr (Z.of_nat (length arr) - 1) = last arr NaN.
Proof.
  intro Hne. unfold at_pos.
  destruct (exists_last Hne) as (front & a & ->).
  rewrite last_last, length_app. simpl.
  replace (Z.to_nat (Z.of_nat (length front + 1) - 1)) with (length front)
    by lia.
  rewrite app_nth2 by lia. rewrite Nat.sub_diag. reflexivity.
Qed.

Lemma linear_scan_bounds key rest :
  forall i, (i <= linear_scan key rest i <= i + Z.of_nat (length rest))%Z.
Proof.
  induction rest as [| a rest IH]; intro i; simpl; [lia |].
  destruct (np_le a key); [| lia].
  specialize (IH (i + 1)%Z). lia.
Qed.

Lemma bisect_bounds key arr fuel :
  forall imin imax,
    (0 <= imin <= imax)%Z ->
    (imax - imin <= Z.of_nat fuel)%Z ->
    (1 <= imin)%Z \/ ((imin < imax)%Z /\ np_le (at_pos arr 0) key = true) ->
    (0 <= bisect fuel key arr imin imax <= imax - 1)%Z.
Proof.
  induction fuel as [| fuel IH]; intros imin imax Hord Hfuel Hlow; simpl.
  - lia.
  - destruct (imin <? imax)%Z eqn:Hlt; [| apply Z.ltb_ge in Hlt; lia].
    apply Z.ltb_lt in Hlt.
    rewrite Z.shiftr_div_pow2 by lia. change (2 ^ 1)%Z with 2%Z.
    assert (Hmid : (0 <= (imax - imin) / 2 < imax - imin)%Z).
    { split; [apply Z.div_pos; lia | apply Z.div_lt_upper_bound; lia]. }
    set (imid := (imin + (imax - imin) / 2)%Z) in *.
    assert (Himid : (imin <= imid < imax)%Z) by (subst imid; lia).
    clearbody imid.
    destruct (np_le (at_pos arr imid) key) eqn:Hprobe.
    + apply IH; [lia | lia | left; lia].
    + assert (Hpre : (1 <= imin)%Z
                     \/ ((imin < imid)%Z /\ np_le (at_pos arr 0) key = true)).
      { destruct Hlow as [H1 | [_ H0]]; [left; exact H1 |].
        destruct (Z_lt_le_dec imin 1) as [Hz | Hp]; [| left; exact Hp].
        destruct (Z.eq_dec imid 0) as [E | E].
        - rewrite E in Hprobe. congruence.
        - right. split; [lia | exact H0]. }
      pose proof (IH imin imid ltac:(lia) ltac:(lia) Hpre). lia.
Qed.

Lemma binary_search_finite x arr guess :
  Forall is_finite arr -> arr <> [] ->
  let len := Z.of_nat (length arr) in
  let j := binary_search_with_guess (Fin x) arr guess in
  if on_range x arr then (0 <= j <= len - 1)%Z
  else j = len \/ j = (-1)%Z.
Proof.
  intros Hfin Hne len j. subst j.
  assert (Hlen : (1 <= len)%Z)
    by (subst len; destruct arr; [congruence | simpl; lia]).
  assert (Hat : forall i, (0 <= i < len)%Z -> is_finite (at_pos arr i))
    by (intros i Hi; apply at_pos_finite; assumption).
  assert (Hx : is_finite (Fin x)) by (exists x; reflexivity).
  unfold binary_search_with_guess, on_range. fold len.
  rewrite <- at_pos_first, <- (at_pos_last arr Hne). fold len.
  rewrite (np_lt_negb_le _ _ (Hat (len - 1)%Z ltac:(lia)) Hx).
  rewrite (np_lt_negb_le _ _ Hx (Hat 0%Z ltac:(lia))).
  destruct (np_le (Fin x) (at_pos arr (len - 1))) eqn:Hhi; cbn [negb];
    [| rewrite andb_false_r; left; reflexivity].
  destruct (np_le (at_pos arr 0) (Fin x)) eqn:Hlo; cbn [negb andb];
    [| right; reflexivity].
  destruct (len <=? 4)%Z eqn:Hsmall.
  { unfold linear_search.
    pose proof (linear_scan_bounds (Fin x) (skipn 1 arr) (Z.of_nat 1)) as Hb.
    rewrite length_skipn in Hb. subst len. lia. }
  apply Z.leb_gt in Hsmall.
  set (g0 := if (len - 3 <? guess)%Z then (len - 3)%Z else guess).
  set (g := if (g0 <? 1)%Z then 1%Z else g0).
  assert (Hg : (1 <= g <= len - 3)%Z).
  { subst g g0. destruct (len - 3 <? guess)%Z eqn:E1.
    - destruct (len - 3 <? 1)%Z eqn:E2; [apply Z.ltb_lt in E2 |]; lia.
    - apply Z.ltb_ge in E1.
      destruct (guess <? 1)%Z eqn:E2;
        [apply Z.ltb_lt in E2 | apply Z.ltb_ge in E2]; lia. }
  clearbody g. clear g0.
  unfold LIKELY_IN_CACHE_SIZE.
  destruct (np_lt (Fin x) (at_pos arr g)); cbv iota.
  - destruct (np_lt (Fin x) (at_pos arr (g - 1))) eqn:Hprev; cbv iota;
      [| lia].
    assert (Hg2 : (2 <= g)%Z).
    { destruct (Z.eq_dec g 1) as [E | E]; [| lia].
      rewrite E in Hprev. change (1 - 1)%Z with 0%Z in Hprev.
      rewrite (np_lt_negb_le _ _ Hx (Hat 0%Z ltac:(lia))), Hlo in Hprev.
      discriminate. }
    destruct ((8 <? g)%Z && np_le (at_pos arr (g - 8)) (Fin x)) eqn:Hc.
    + apply andb_prop in Hc. destruct Hc as [Hc _]. apply Z.ltb_lt in Hc.
      pose proof (bisect_bounds (Fin x) arr (S (length arr)) (g - 8) (g - 1)
                    ltac:(lia) ltac:(lia) ltac:(left; lia)).
      lia.
    + pose proof (bisect_bounds (Fin x) arr (S (length arr)) 0 (g - 1)
                    ltac:(lia) ltac:(lia)
                    ltac:(right; split; [lia | exact Hlo])).
      lia.
  - destruct (np_lt (Fin x) (at_pos arr (g + 1))); cbv iota; [lia |].
    destruct (np_lt (Fin x) (at_pos arr (g + 2))); cbv iota; [lia |].
    destruct ((g <? len - 8 - 1)%Z && np_lt (Fin x) (at_pos arr (g + 8)))
      eqn:Hc.
    + apply andb_prop in Hc. destruct Hc as [Hc _]. apply Z.ltb_lt in Hc.
      pose proof (bisect_bounds (Fin x) arr (S (length arr)) (g + 2) (g + 8)
                    ltac:(lia) ltac:(lia) ltac:(left; lia)).
      lia.
    + pose proof (bisect_bounds (Fin x) arr (S (length arr)) (g + 2) len
                    ltac:(lia) ltac:(lia) ltac:(left; lia)).
      lia.
Qed.

Lemma Qeq_bool_sub a x : Qeq_bool a x = false -> Qeq_bool (x + - a) 0 = false.
Proof.
  intro H. destruct (Qeq_bool (x + - a) 0) eqn:E; [| reflexivity].
  apply Qeq_bool_iff in E.
  assert (Hax : a == x) by lra.
  apply Qeq_bool_iff in Hax. congruence.
Qed.

Lemma Qeq_bool_diff a b : Qeq_bool (b - a) 0 = true -> Qeq_bool a b = true.
Proof.
  intro H. apply Qeq_bool_iff in H. apply Qeq_bool_iff. lra.
Qed.

Lemma isnan_signed_inf b : isnan (signed_inf b) = false.
Proof. destruct b; reflexivity. Qed.

Lemma interp_value_defined x dx dy j :
  Forall is_finite dx ->
  (0 <= j <= Z.of_nat (length dx) - 1)%Z ->
  isnan (interp_value x dx dy NaN NaN j) = false.
Proof.
  intros Hfin Hj. unfold interp_value.
  destruct (j =? -1)%Z eqn:E1; [apply Z.eqb_eq in E1; lia |].
  destruct (j =? Z.of_nat (length dx))%Z eqn:E2; [apply Z.eqb_eq in E2; lia |].
  destruct (j =? Z.of_nat (length dx) - 1)%Z eqn:E3; [reflexivity |].
  apply Z.eqb_neq in E3.
  destruct (at_pos_finite dx j Hfin ltac:(lia)) as [a ->].
  destruct (at_pos_finite dx (j + 1)%Z Hfin ltac:(lia)) as [b ->].
  cbn [np_eq].
  destruct (Qeq_bool a x) eqn:Eax; [reflexivity |].
  pose proof (Qeq_bool_sub _ _ Eax) as Hxa.
  cbn [np_sub np_neg np_add np_div].
  destruct (Qeq_bool (b + - a) 0).
  - destruct (Qeq_bool (at_val dy (j + 1) - at_val dy j) 0) eqn:Ed.
    + cbn [np_mul np_add isnan andb].
      rewrite (Qeq_bool_diff _ _ Ed). reflexivity.
    + destruct (Qlt_bool 0 (at_val dy (j + 1) - at_val dy j));
        cbn [signed_inf np_mul]; rewrite Hxa;
        destruct (Qlt_bool 0 (x + - a)), (Qlt_bool (x + - a) 0); reflexivity.
  - reflexivity.
Qed.

Lemma interp_loop_nan xs dx dy :
  Forall is_finite dx -> dx <> [] ->
  forall j,
    map isnan (interp_loop xs dx dy NaN NaN j)
    = map (fun x => negb (on_range x dx)) xs.
Proof.
  intros Hfin Hne. induction xs as [| x xs IH]; intro j; simpl;
    [reflexivity |].
  rewrite IH. f_equal.
  pose proof (binary_search_finite x dx j Hfin Hne) as Hs. cbv zeta in Hs.
  destruct (on_range x dx).
  - apply interp_value_defined; assumption.
  - assert (Hlen : (1 <= Z.of_nat (length dx))%Z)
      by (destruct dx; [congruence | simpl; lia]).
    unfold interp_value. destruct Hs as [-> | ->].
    + destruct (Z.of_nat (length dx) =? -1)%Z; [reflexivity |].
      rewrite Z.eqb_refl. reflexivity.
    + reflexivity.
Qed.

Lemma np_interp_nan xs xp fp :
  Forall is_finite xp -> (2 <= length xp)%nat ->
  map isnan (np_interp xs xp fp NaN NaN)
  = map (fun x => negb (on_range x xp)) xs.
Proof.
  intros Hfin Hlen. unfold np_interp.
  destruct xp as [| a [| b xp]]; simpl in Hlen; try lia.
  destruct fp as [| u [| v fp]]; apply interp_loop_nan;
    (assumption || discriminate).
Qed.

(** ** The samples of a vehicle in the window of a cell *)

Lemma take_mask_length {A} (a : list A) (mask : list bool) :
  length a = length mask ->
  length (take_mask a mask) = length (filter (fun b => b) mask).
Proof.
  unfold take_mask. rewrite length_map. revert mask.
  induction a as [| x a IH]; intros [| b mask] H; simpl in *;
    try discriminate; [reflexivity |].
  injection H as H. destruct b; simpl; rewrite IH; auto.
Qed.

Lemma window_lengths dt L t0 t1 data :
  length (pos data) = length (time data) ->
  length (window_positions dt L t0 t1 data)
  = length (window_times dt t0 t1 data).
Proof.
  intro H. unfold window_positions, window_times.
  rewrite length_map, !take_mask_length; [reflexivity | unfold time_mask ..];
    rewrite length_map; auto.
Qed.

Lemma window_positions_finite dt L t0 t1 data :
  ~ L == 0 -> Forall is_finite (window_positions dt L t0 t1 data).
Proof.
  intro HL. unfold window_positions. apply Forall_map.
  apply Forall_forall. intros p _. unfold np_mod.
  destruct (Qeq_bool L 0) eqn:E; [apply Qeq_bool_iff in E; contradiction |].
  eexists. reflexivity.
Qed.

Lemma window_positions_nan dt L t0 t1 data :
  L == 0 -> Forall (fun p => p = NaN) (window_positions dt L t0 t1 data).
Proof.
  intro HL. unfold window_positions. apply Forall_map.
  apply Forall_forall. intros p _. unfold np_mod.
  apply Qeq_bool_iff in HL. rewrite HL. reflexivity.
Qed.

(** The cell holds a sample exactly when some wrapped position of the window
    lies in its space range. *)
Lemma cell_times_nonempty dt L t0 t1 x0 x1 data :
  length (pos data) = length (time data) ->
  (cell_times dt L t0 t1 x0 x1 data <> []
   <-> Exists (fun p => in_cell x0 x1 p = true)
              (window_positions dt L t0 t1 data)).
Proof.
  intro Hal. unfold cell_times.
  pose proof (window_lengths dt L t0 t1 data Hal) as Hlen.
  assert (Hl : length (take_mask (window_times dt t0 t1 data)
                         (cell_mask x0 x1 (window_positions dt L t0 t1 data)))
               = length (filter (fun b => b)
                           (cell_mask x0 x1
                              (window_positions dt L t0 t1 data)))).
  { apply take_mask_length. unfold cell_mask. rewrite length_map. auto. }
  set (ps := window_positions dt L t0 t1 data) in *.
  set (ts := take_mask _ _) in *.
  assert (Hf : filter (fun b => b) (cell_mask x0 x1 ps) <> []
               <-> Exists (fun p => in_cell x0 x1 p = true) ps).
  { clear. unfold cell_mask. induction ps as [| p ps IH]; simpl.
    - split; [congruence | intro H; inversion H].
    - destruct (in_cell x0 x1 p) eqn:E.
      + split; [intros _; left; exact E | discriminate].
      + rewrite IH. split; [intro H; right; exact H |].
        intro H. inversion H; subst; [congruence | assumption]. }
  rewrite <- Hf. split; intro H.
  - intro E. rewrite E in Hl. destruct ts; [congruence | discriminate].
  - intro E. rewrite E in Hl. apply H. destruct (filter _ _);
      [reflexivity | discriminate].
Qed.

Lemma take_mask_no_any {A} (a : list A) (mask : list bool) :
  np_any mask = false -> take_mask a mask = [].
Proof.
  intro H. apply take_mask_none. apply Forall_forall. intros b Hb.
  destruct b; [| reflexivity].
  assert (np_any mask = true)
    by (apply existsb_exists; exists true; auto).
  congruence.
Qed.

(** With two samples in its window a vehicle reaches the cell test. *)
Lemma process_vehicle_window dt L t0 t1 x0 x1 acc data :
  (2 <= length (window_times dt t0 t1 data))%nat ->
  process_vehicle dt L t0 t1 x0 x1 acc data
  = match cell_times dt L t0 t1 x0 x1 data with
    | [] => acc
    | _ :: _ =>
        let acc :=
          if Qlt_bool 0 (time_in_cell dt L t0 t1 x0 x1 data) then
            let acc := add_time acc (time_in_cell dt L t0 t1 x0 x1 data) in
            if Qlt_bool 0 (distance_in_cell dt L t0 t1 x0 x1 data)
            then add_distance acc (distance_in_cell dt L t0 t1 x0 x1 data)
            else acc
          else acc in
        if negb (forallb isnan (t_interp dt L t0 t1 x0 x1 data))
        then add_crossing acc else acc
    end.
Proof.
  intro Hwin. unfold process_vehicle.
  destruct (np_any (time_mask dt t0 t1 data)) eqn:Hany; cbn [negb].
  - destruct (1 <? length _)%nat eqn:Hlen;
      [| apply Nat.ltb_ge in Hlen; lia].
    destruct (cell_times dt L t0 t1 x0 x1 data); reflexivity.
  - unfold window_times in Hwin.
    rewrite (take_mask_no_any _ _ Hany) in Hwin. simpl in Hwin. lia.
Qed.

(** ** Counting a crossing *)

Lemma forallb_isnan_map l :
  forallb isnan l = forallb (fun b => b) (map isnan l).
Proof. induction l as [| x l IH]; simpl; [| rewrite IH]; reflexivity. Qed.

Lemma in_cell_not_nan x0 x1 ps :
  Forall (fun p => p = NaN) ps ->
  ~ Exists (fun p => in_cell x0 x1 p = true) ps.
Proof.
  intros Hnan Hex. apply Exists_exists in Hex. destruct Hex as (p & Hin & Hp).
  rewrite Forall_forall in Hnan. rewrite (Hnan p Hin) in Hp. discriminate.
Qed.

(** C1, as the scripts behave.  For a vehicle with at least two samples in
    the window of a cell, the crossing count of the cell grows by one when
    the vehicle has a wrapped position in the space range of the cell and at
    least one of the two interpolated times is defined, that is when at
    least one of [x0], [x1] lies between the first and the last wrapped
    position of the window; otherwise the count is unchanged. *)
Theorem crossing_needs_a_sample_in_the_cell :
  forall (dt L t0 t1 x0 x1 : Q) (acc : totals) (data : trajectory),
    aligned data ->
    (2 <= length (window_times dt t0 t1 data))%nat ->
    let positions := window_positions dt L t0 t1 data in
    let counted :=
      vehicles_crossed (process_vehicle dt L t0 t1 x0 x1 acc data) in
    (counted = S (vehicles_crossed acc) \/ counted = vehicles_crossed acc)
    /\ (counted = S (vehicles_crossed acc)
        <-> Exists (fun p => in_cell x0 x1 p = true) positions
            /\ (on_range x0 positions = true \/ on_range x1 positions = true))
    /\ (~ L == 0 ->
        map isnan (t_interp dt L t0 t1 x0 x1 data)
        = [negb (on_range x0 positions); negb (on_range x1 positions)]).
Proof.
  intros dt L t0 t1 x0 x1 acc data [Hal _] Hwin positions counted.
  subst counted.
  assert (Hnan : ~ L == 0 ->
                 map isnan (t_interp dt L t0 t1 x0 x1 data)
                 = [negb (on_range x0 positions);
                    negb (on_range x1 positions)]).
  { intro HL. unfold t_interp. rewrite np_interp_nan; [reflexivity | |].
    - apply window_positions_finite. exact HL.
    - rewrite (window_lengths dt L t0 t1 data Hal). exact Hwin. }
  rewrite (process_vehicle_window dt L t0 t1 x0 x1 acc data Hwin).
  pose proof (cell_times_nonempty dt L t0 t1 x0 x1 data Hal) as Hcell.
  fold positions in Hcell.
  destruct (cell_times dt L t0 t1 x0 x1 data) as [| c cs].
  - split; [right; reflexivity |]. split; [| exact Hnan].
    split; [intro H; exfalso; lia |].
    intros [Hex _]. apply Hcell in Hex. congruence.
  - assert (Hex : Exists (fun p => in_cell x0 x1 p = true) positions)
      by (apply Hcell; discriminate).
    assert (HL : ~ L == 0).
    { intro HL. apply (in_cell_not_nan x0 x1 positions); [| exact Hex].
      apply window_positions_nan. exact HL. }
    specialize (Hnan HL). cbv zeta.
    rewrite forallb_isnan_map, Hnan. cbn [forallb].
    rewrite andb_true_r.
    set (acc1 := if Qlt_bool 0 _ then _ else acc).
    assert (Hacc1 : vehicles_crossed acc1 = vehicles_crossed acc).
    { subst acc1. destruct (Qlt_bool 0 _); [| reflexivity].
      destruct (Qlt_bool 0 _); reflexivity. }
    destruct (on_range x0 positions), (on_range x1 positions);
      cbn [negb andb add_crossing vehicles_crossed]; rewrite ?Hacc1;
      (split; [auto |]); (split; [| reflexivity]);
      (split; [intro H; try (exfalso; lia); split; auto
              | intros [_ [H | H]]; try discriminate; reflexivity]).
Qed.

(** The statement of C1 itself fails: [stepping_over] has both interpolated
    times defined at the boundaries of the cell [[100, 200)] and is not
    counted, because none of its positions lies in the cell. *)
Lemma crossing_not_by_interpolation_alone :
  ~ (forall (dt L t0 t1 x0 x1 : Q) (acc : totals) (data : trajectory),
        aligned data ->
        (2 <= length (window_times dt t0 t1 data))%nat ->
        (vehicles_crossed (process_vehicle dt L t0 t1 x0 x1 acc data)
         = S (vehicles_crossed acc)
         <-> forallb (fun t => negb (isnan t))
                     (t_interp dt L t0 t1 x0 x1 data) = true)).
Proof.
  intro H.
  specialize (H 10 1000 0 10 100 200 no_totals stepping_over
                (conj eq_refl eq_refl)).
  assert (H2 : (2 <= length (window_times 10 0 10 stepping_over))%nat)
    by (vm_compute; lia).
  destruct (H H2) as [_ Hback].
  assert (Hdef : forallb (fun t => negb (isnan t))
                   (t_interp 10 1000 0 10 100 200 stepping_over) = true)
    by (vm_compute; reflexivity).
  specialize (Hback Hdef). vm_compute in Hback. discriminate.
Qed.

(** A vehicle is counted with one interpolated time undefined:
    [ending_inside] stops at 150, so that the time at 200 is nan. *)
Example crossing_with_one_boundary :
  map isnan (t_interp 10 1000 0 10 100 200 ending_inside) = [false; true]
  /\ vehicles_crossed
       (process_vehicle 10 1000 0 10 100 200 no_totals ending_inside) = 1%nat.
Proof. split; vm_compute; reflexivity. Qed.

(** ** The distance of a vehicle in a cell *)

(** C4, as the scripts behave.  For a vehicle with at least two samples in
    the window of the cell and at least one wrapped position in the cell,
    the distance [min(x1, last in-cell position) - max(x0, first in-cell
    position)] is added to the distance of the cell when both it and the
    time in the cell are positive; otherwise the distance of the cell is
    left as it is. *)
Theorem distance_needs_positive_time :
  forall (dt L t0 t1 x0 x1 : Q) (acc : totals) (data : trajectory),
    aligned data ->
    (2 <= length (window_times dt t0 t1 data))%nat ->
    Exists (fun p => in_cell x0 x1 p = true)
           (window_positions dt L t0 t1 data) ->
    let acc' := process_vehicle dt L t0 t1 x0 x1 acc data in
    (0 < time_in_cell dt L t0 t1 x0 x1 data ->
     0 < distance_in_cell dt L t0 t1 x0 x1 data ->
     total_distance acc'
     = total_distance acc + distance_in_cell dt L t0 t1 x0 x1 data)
    /\ (~ (0 < time_in_cell dt L t0 t1 x0 x1 data
           /\ 0 < distance_in_cell dt L t0 t1 x0 x1 data) ->
        total_distance acc' = total_distance acc).
Proof.
  intros dt L t0 t1 x0 x1 acc data [Hal _] Hwin Hcell acc'. subst acc'.
  rewrite (process_vehicle_window dt L t0 t1 x0 x1 acc data Hwin).
  apply (cell_times_nonempty dt L t0 t1 x0 x1 data Hal) in Hcell.
  destruct (cell_times dt L t0 t1 x0 x1 data) as [| c cs]; [congruence |].
  cbv zeta.
  destruct (Qlt_bool 0 (time_in_cell dt L t0 t1 x0 x1 data)) eqn:Ht;
  destruct (Qlt_bool 0 (distance_in_cell dt L t0 t1 x0 x1 data)) eqn:Hd;
  destruct (negb (forallb isnan _)); simpl;
  rewrite ?Qlt_bool_iff, ?Qlt_bool_false in *;
  (split; [intros H1 H2 | intro Hn]); try reflexivity;
  try (exfalso; lra); try (exfalso; apply Hn; split; assumption).
Qed.

(** The statement of C4 itself fails: [early_visit] has a positive distance
    in the cell [[0, 100)] of the time bin [[100, 200)], and that distance
    is not added, because its time in the cell is not positive. *)
Lemma distance_not_on_its_own :
  ~ (forall (dt L t0 t1 x0 x1 : Q) (acc : totals) (data : trajectory),
        aligned data ->
        (2 <= length (window_times dt t0 t1 data))%nat ->
        Exists (fun p => in_cell x0 x1 p = true)
               (window_positions dt L t0 t1 data) ->
        0 < distance_in_cell dt L t0 t1 x0 x1 data ->
        total_distance (process_vehicle dt L t0 t1 x0 x1 acc data)
        == total_distance acc + distance_in_cell dt L t0 t1 x0 x1 data).
Proof.
  intro H.
  specialize (H 100 1000 100 200 0 100 no_totals early_visit).
  assert (H2 : (2 <= length (window_times 100 100 200 early_visit))%nat)
    by (vm_compute; lia).
  assert (Hc : Exists (fun p => in_cell 0 100 p = true)
                 (window_positions 100 1000 100 200 early_visit))
    by (left; vm_compute; reflexivity).
  assert (Hd : 0 < distance_in_cell 100 1000 100 200 0 100 early_visit)
    by (vm_compute; reflexivity).
  specialize (H (conj eq_refl eq_refl) H2 Hc Hd).
  vm_compute in H. discriminate.
Qed.


(** ** The scenario of one vehicle at constant speed *)

Lemma scenario_table_contents :
  map (fun e => (fst e, map Qred (time (snd e)), map Qred (pos (snd e))))
      scenario_table
  = [("veh0"%string,
      map (fun k => inject_Z (Z.of_nat k)) (seq 0 101),
      map (fun k => inject_Z (Z.of_nat k) * 10) (seq 0 101))].
Proof. vm_compute. reflexivity. Qed.

(** C2, as the scripts compute it.  With one sample per second from time 0
    to time 100, the run has the single time bin [[0, 100)] and ten space
    bins.  In the bins [[100, 200)] to [[900, 1000)] the vehicle has ten
    samples, nine seconds and ninety metres apart: time 9, density 0.9
    veh/km, distance 90, speed 36 km/h; the boundaries of these bins lie
    beyond the last wrapped position, which is 0, so that the crossing count
    and the flow are 0.  The bin [[0, 100)] holds the first ten samples and
    the last one, wrapped from 1000 to 0: time 100, density 10 veh/km,
    distance 0, speed 0, crossing count 1 and flow 36 veh/hr. *)
Theorem scenario_as_computed :
  exists density flow speed t_starts x_starts,
    scenario_run = Ok (density, flow, speed, t_starts, x_starts)
    /\ Forall2 Qeq t_starts [0]
    /\ Forall2 Qeq x_starts [0; 100; 200; 300; 400; 500; 600; 700; 800; 900]
    /\ Forall2 (Forall2 Qeq) density
         [[10; 9 # 10; 9 # 10; 9 # 10; 9 # 10; 9 # 10; 9 # 10; 9 # 10;
           9 # 10; 9 # 10]]
    /\ Forall2 (Forall2 Qeq) flow [[36; 0; 0; 0; 0; 0; 0; 0; 0; 0]]
    /\ Forall2 (Forall2 Qeq) speed [[0; 36; 36; 36; 36; 36; 36; 36; 36; 36]]
    /\ Forall2 Qeq (map total_time_spent scenario_totals)
         [100; 9; 9; 9; 9; 9; 9; 9; 9; 9]
    /\ Forall2 Qeq (map total_distance scenario_totals)
         [0; 90; 90; 90; 90; 90; 90; 90; 90; 90]
    /\ map vehicles_crossed scenario_totals
       = [1; 0; 0; 0; 0; 0; 0; 0; 0; 0]%nat.
Proof.
  do 5 eexists. split; [vm_compute; reflexivity |].
  repeat split; try (vm_compute; reflexivity);
    repeat (constructor; try (vm_compute; reflexivity)).
Qed.

(** The statement of C2 itself fails: the run does not give the density 1,
    the flow 36 and the speed 36 in every space bin.  By
    [scenario_time_below_ten] no other sampling of the scenario would. *)
Lemma scenario_not_as_specified :
  ~ (exists density flow speed t_starts x_starts,
        scenario_run = Ok (density, flow, speed, t_starts, x_starts)
        /\ forall j, (j < 10)%nat ->
             entry_is density 0 j 1
             /\ entry_is flow 0 j 36
             /\ entry_is speed 0 j 36
             /\ (exists acc, nth_error scenario_totals j = Some acc
                  /\ total_time_spent acc == 10
                  /\ total_distance acc == 100
                  /\ vehicles_crossed acc = 1%nat)).
Proof.
  intros (density & flow & speed & t_starts & x_starts & Hrun & Hall).
  vm_compute in Hrun. injection Hrun as <- <- <- <- <-.
  destruct (Hall 1%nat ltac:(lia)) as ((v & Hv & Heq) & _).
  vm_compute in Hv. injection Hv as <-.
  vm_compute in Heq. discriminate.
Qed.

(** No sampling of the scenario gives the ten seconds of the statement: in
    a space bin after the first, the samples in the cell lie strictly within
    ten seconds of each other. *)

Lemma take_mask_cons {A} (x : A) (a : list A) (c : bool) (m : list bool) :
  take_mask (x :: a) (c :: m)
  = if c then x :: take_mask a m else take_mask a m.
Proof. unfold take_mask. simpl. destruct c; reflexivity. Qed.

Lemma take_mask_pairs {A B} (R : A -> B -> Prop) (a : list A) (b : list B) :
  Forall2 R a b ->
  forall m, Forall2 R (take_mask a m) (take_mask b m).
Proof.
  induction 1 as [| x y a b Hxy _ IH]; intros [| c m];
    try (unfold take_mask; simpl; constructor).
  rewrite !take_mask_cons. destruct c; [constructor; [exact Hxy |] |];
    apply IH.
Qed.

Lemma take_mask_tested {A B} (R : A -> B -> Prop) (f : B -> bool)
    (a : list A) (b : list B) :
  Forall2 R a b ->
  Forall (fun x => exists y, R x y /\ f y = true) (take_mask a (map f b)).
Proof.
  induction 1 as [| x y a b Hxy _ IH]; [constructor |].
  simpl map. rewrite take_mask_cons.
  destruct (f y) eqn:E; [constructor; [eauto |] |]; exact IH.
Qed.

Lemma Forall2_map_r {A B C} (R : A -> C -> Prop) (g : B -> C)
    (a : list A) (b : list B) :
  Forall2 (fun x y => R x (g y)) a b -> Forall2 R a (map g b).
Proof. induction 1; simpl; constructor; assumption. Qed.

Lemma Forall_last {A} (P : A -> Prop) (l : list A) (d : A) :
  Forall P l -> l <> [] -> P (last l d).
Proof.
  intros H Hne. destruct (exists_last Hne) as (front & a & ->).
  rewrite last_last. apply Forall_app in H. destruct H as [_ H].
  inversion H. assumption.
Qed.

Lemma Forall_hd {A} (P : A -> Prop) (l : list A) (d : A) :
  Forall P l -> l <> [] -> P (hd d l).
Proof. intros H Hne. destruct H; [congruence | assumption]. Qed.

Lemma scenario_sample_in_cell t p x0 :
  0 <= t <= 100 -> p == 10 * t -> 100 <= x0 ->
  in_cell x0 (x0 + 100) (np_mod p 1000) = true ->
  x0 <= 10 * t /\ 10 * t < x0 + 100.
Proof.
  intros Ht Hp Hx0. unfold np_mod, in_cell.
  change (Qeq_bool 1000 0) with false. cbv iota. cbn [np_le np_lt].
  rewrite andb_true_iff, Qle_bool_iff, Qlt_bool_iff.
  pose proof (Qfloor_le (p / 1000)) as Hlo.
  pose proof (Qlt_floor (p / 1000)) as Hhi.
  rewrite inject_Z_plus in Hhi. change (inject_Z 1) with 1 in Hhi.
  set (f := Qfloor (p / 1000)) in *.
  unfold Qdiv in Hlo, Hhi. change (/ 1000) with (1 # 1000) in Hlo, Hhi.
  assert (Hf : (0 <= f <= 1)%Z).
  { split.
    - assert (H : (-1 < f)%Z); [| lia].
      rewrite Zlt_Qlt. change (inject_Z (-1)) with (-1). lra.
    - rewrite Zle_Qle. change (inject_Z 1) with 1. lra. }
  assert (Hcases : f = 0%Z \/ f = 1%Z) by lia.
  destruct Hcases as [-> | ->].
  - change (inject_Z 0) with 0. intros [H1 H2]. lra.
  - change (inject_Z 1) with 1 in *. intros [H1 H2]. lra.
Qed.

Lemma scenario_time_below_ten data x0 :
  on_scenario data -> 100 <= x0 ->
  total_time_spent
    (process_vehicle 100 1000 0 100 x0 (x0 + 100) no_totals data) < 10.
Proof.
  intros Hdata Hx0.
  assert (Hcell : Forall (fun t => x0 <= 10 * t /\ 10 * t < x0 + 100)
                    (cell_times 100 1000 0 100 x0 (x0 + 100) data)).
  { unfold cell_times, cell_mask, window_times, window_positions.
    eapply Forall_impl;
      [| apply (take_mask_tested
                  (fun t w => exists p, (0 <= t <= 100 /\ p == 10 * t)
                                        /\ w = np_mod p 1000));
         apply Forall2_map_r;
         eapply Forall2_impl;
           [| apply take_mask_pairs; exact Hdata]].
    - intros t (w & (p & [Ht Hp] & ->) & Hin).
      apply (scenario_sample_in_cell t p x0 Ht Hp Hx0 Hin).
    - intros t p H. exists p. split; [exact H | reflexivity]. }
  unfold process_vehicle.
  destruct (negb _); [reflexivity |].
  destruct (1 <? _)%nat; [| reflexivity].
  destruct (0 <? _)%nat eqn:Hlen; [| reflexivity].
  assert (Hne : cell_times 100 1000 0 100 x0 (x0 + 100) data <> []).
  { intro E. rewrite E in Hlen. discriminate. }
  pose proof (Forall_hd _ _ 0 Hcell Hne) as [Hh0 Hh1].
  pose proof (Forall_last _ _ 0 Hcell Hne) as [Hl0 Hl1].
  assert (Htime : time_in_cell 100 1000 0 100 x0 (x0 + 100) data < 10).
  { unfold time_in_cell.
    set (first := hd 0 _) in *. set (final := last _ 0) in *.
    assert (py_min 100 final <= final).
    { unfold py_min. destruct (Qlt_bool final 100) eqn:E; [lra |].
      apply Qlt_bool_false in E. lra. }
    assert (first <= py_max 0 first).
    { unfold py_max. destruct (Qlt_bool 0 first) eqn:E; [lra |].
      apply Qlt_bool_false in E. lra. }
    lra. }
  destruct (Qlt_bool 0 (time_in_cell _ _ _ _ _ _ _)).
  - destruct (Qlt_bool 0 (distance_in_cell _ _ _ _ _ _ _)),
      (negb (forallb isnan _)); simpl; lra.
  - destruct (negb (forallb isnan _)); reflexivity.
Qed.

Lemma scenario_table_on_scenario :
  Forall (fun e => on_scenario (snd e)) scenario_table.
Proof.
  unfold on_scenario. vm_compute.
  constructor; [| constructor].
  repeat (constructor; [repeat split; try discriminate; reflexivity |]).
  constructor.
Qed.

(** ** The trajectory of one vehicle *)

Lemma dict_get_set_same k v d : dict_get k (dict_set k v d) = Some v.
Proof.
  induction d as [| [k' v'] d IH]; simpl.
  - rewrite String.eqb_refl. reflexivity.
  - destruct (String.eqb k' k) eqn:E; simpl; rewrite E; auto.
Qed.

Lemma dict_get_set_other k k' v d :
  k' <> k -> dict_get k (dict_set k' v d) = dict_get k d.
Proof.
  intro Hne. induction d as [| [k0 v0] d IH]; simpl.
  - destruct (String.eqb k' k) eqn:E; [| reflexivity].
    apply String.eqb_eq in E. contradiction.
  - destruct (String.eqb k0 k') eqn:E; simpl.
    + apply String.eqb_eq in E. subst k0.
      destruct (String.eqb k' k) eqn:E'; [| reflexivity].
      apply String.eqb_eq in E'. contradiction.
    + rewrite IH. reflexivity.
Qed.

Lemma dict_get_map_finish k d :
  dict_get k (map (fun entry => (fst entry, finish (snd entry))) d)
  = option_map finish (dict_get k d).
Proof.
  induction d as [| [k' v'] d IH]; simpl; [reflexivity |].
  destruct (String.eqb k' k); [reflexivity | exact IH].
Qed.

Section OneVehicle.

Variable tag : vehicle -> trajectory -> trajectory.
Variable k : string.

Lemma record_sample_same t d veh :
  veh_id veh = k ->
  dict_get k (Reconstructor.record_sample tag t d veh)
  = Some (append_sample t veh (tag veh (dict_get_default k d))).
Proof.
  intro Hid. unfold Reconstructor.record_sample. rewrite Hid.
  apply dict_get_set_same.
Qed.

Lemma record_sample_other t d veh :
  veh_id veh <> k ->
  dict_get k (Reconstructor.record_sample tag t d veh) = dict_get k d.
Proof.
  intro Hid. unfold Reconstructor.record_sample.
  apply dict_get_set_other. exact Hid.
Qed.

Lemma after_app o rs rs' :
  after tag o (rs ++ rs') = after tag (after tag o rs) rs'.
Proof.
  destruct rs as [| r rs]; [reflexivity |].
  destruct rs' as [| r' rs']; [rewrite app_nil_r; reflexivity |].
  simpl. unfold track. rewrite fold_left_app. reflexivity.
Qed.

Lemma timestep_held t vehs :
  forall d,
    dict_get k (fold_left (Reconstructor.record_sample tag t) vehs d)
    = after tag (dict_get k d)
            (map (fun veh => (t, veh))
                 (filter (fun veh => String.eqb (veh_id veh) k) vehs)).
Proof.
  induction vehs as [| veh vehs IH]; intro d; simpl; [reflexivity |].
  rewrite IH. destruct (String.eqb (veh_id veh) k) eqn:E.
  - apply String.eqb_eq in E. rewrite (record_sample_same t d veh E).
    simpl map. change ((t, veh) :: ?l) with ([(t, veh)] ++ l).
    rewrite after_app. reflexivity.
  - apply String.eqb_neq in E. rewrite (record_sample_other t d veh E).
    reflexivity.
Qed.

Lemma stream_held stream :
  forall d,
    dict_get k (fold_left
            (fun trajectories (step : timestep) =>
               fold_left (Reconstructor.record_sample tag (fst step))
                         (snd step) trajectories)
            stream d)
    = after tag (dict_get k d) (records_of k stream).
Proof.
  induction stream as [| step stream IH]; intro d; simpl; [reflexivity |].
  rewrite IH, timestep_held, <- after_app. reflexivity.
Qed.

Lemma parse_held stream :
  records_of k stream <> [] ->
  dict_get k (Reconstructor.parse_fcd_file tag stream)
  = Some (finish (track tag new_trajectory (records_of k stream))).
Proof.
  intro Hne. unfold Reconstructor.parse_fcd_file, update_values.
  cbn [snd]. rewrite dict_get_map_finish.
  pose proof (stream_held stream []) as H.
  unfold Reconstructor.read_stream. rewrite H. simpl.
  destruct (records_of k stream); [congruence | reflexivity].
Qed.

End OneVehicle.

Lemma track_time tag data rs :
  (forall veh d, time (tag veh d) = time d) ->
  time (track tag data rs) = time data ++ map fst rs.
Proof.
  intro Htag. revert data.
  induction rs as [| r rs IH]; intro data; simpl.
  - rewrite app_nil_r. reflexivity.
  - rewrite IH. simpl. rewrite Htag, <- app_assoc. reflexivity.
Qed.

Lemma track_pos tag data rs :
  (forall veh d, pos (tag veh d) = pos d) ->
  pos (track tag data rs) = stitch (pos data) (map sample_position rs).
Proof.
  intro Htag. revert data.
  induction rs as [| r rs IH]; intro data; simpl; [reflexivity |].
  rewrite IH. simpl. rewrite Htag. reflexivity.
Qed.

(** The trajectory that [parse_fcd_file] holds for a vehicle with samples:
    the times of the samples, and their corridor positions stitched and
    then unwrapped. *)
Lemma edies_trajectory k stream :
  records_of k stream <> [] ->
  exists data,
    dict_get k (Edies.parse_fcd_file stream) = Some data
    /\ time data = map fst (records_of k stream)
    /\ pos data
       = unwrap_laps (stitch [] (map sample_position (records_of k stream))).
Proof.
  intro Hne. eexists. split; [apply parse_held; exact Hne |].
  simpl. split.
  - rewrite track_time; reflexivity.
  - rewrite track_pos; reflexivity.
Qed.

(** ** Streams without a lap *)

Lemma half_corridor : total_length / 2 == 500.
Proof. reflexivity. Qed.

Lemma stitch_no_drop ps :
  forall stored,
    match stored with
    | [] => steady ps
    | _ :: _ => no_drop (last stored 0) ps
    end ->
    stitch stored ps = stored ++ ps.
Proof.
  induction ps as [| p ps IH]; intros stored H; simpl.
  - rewrite app_nil_r. reflexivity.
  - assert (Hw : wrap_once stored p = p).
    { destruct stored as [| s0 stored]; [reflexivity |].
      unfold wrap_once. destruct H as [H _].
      destruct (Qlt_bool _ _) eqn:E; [| reflexivity].
      apply Qlt_bool_iff in E. lra. }
    rewrite Hw, IH.
    + rewrite <- app_assoc. reflexivity.
    + assert (Hnd : no_drop p ps)
        by (destruct stored; [exact H | exact (proj2 H)]).
      rewrite last_last.
      destruct (stored ++ [p]) eqn:E; [| exact Hnd].
      destruct stored; discriminate.
Qed.

Lemma no_drop_nth ps :
  forall prev i,
    no_drop prev ps -> (i < length ps)%nat ->
    nth i (prev :: ps) 0 <= nth i ps 0 + total_length / 2.
Proof.
  induction ps as [| p ps IH]; intros prev i H Hi; simpl in Hi; [lia |].
  destruct H as [H0 H]. destruct i as [| i]; [exact H0 |].
  apply (IH p i H). lia.
Qed.

Lemma fold_left_fixed {A B} (f : A -> B -> A) (l : list B) (a : A) :
  (forall b, In b l -> f a b = a) -> fold_left f l a = a.
Proof.
  induction l as [| b l IH]; intro H; simpl; [reflexivity |].
  rewrite (H b) by (left; reflexivity).
  apply IH. intros b' Hb'. apply H. right. exact Hb'.
Qed.

Lemma unwrap_laps_steady ps : steady ps -> unwrap_laps ps = ps.
Proof.
  intro H. unfold unwrap_laps. apply fold_left_fixed.
  intros i Hi. apply in_seq in Hi. unfold lap_step.
  destruct ps as [| p ps]; [simpl in Hi; lia |].
  simpl in Hi, H.
  pose proof (no_drop_nth ps p (i - 1) H ltac:(lia)) as Hd.
  destruct i as [| i]; [lia |].
  replace (S i - 1)%nat with i in * by lia.
  change (nth (S i) (p :: ps) 0) with (nth i ps 0).
  destruct (Qlt_bool _ _) eqn:E; [| reflexivity].
  apply Qlt_bool_iff in E. lra.
Qed.

Lemma last_nonempty {A} (l : list A) (d d' : A) :
  l <> [] -> last l d = last l d'.
Proof.
  induction l as [| a l IH]; intro H; [congruence |].
  destruct l as [| b l]; [reflexivity |].
  change (last (b :: l) d = last (b :: l) d'). apply IH. discriminate.
Qed.

Lemma no_drop_app ps qs :
  forall prev,
    no_drop prev ps -> no_drop (last ps prev) qs -> no_drop prev (ps ++ qs).
Proof.
  induction ps as [| p ps IH]; intros prev Hp Hq; simpl in *; [exact Hq |].
  destruct Hp as [H0 Hp]. split; [exact H0 |].
  apply IH; [exact Hp |].
  destruct ps as [| p' ps]; [exact Hq |].
  rewrite (last_nonempty (p' :: ps) p prev) by discriminate. exact Hq.
Qed.

Lemma steady_app ps qs :
  steady ps -> steady qs ->
  (forall a b, ps <> [] -> last ps 0 = a -> hd_error qs = Some b ->
               a <= b + total_length / 2) ->
  steady (ps ++ qs).
Proof.
  intros Hp Hq Hjoin.
  destruct ps as [| p ps]; [exact Hq |].
  simpl. apply no_drop_app; [exact Hp |].
  destruct qs as [| q qs]; [exact I |].
  simpl. split; [| exact Hq].
  destruct ps as [| p' ps].
  - apply (Hjoin p q); [discriminate | reflexivity | reflexivity].
  - rewrite (last_nonempty (p' :: ps) p 0) by discriminate.
    apply (Hjoin (last (p :: p' :: ps) 0) q);
      [discriminate | reflexivity | reflexivity].
Qed.

Lemma no_drop_shift c ps :
  forall prev,
    no_drop prev ps -> no_drop (c + prev) (map (fun p => c + p) ps).
Proof.
  induction ps as [| p ps IH]; intros prev H; simpl in *; [exact I |].
  destruct H as [H0 H]. split; [lra | apply IH; exact H].
Qed.

Lemma steady_shift c ps : steady ps -> steady (map (fun p => c + p) ps).
Proof.
  destruct ps as [| p ps]; [intros _; exact I |].
  simpl. apply no_drop_shift.
Qed.

(** The first passage over the connector.  Take a vehicle whose samples
    are first on the main circle, at raw positions between 0 and its
    length and never more than half a corridor behind the previous one,
    and then on the connector [b_0], where the raw position starts again
    from a value that is not negative.  The positions that the
    reconstructor returns are the raw positions on the main circle and
    [main_circle_length + raw position] on the connector: entering the
    connector adds no corridor length. *)
Theorem connector_is_stitched :
  forall (stream : list timestep) (k : string) (A B : list (Q * vehicle)),
    records_of k stream = A ++ B ->
    B <> [] ->
    Forall (fun r => veh_lane (snd r) <> "b_0"%string
                     /\ 0 <= raw_pos (snd r) <= main_circle_length) A ->
    Forall (fun r => veh_lane (snd r) = "b_0"%string
                     /\ 0 <= raw_pos (snd r)) B ->
    steady (map (fun r => raw_pos (snd r)) A) ->
    steady (map (fun r => raw_pos (snd r)) B) ->
    exists data,
      dict_get k (Edies.parse_fcd_file stream) = Some data
      /\ time data = map fst A ++ map fst B
      /\ pos data
         = map (fun r => raw_pos (snd r)) A
           ++ map (fun r => main_circle_length + raw_pos (snd r)) B.
Proof.
  intros stream k A B Hrs HB HA HBl HsA HsB.
  assert (Hne : records_of k stream <> []).
  { rewrite Hrs. destruct A; [exact HB | discriminate]. }
  destruct (edies_trajectory k stream Hne) as (data & Hget & Htime & Hpos).
  exists data. split; [exact Hget |].
  rewrite Hrs, map_app in Htime. split; [exact Htime |].
  rewrite Hpos, Hrs, map_app.
  assert (EA : map sample_position A = map (fun r => raw_pos (snd r)) A).
  { apply map_ext_in. intros r Hr. rewrite Forall_forall in HA.
    destruct (HA r Hr) as [Hlane _]. unfold sample_position, lane_position.
    apply String.eqb_neq in Hlane. rewrite Hlane. reflexivity. }
  assert (EB : map sample_position B
               = map (fun r => main_circle_length + raw_pos (snd r)) B).
  { apply map_ext_in. intros r Hr. rewrite Forall_forall in HBl.
    destruct (HBl r Hr) as [Hlane _]. unfold sample_position, lane_position.
    rewrite Hlane. reflexivity. }
  rewrite EA, EB.
  assert (Hsteady :
            steady (map (fun r => raw_pos (snd r)) A
                    ++ map (fun r => main_circle_length + raw_pos (snd r)) B)).
  { apply steady_app.
    - exact HsA.
    - rewrite <- (map_map (fun r => raw_pos (snd r))
                          (fun p => main_circle_length + p)).
      apply steady_shift. exact HsB.
    - intros a b HAne Ha Hb.
      assert (Hale : a <= main_circle_length).
      { rewrite <- Ha.
        apply (Forall_last (fun p => p <= main_circle_length));
          [| exact HAne].
        apply Forall_map. apply Forall_forall. intros r Hr.
        rewrite Forall_forall in HA. apply (HA r Hr). }
      destruct B as [| r B]; [discriminate |].
      simpl in Hb. injection Hb as <-.
      apply Forall_inv in HBl. destruct HBl as [_ Hr].
      pose proof half_corridor. lra. }
  rewrite stitch_no_drop by exact Hsteady. simpl.
  apply unwrap_laps_steady. exact Hsteady.
Qed.

(** ** Streams with laps

    A vehicle moves forward by less than half a corridor between samples.
    Its corridor position [p k] is its travelled distance [x k] less the
    laps [m k] it has completed.  The pass over the stream adds one corridor
    length from the second lap on, and the pass over the arrays adds the
    rest. *)

Lemma inject_nat_S a :
  inject_Z (Z.of_nat (S a)) == inject_Z (Z.of_nat a) + 1.
Proof.
  rewrite Nat2Z.inj_succ. unfold Z.succ. rewrite inject_Z_plus. reflexivity.
Qed.

Lemma last_as_nth {A} (l : list A) (d : A) :
  last l d = nth (length l - 1) l d.
Proof.
  destruct l as [| a l]; [reflexivity |].
  destruct (exists_last (l := a :: l) ltac:(discriminate))
    as (front & b & E).
  rewrite E, last_last, length_app. simpl.
  rewrite app_nth2 by lia.
  replace (length front + 1 - 1 - length front)%nat with O by lia.
  reflexivity.
Qed.

Lemma wrap_once_cases stored p :
  stored <> [] ->
  (p + total_length / 2 < last stored 0
   /\ wrap_once stored p = p + total_length)
  \/ (last stored 0 <= p + total_length / 2 /\ wrap_once stored p = p).
Proof.
  intro Hne. destruct stored as [| s0 stored]; [congruence |].
  unfold wrap_once. destruct (Qlt_bool _ _) eqn:E.
  - left. apply Qlt_bool_iff in E. auto.
  - right. apply Qlt_bool_false in E. auto.
Qed.

Lemma lap_step_cases positions i :
  (nth i positions 0 < nth (i - 1) positions 0 - total_length / 2
   /\ lap_step positions i = add_from i total_length positions)
  \/ (nth (i - 1) positions 0 - total_length / 2 <= nth i positions 0
      /\ lap_step positions i = positions).
Proof.
  unfold lap_step. destruct (Qlt_bool _ _) eqn:E.
  - left. apply Qlt_bool_iff in E. auto.
  - right. apply Qlt_bool_false in E. auto.
Qed.

Lemma length_add_from i c l : length (add_from i c l) = length l.
Proof.
  unfold add_from. rewrite length_app, length_map, <- length_app.
  rewrite firstn_skipn. reflexivity.
Qed.

Lemma nth_add_from c l :
  forall i j,
    (j < length l)%nat ->
    nth j (add_from i c l) 0
    = if (j <? i)%nat then nth j l 0 else nth j l 0 + c.
Proof.
  unfold add_from.
  induction l as [| a l IH]; intros i j Hj; simpl in Hj; [lia |].
  destruct i as [| i]; simpl.
  - destruct j as [| j]; [reflexivity |].
    specialize (IH O j ltac:(lia)). simpl in IH. exact IH.
  - destruct j as [| j]; [reflexivity |].
    specialize (IH i j ltac:(lia)).
    change (S j <? S i)%nat with (j <? i)%nat. exact IH.
Qed.

Lemma length_lap_step l i : length (lap_step l i) = length l.
Proof.
  unfold lap_step. destruct (Qlt_bool _ _); [apply length_add_from |].
  reflexivity.
Qed.

Lemma fold_seq_invariant {A} (P : nat -> A -> Prop) (f : A -> nat -> A) :
  forall len a init,
    P a init ->
    (forall i l, (a <= i < a + len)%nat -> P i l -> P (S i) (f l i)) ->
    P (a + len)%nat (fold_left f (seq a len) init).
Proof.
  induction len as [| len IH]; intros a init H0 Hstep; simpl.
  - rewrite Nat.add_0_r. exact H0.
  - replace (a + S len)%nat with (S a + len)%nat by lia.
    apply IH.
    + apply Hstep; [lia | exact H0].
    + intros i l Hi. apply Hstep. lia.
Qed.

Section Laps.

Variables (x p : nat -> Q) (m : nat -> nat).

Hypothesis Hp : forall k, p k == x k - laps_done m k * total_length.
Hypothesis Hm0 : m O = O.
Hypothesis Hm : forall k, m (S k) = m k \/ m (S k) = S (m k).
Hypothesis Hstep :
  forall k, 0 <= x (S k) - x k /\ x (S k) - x k < total_length / 2.

(** From one sample to the next: still on the first lap, entering the
    second, within a later lap, or entering a later lap. *)
Lemma lap_facts k :
  (laps_done m k == 0 /\ laps_missed m k == 0
   /\ laps_done m (S k) == 0 /\ laps_missed m (S k) == 0)
  \/ (laps_done m k == 0 /\ laps_missed m k == 0
      /\ laps_done m (S k) == 1 /\ laps_missed m (S k) == 0)
  \/ (laps_done m k == laps_missed m k + 1
      /\ laps_done m (S k) == laps_missed m k + 1
      /\ laps_missed m (S k) == laps_missed m k)
  \/ (laps_done m k == laps_missed m k + 1
      /\ laps_done m (S k) == laps_missed m k + 2
      /\ laps_missed m (S k) == laps_missed m k + 1).
Proof.
  unfold laps_done, laps_missed.
  destruct (m k) as [| a] eqn:Ek; destruct (Hm k) as [E | E]; rewrite E, Ek.
  - left. simpl. repeat split; reflexivity.
  - right. left. simpl. repeat split; reflexivity.
  - right. right. left. simpl pred.
    pose proof (inject_nat_S a). repeat split; lra.
  - right. right. right. simpl pred.
    pose proof (inject_nat_S a). pose proof (inject_nat_S (S a)).
    repeat split; lra.
Qed.

Lemma laps_start : laps_done m O == 0 /\ laps_missed m O == 0.
Proof. unfold laps_done, laps_missed. rewrite Hm0. split; reflexivity. Qed.

Lemma stitch_laps n :
  length (stitch [] (map p (seq 0 n))) = n
  /\ forall j, (j < n)%nat ->
       nth j (stitch [] (map p (seq 0 n))) 0
       == x j - laps_missed m j * total_length.
Proof.
  induction n as [| n [IHlen IHnth]]; [split; [reflexivity | intros; lia] |].
  rewrite seq_S, map_app. unfold stitch in *. rewrite fold_left_app.
  simpl. set (st := fold_left _ (map p (seq 0 n)) []) in *.
  split; [rewrite length_app, IHlen; simpl; lia |].
  intros j Hj. destruct (Nat.eq_dec j n) as [-> | Hne].
  2:{ rewrite app_nth1 by lia. apply IHnth. lia. }
  rewrite app_nth2 by lia. rewrite IHlen, Nat.sub_diag. simpl.
  destruct n as [| n].
  - destruct st; [| discriminate]. simpl.
    destruct laps_start as [H0 H1]. rewrite (Hp 0), H0, H1. ring.
  - assert (Hne : st <> []) by (destruct st; [discriminate | discriminate]).
    pose proof (IHnth n ltac:(lia)) as Hlast.
    rewrite <- (Nat.sub_0_r n) in Hlast at 1.
    replace (n - 0)%nat with (length st - 1)%nat in Hlast by lia.
    rewrite <- last_as_nth in Hlast.
    pose proof (Hp (S n)) as Hpn. pose proof (Hstep n) as [Hs0 Hs1].
    pose proof half_corridor as Hhalf.
    destruct (wrap_once_cases st (p (S n)) Hne) as [[Hc ->] | [Hc ->]];
      destruct (lap_facts n) as [F | [F | [F | F]]];
      decompose [and] F; clear F;
      unfold total_length, Qdiv in *; lra.
Qed.

Lemma unwrap_laps_restores n cur :
  length cur = n ->
  (forall j, (j < n)%nat ->
     nth j cur 0 == x j - laps_missed m j * total_length) ->
  length (unwrap_laps cur) = n
  /\ forall j, (j < n)%nat -> nth j (unwrap_laps cur) 0 == x j.
Proof.
  intros Hlen Hcur.
  destruct n as [| n].
  { destruct cur; [| discriminate]. split; [reflexivity | intros; lia]. }
  set (P := fun (i : nat) (l : list Q) =>
              length l = S n
              /\ forall j, (j < S n)%nat ->
                   nth j l 0
                   == if (j <? i)%nat then x j
                      else x j - laps_missed m j * total_length
                           + laps_missed m (i - 1) * total_length).
  assert (Hfinal : P (1 + n)%nat (unwrap_laps cur)).
  { unfold unwrap_laps. rewrite Hlen.
    replace (S n - 1)%nat with n by lia.
    apply fold_seq_invariant.
    - split; [exact Hlen |]. intros j Hj. rewrite (Hcur j Hj).
      destruct laps_start as [_ H1].
      destruct (j <? 1)%nat eqn:E.
      + apply Nat.ltb_lt in E. assert (j = O) by lia. subst j.
        rewrite H1. ring.
      + simpl. rewrite H1. ring.
    - intros i l Hi [Hl Hnth]. split; [rewrite length_lap_step; exact Hl |].
      destruct i as [| i]; [lia |].
      pose proof (Hnth (S i) ltac:(lia)) as Hi1.
      pose proof (Hnth i ltac:(lia)) as Hi0.
      rewrite Nat.ltb_irrefl in Hi1.
      assert (Ei : (i <? S i)%nat = true) by (apply Nat.ltb_lt; lia).
      rewrite Ei in Hi0.
      replace (S i - 1)%nat with i in * by lia.
      pose proof (Hstep i) as [Hs0 Hs1]. pose proof half_corridor as Hhalf.
      assert (Hmiss : laps_missed m (S i) == laps_missed m i
                      \/ laps_missed m (S i) == laps_missed m i + 1).
      { destruct (lap_facts i) as [F | [F | [F | F]]];
          decompose [and] F; clear F; [left | left | left | right]; lra. }
      intros j Hj. specialize (Hnth j Hj).
      destruct (lap_step_cases l (S i)) as [[Hc ->] | [Hc ->]];
        replace (S i - 1)%nat with i in Hc by lia.
      + rewrite nth_add_from by lia.
        destruct Hmiss as [Hmiss | Hmiss];
          [exfalso; unfold total_length, Qdiv in *; lra |].
        destruct (j <? S i)%nat eqn:E1.
        * assert (E2 : (j <? S (S i))%nat = true)
            by (apply Nat.ltb_lt; apply Nat.ltb_lt in E1; lia).
          rewrite E2, Hnth. reflexivity.
        * apply Nat.ltb_ge in E1. rewrite Hnth.
          destruct (j <? S (S i))%nat eqn:E2.
          -- apply Nat.ltb_lt in E2. assert (j = S i) by lia. subst j.
             rewrite Hmiss. ring.
          -- rewrite Hmiss. ring.
      + destruct Hmiss as [Hmiss | Hmiss];
          [| exfalso; unfold total_length, Qdiv in *; lra].
        rewrite Hnth.
        destruct (j <? S i)%nat eqn:E1.
        * assert (E2 : (j <? S (S i))%nat = true)
            by (apply Nat.ltb_lt; apply Nat.ltb_lt in E1; lia).
          rewrite E2. reflexivity.
        * apply Nat.ltb_ge in E1.
          destruct (j <? S (S i))%nat eqn:E2.
          -- apply Nat.ltb_lt in E2. assert (j = S i) by lia. subst j.
             rewrite Hmiss. ring.
          -- rewrite Hmiss. ring. }
  destruct Hfinal as [Hl Hnth]. split; [exact Hl |].
  intros j Hj. rewrite (Hnth j Hj).
  assert (E : (j <? 1 + n)%nat = true) by (apply Nat.ltb_lt; lia).
  rewrite E. reflexivity.
Qed.

End Laps.

(** ** The vehicle at constant speed *)

Lemma floor_step y d :
  0 <= d -> d < 1 ->
  Qfloor (y + d) = Qfloor y \/ Qfloor (y + d) = (Qfloor y + 1)%Z.
Proof.
  intros Hd0 Hd1.
  pose proof (Qfloor_le y) as L1. pose proof (Qlt_floor y) as U1.
  pose proof (Qfloor_le (y + d)) as L2. pose proof (Qlt_floor (y + d)) as U2.
  rewrite inject_Z_plus in U1, U2. change (inject_Z 1) with 1 in U1, U2.
  assert (H1 : (Qfloor y < Qfloor (y + d) + 1)%Z).
  { rewrite Zlt_Qlt, inject_Z_plus. change (inject_Z 1) with 1. lra. }
  assert (H2 : (Qfloor (y + d) < Qfloor y + 2)%Z).
  { rewrite Zlt_Qlt, inject_Z_plus. change (inject_Z 2) with 2. lra. }
  lia.
Qed.

Section ConstantSpeed.

Variables (name : string) (v step : Q).
Hypothesis Hv : 0 < v.
Hypothesis Hdt : 0 < step.
Hypothesis Hslow : v * step < total_length / 2.

Lemma travelled_next k :
  travelled v step (S k) == travelled v step k + v * step.
Proof.
  unfold travelled. rewrite inject_nat_S. ring.
Qed.

Lemma travelled_nonneg k : 0 <= travelled v step k.
Proof.
  induction k as [| k IH].
  - unfold travelled. simpl. ring_simplify. lra.
  - rewrite travelled_next. nra.
Qed.

Lemma laps_nonneg k : (0 <= Qfloor (travelled v step k / total_length))%Z.
Proof.
  change 0%Z with (Qfloor 0). apply Qfloor_resp_le.
  pose proof (travelled_nonneg k).
  unfold total_length, Qdiv. change (/ 1000) with (1 # 1000). lra.
Qed.

Lemma laps_done_floor k :
  laps_done (lap_of v step) k
  == inject_Z (Qfloor (travelled v step k / total_length)).
Proof.
  unfold laps_done, lap_of. rewrite Z2Nat.id by apply laps_nonneg.
  reflexivity.
Qed.

Lemma lap_of_start : lap_of v step 0 = O.
Proof.
  unfold lap_of.
  assert (E : travelled v step 0 / total_length == 0).
  { unfold travelled. simpl. unfold total_length, Qdiv. ring. }
  rewrite E. reflexivity.
Qed.

Lemma lap_of_next k :
  lap_of v step (S k) = lap_of v step k
  \/ lap_of v step (S k) = S (lap_of v step k).
Proof.
  unfold lap_of.
  assert (E : travelled v step (S k) / total_length
              == travelled v step k / total_length
                 + v * step / total_length).
  { rewrite travelled_next. unfold total_length. field. }
  rewrite E.
  assert (Hs : 0 < v * step) by nra.
  pose proof half_corridor as Hhalf.
  destruct (floor_step (travelled v step k / total_length)
                       (v * step / total_length)) as [-> | ->].
  - unfold total_length, Qdiv in *.
    change (/ 1000) with (1 # 1000). change (/ 2) with (1 # 2) in *. lra.
  - unfold total_length, Qdiv in *.
    change (/ 1000) with (1 # 1000). change (/ 2) with (1 # 2) in *. lra.
  - left. reflexivity.
  - right. pose proof (laps_nonneg k). lia.
Qed.

Lemma constant_speed_position k :
  sample_position (constant_speed_sample name v step k)
  == travelled v step k - laps_done (lap_of v step) k * total_length.
Proof.
  rewrite laps_done_floor.
  unfold sample_position, constant_speed_sample, corridor_position.
  fold (travelled v step k).
  destruct (Qlt_bool _ main_circle_length);
    unfold lane_position; cbn [snd veh_lane raw_pos].
  - change (String.eqb "a_0" "b_0") with false. cbv iota. ring.
  - change (String.eqb "b_0" "b_0") with true. cbv iota. ring.
Qed.

Lemma constant_speed_steps k :
  0 <= travelled v step (S k) - travelled v step k
  /\ travelled v step (S k) - travelled v step k < total_length / 2.
Proof.
  rewrite travelled_next. assert (0 < v * step) by nra. split; lra.
Qed.

Lemma constant_speed_positions n :
  map sample_position (constant_speed_records name v step n)
  = map (fun k => sample_position (constant_speed_sample name v step k))
        (seq 0 n).
Proof. unfold constant_speed_records. apply map_map. Qed.

Lemma constant_speed_times n :
  map fst (constant_speed_records name v step n)
  = map (fun k => inject_Z (Z.of_nat k) * step) (seq 0 n).
Proof. unfold constant_speed_records. rewrite map_map. reflexivity. Qed.

End ConstantSpeed.

Lemma nth_map_seq {A} (f : nat -> A) (d : A) n k :
  (k < n)%nat -> nth k (map f (seq 0 n)) d = f k.
Proof.
  intro Hk. rewrite (nth_indep _ d (f O))
    by (rewrite length_map, length_seq; exact Hk).
  rewrite map_nth, seq_nth by exact Hk. reflexivity.
Qed.

(** C3, as the scripts behave.  Take a vehicle that moves at the constant
    speed [v > 0] and is sampled every [step > 0] seconds from time 0 and
    position 0, for any number of samples and so for any number of laps, and
    let it advance by less than half a corridor between two samples.  The
    positions that the reconstructor returns are [v * t] at every sample,
    and so increase strictly from one sample to the next. *)
Theorem constant_speed_is_unwrapped :
  forall (stream : list timestep) (name : string) (v step : Q) (n : nat),
    0 < v -> 0 < step -> v * step < total_length / 2 ->
    (0 < n)%nat ->
    records_of name stream = constant_speed_records name v step n ->
    exists data,
      dict_get name (Edies.parse_fcd_file stream) = Some data
      /\ length (time data) = n
      /\ length (pos data) = n
      /\ (forall k, (k < n)%nat ->
            nth k (time data) 0 = inject_Z (Z.of_nat k) * step
            /\ nth k (pos data) 0 == v * nth k (time data) 0)
      /\ (forall k, (S k < n)%nat ->
            nth k (pos data) 0 < nth (S k) (pos data) 0).
Proof.
  intros stream name v step n Hv Hdt Hslow Hn Hrs.
  assert (Hne : records_of name stream <> []).
  { rewrite Hrs. unfold constant_speed_records.
    destruct n; [lia | discriminate]. }
  destruct (edies_trajectory name stream Hne) as (data & Hget & Htime & Hpos).
  rewrite Hrs in Htime, Hpos.
  rewrite constant_speed_times in Htime.
  rewrite constant_speed_positions in Hpos.
  set (p := fun k => sample_position (constant_speed_sample name v step k))
    in *.
  destruct (stitch_laps (travelled v step) p (lap_of v step)
              (constant_speed_position name v step Hv Hdt)
              (lap_of_start v step)
              (lap_of_next v step Hv Hdt Hslow)
              (constant_speed_steps v step Hv Hdt Hslow) n)
    as [Hlen Hnth].
  destruct (unwrap_laps_restores (travelled v step) (lap_of v step)
              (lap_of_start v step)
              (lap_of_next v step Hv Hdt Hslow)
              (constant_speed_steps v step Hv Hdt Hslow)
              n _ Hlen Hnth)
    as [Hlen' Hnth'].
  rewrite <- Hpos in Hlen', Hnth'.
  assert (Ht : forall k, (k < n)%nat ->
                 nth k (time data) 0 = inject_Z (Z.of_nat k) * step).
  { intros k Hk. rewrite Htime.
    apply (nth_map_seq (fun k => inject_Z (Z.of_nat k) * step)). exact Hk. }
  exists data. split; [exact Hget |].
  split; [rewrite Htime, length_map, length_seq; reflexivity |].
  split; [exact Hlen' |]. split.
  - intros k Hk. split; [exact (Ht k Hk) |].
    pose proof (Ht k Hk) as Etk. rewrite Etk. exact (Hnth' k Hk).
  - intros k Hk.
    rewrite (Hnth' k ltac:(lia)), (Hnth' (S k) Hk), travelled_next.
    assert (0 < v * step) by nra. lra.
Qed.

(** The statement of C3 itself fails for a vehicle that advances by half a
    corridor or more between two samples: at 30 m/s and one sample every 20
    seconds the third sample, 1200 metres from the start, is returned at
    200. *)
Lemma fast_vehicle_is_not_unwrapped :
  ~ (forall (name : string) (v step : Q) (n : nat),
        0 < v -> 0 < step -> (0 < n)%nat ->
        exists data,
          dict_get name
            (Edies.parse_fcd_file (constant_speed_stream name v step n))
          = Some data
          /\ forall k, (k < n)%nat ->
               nth k (pos data) 0 == v * (inject_Z (Z.of_nat k) * step)).
Proof.
  intro H.
  destruct (H "veh0"%string 30 20 5%nat) as (data & Hget & Hpos);
    [reflexivity | reflexivity | lia |].
  vm_compute in Hget. injection Hget as <-.
  specialize (Hpos 2%nat ltac:(lia)). vm_compute in Hpos. discriminate.
Qed.

Lemma records_of_singletons name rs :
  Forall (fun r => veh_id (snd r) = name) rs ->
  records_of name (map (fun r => (fst r, [snd r])) rs) = rs.
Proof.
  unfold records_of. induction 1 as [| [t veh] rs Hid _ IH]; simpl;
    [reflexivity |].
  simpl in Hid. rewrite Hid, String.eqb_refl. simpl. f_equal. exact IH.
Qed.

Lemma records_of_constant_speed_stream name v step n :
  records_of name (constant_speed_stream name v step n)
  = constant_speed_records name v step n.
Proof.
  apply records_of_singletons. unfold constant_speed_records.
  apply Forall_map. apply Forall_forall. intros k _.
  unfold constant_speed_sample. simpl.
  destruct (Qlt_bool _ _); reflexivity.
Qed.

(** ** The statements at concrete inputs *)

Lemma crossing_needs_a_sample_in_the_cell_witness :
  aligned ending_inside
  /\ (2 <= length (window_times 10 0 10 ending_inside))%nat
  /\ vehicles_crossed
       (process_vehicle 10 1000 0 10 100 200 no_totals ending_inside)
     = 1%nat.
Proof.
  assert (H1 : aligned ending_inside) by (split; reflexivity).
  assert (H2 : (2 <= length (window_times 10 0 10 ending_inside))%nat)
    by (vm_compute; apply le_n).
  split; [exact H1 |]. split; [exact H2 |].
  destruct (crossing_needs_a_sample_in_the_cell
              10 1000 0 10 100 200 no_totals ending_inside H1 H2)
    as (_ & Hiff & _).
  apply Hiff. split.
  - right. left. vm_compute. reflexivity.
  - left. vm_compute. reflexivity.
Defined.

Lemma distance_needs_positive_time_witness :
  (aligned ending_inside
   /\ (2 <= length (window_times 10 0 10 ending_inside))%nat
   /\ Exists (fun p => in_cell 0 500 p = true)
             (window_positions 10 1000 0 10 ending_inside)
   /\ time_in_cell 10 1000 0 10 0 500 ending_inside == 10
   /\ distance_in_cell 10 1000 0 10 0 500 ending_inside == 100
   /\ total_distance
        (process_vehicle 10 1000 0 10 0 500 no_totals ending_inside)
      = total_distance no_totals
        + distance_in_cell 10 1000 0 10 0 500 ending_inside)
  /\ (aligned early_visit
      /\ (2 <= length (window_times 100 100 200 early_visit))%nat
      /\ Exists (fun p => in_cell 0 100 p = true)
                (window_positions 100 1000 100 200 early_visit)
      /\ time_in_cell 100 1000 100 200 0 100 early_visit == - (90)
      /\ distance_in_cell 100 1000 100 200 0 100 early_visit == 10
      /\ total_distance
           (process_vehicle 100 1000 100 200 0 100 no_totals early_visit)
         = total_distance no_totals).
Proof.
  split.
  - assert (H1 : aligned ending_inside) by (split; reflexivity).
    assert (H2 : (2 <= length (window_times 10 0 10 ending_inside))%nat)
      by (vm_compute; apply le_n).
    assert (H3 : Exists (fun p => in_cell 0 500 p = true)
                   (window_positions 10 1000 0 10 ending_inside))
      by (left; vm_compute; reflexivity).
    assert (H4 : time_in_cell 10 1000 0 10 0 500 ending_inside == 10)
      by (vm_compute; reflexivity).
    assert (H5 : distance_in_cell 10 1000 0 10 0 500 ending_inside == 100)
      by (vm_compute; reflexivity).
    repeat (split; [assumption |]).
    destruct (distance_needs_positive_time
                10 1000 0 10 0 500 no_totals ending_inside H1 H2 H3)
      as [Hadd _].
    apply Hadd; [rewrite H4 | rewrite H5]; reflexivity.
  - assert (H1 : aligned early_visit) by (split; reflexivity).
    assert (H2 : (2 <= length (window_times 100 100 200 early_visit))%nat)
      by (vm_compute; lia).
    assert (H3 : Exists (fun p => in_cell 0 100 p = true)
                   (window_positions 100 1000 100 200 early_visit))
      by (left; vm_compute; reflexivity).
    assert (H4 : time_in_cell 100 1000 100 200 0 100 early_visit == - (90))
      by (vm_compute; reflexivity).
    assert (H5 : distance_in_cell 100 1000 100 200 0 100 early_visit == 10)
      by (vm_compute; reflexivity).
    repeat (split; [assumption |]).
    destruct (distance_needs_positive_time
                100 1000 100 200 0 100 no_totals early_visit H1 H2 H3)
      as [_ Hkeep].
    apply Hkeep. intros [Ht _]. rewrite H4 in Ht. discriminate Ht.
Defined.

Lemma degenerate_grid_has_no_cell_witness :
  0 <= 1000
  /\ (10 <= 0 \/ -10 <= 0)
  /\ match fst (Edies.calculate_macroscopic_quantities 10 (-10) 1000
                  lone_sample) with
     | Raise _ => True
     | Ok (density, flow, speed, _, _) =>
         ~ 10 == 0 /\ ~ -10 == 0
         /\ Forall (fun row => row = []) density
         /\ Forall (fun row => row = []) flow
         /\ Forall (fun row => row = []) speed
     end.
Proof.
  assert (H1 : 0 <= 1000) by (vm_compute; discriminate).
  assert (H2 : 10 <= 0 \/ -10 <= 0) by (right; vm_compute; discriminate).
  split; [exact H1 |]. split; [exact H2 |].
  exact (degenerate_grid_has_no_cell lone_sample 10 (-10) 1000 H1 H2).
Defined.

Lemma empty_cell_convention_witness :
  fst (Edies.calculate_macroscopic_quantities 500 10 1000 one_vehicle)
  = Ok one_vehicle_outputs
  /\ entry_is (fst (fst (fst (fst one_vehicle_outputs)))) 0 1 0
  /\ entry_is (snd (fst (fst (fst one_vehicle_outputs)))) 0 1 0
  /\ entry_is (snd (fst (fst one_vehicle_outputs))) 0 1 0.
Proof.
  assert (H : fst (Edies.calculate_macroscopic_quantities 500 10 1000
                     one_vehicle)
              = Ok (fst (fst (fst (fst one_vehicle_outputs))),
                    snd (fst (fst (fst one_vehicle_outputs))),
                    snd (fst (fst one_vehicle_outputs)),
                    snd (fst one_vehicle_outputs),
                    snd one_vehicle_outputs))
    by (vm_compute; reflexivity).
  split; [exact H |].
  destruct (empty_cell_convention one_vehicle 500 10 1000 _ _ _ _ _ H)
    as (_ & t_bins & x_bins & Et & Ex & _ & _ & Hcells).
  vm_compute in Et. injection Et as <-.
  vm_compute in Ex. injection Ex as <-.
  destruct (Hcells 0%nat 1%nat (0, 10) (500, 1000) eq_refl eq_refl)
    as (d & f & s & Hd & Hf & Hs & Hzero & _).
  destruct Hzero as (Hd0 & Hf0 & Hs0).
  { intros e [<- | []]. vm_compute. repeat constructor. }
  unfold entry_is. eauto 10.
Defined.

Lemma constant_speed_is_unwrapped_witness :
  0 < 300 /\ 0 < 1 /\ 300 * 1 < total_length / 2 /\ (0 < 8)%nat
  /\ records_of "veh0" (constant_speed_stream "veh0" 300 1 8)
     = constant_speed_records "veh0" 300 1 8
  /\ exists data,
       dict_get "veh0"
         (Edies.parse_fcd_file (constant_speed_stream "veh0" 300 1 8))
       = Some data
       /\ length (time data) = 8%nat
       /\ length (pos data) = 8%nat
       /\ (forall k, (k < 8)%nat ->
             nth k (time data) 0 = inject_Z (Z.of_nat k) * 1
             /\ nth k (pos data) 0 == 300 * nth k (time data) 0)
       /\ (forall k, (S k < 8)%nat ->
             nth k (pos data) 0 < nth (S k) (pos data) 0).
Proof.
  assert (H1 : 0 < 300) by reflexivity.
  assert (H2 : 0 < 1) by reflexivity.
  assert (H3 : 300 * 1 < total_length / 2) by reflexivity.
  assert (H4 : (0 < 8)%nat) by (repeat constructor).
  assert (H5 : records_of "veh0" (constant_speed_stream "veh0" 300 1 8)
               = constant_speed_records "veh0" 300 1 8)
    by (vm_compute; reflexivity).
  repeat (split; [assumption |]).
  exact (constant_speed_is_unwrapped
           (constant_speed_stream "veh0" 300 1 8) "veh0" 300 1 8
           H1 H2 H3 H4 H5).
Defined.

Lemma connector_is_stitched_witness :
  records_of "veh0" connector_stream = on_main_circle ++ on_connector
  /\ on_connector <> []
  /\ Forall (fun r => veh_lane (snd r) <> "b_0"%string
                      /\ 0 <= raw_pos (snd r) <= main_circle_length)
            on_main_circle
  /\ Forall (fun r => veh_lane (snd r) = "b_0"%string
                      /\ 0 <= raw_pos (snd r)) on_connector
  /\ steady (map (fun r => raw_pos (snd r)) on_main_circle)
  /\ steady (map (fun r => raw_pos (snd r)) on_connector)
  /\ exists data,
       dict_get "veh0" (Edies.parse_fcd_file connector_stream) = Some data
       /\ time data = map fst on_main_circle ++ map fst on_connector
       /\ pos data
          = map (fun r => raw_pos (snd r)) on_main_circle
            ++ map (fun r => main_circle_length + raw_pos (snd r))
                   on_connector.
Proof.
  assert (H1 : records_of "veh0" connector_stream
               = on_main_circle ++ on_connector) by reflexivity.
  assert (H2 : on_connector <> []) by discriminate.
  assert (H3 : Forall (fun r => veh_lane (snd r) <> "b_0"%string
                                /\ 0 <= raw_pos (snd r) <= main_circle_length)
                 on_main_circle).
  { repeat constructor; simpl; try discriminate;
      vm_compute; discriminate. }
  assert (H4 : Forall (fun r => veh_lane (snd r) = "b_0"%string
                                /\ 0 <= raw_pos (snd r)) on_connector).
  { repeat constructor; vm_compute; discriminate. }
  assert (H5 : steady (map (fun r => raw_pos (snd r)) on_main_circle)).
  { simpl. split; [vm_compute; discriminate | exact I]. }
  assert (H6 : steady (map (fun r => raw_pos (snd r)) on_connector)).
  { simpl. split; [vm_compute; discriminate | exact I]. }
  repeat (split; [assumption |]).
  exact (connector_is_stitched connector_stream "veh0"
           on_main_circle on_connector H1 H2 H3 H4 H5 H6).
Defined.

Lemma recorded_speeds_are_irrelevant_witness :
  tables_same_but_speed one_vehicle one_vehicle_faster
  /\ fst (Edies.calculate_macroscopic_quantities 500 10 1000 one_vehicle)
     = fst (Edies.calculate_macroscopic_quantities 500 10 1000
              one_vehicle_faster)
  /\ fst (Mixed.calculate_macroscopic_quantities 500 10 1000
            (Some "regular"%string) one_vehicle)
     = fst (Mixed.calculate_macroscopic_quantities 500 10 1000
              (Some "regular"%string) one_vehicle_faster).
Proof.
  assert (H : tables_same_but_speed one_vehicle one_vehicle_faster).
  { repeat constructor. }
  split; [exact H |].
  exact (recorded_speeds_are_irrelevant one_vehicle one_vehicle_faster
           500 10 1000 (Some "regular"%string) H).
Defined.
(** * The table that [parse_fcd_file] returns *)

(** ** Keys *)

Lemma keys_dict_set_known (k : string) (v : trajectory) (d : table) :
  In k (keys d) -> keys (dict_set k v d) = keys d.
Proof.
  induction d as [| [k' v'] d IH]; simpl; [tauto |].
  intros [E | H].
  - subst k'. rewrite String.eqb_refl. reflexivity.
  - destruct (String.eqb k' k); simpl; [reflexivity |].
    f_equal. apply IH, H.
Qed.

Lemma keys_dict_set_new (k : string) (v : trajectory) (d : table) :
  ~ In k (keys d) -> keys (dict_set k v d) = keys d ++ [k].
Proof.
  induction d as [| [k' v'] d IH]; simpl; [reflexivity |].
  intros H. destruct (String.eqb_spec k' k) as [E | E].
  - exfalso. apply H. left. exact E.
  - simpl. f_equal. apply IH. intros H'. apply H. right. exact H'.
Qed.

Lemma keys_dict_set_In (k k' : string) (v : trajectory) (d : table) :
  In k' (keys (dict_set k v d)) <-> k' = k \/ In k' (keys d).
Proof.
  destruct (in_dec string_dec k (keys d)) as [H | H].
  - rewrite keys_dict_set_known by exact H.
    split; [tauto |]. intros [E | H']; [subst; exact H | exact H'].
  - rewrite keys_dict_set_new by exact H.
    rewrite in_app_iff. simpl. split.
    + intros [H' | [E | []]]; [right; exact H' | left; symmetry; exact E].
    + intros [E | H']; [right; left; symmetry; exact E | left; exact H'].
Qed.

Lemma NoDup_keys_dict_set (k : string) (v : trajectory) (d : table) :
  NoDup (keys d) -> NoDup (keys (dict_set k v d)).
Proof.
  intros H. destruct (in_dec string_dec k (keys d)) as [H' | H'].
  - rewrite keys_dict_set_known by exact H'. exact H.
  - rewrite keys_dict_set_new by exact H'.
    apply NoDup_rev in H. rewrite <- (rev_involutive (keys d ++ [k])).
    apply NoDup_rev. rewrite rev_app_distr. simpl.
    constructor; [| exact H]. rewrite <- in_rev. exact H'.
Qed.

Lemma dict_get_In (k : string) (v : trajectory) (d : table) :
  dict_get k d = Some v -> In (k, v) d.
Proof.
  induction d as [| [k' v'] d IH]; simpl; [discriminate |].
  destruct (String.eqb_spec k' k) as [E | E].
  - intros H. injection H as H. subst. left. reflexivity.
  - intros H. right. apply IH, H.
Qed.

Lemma In_dict_get (k : string) (v : trajectory) (d : table) :
  NoDup (keys d) -> In (k, v) d -> dict_get k d = Some v.
Proof.
  induction d as [| [k' v'] d IH]; simpl; [tauto |].
  intros N [E | H].
  - injection E as E1 E2. subst. rewrite String.eqb_refl. reflexivity.
  - inversion N as [| ? ? N1 N2]; subst.
    destruct (String.eqb_spec k' k) as [E | E].
    + subst k'. exfalso. apply N1.
      change k with (fst (k, v)). apply in_map, H.
    + apply IH; assumption.
Qed.

Lemma dict_get_keys (k : string) (d : table) :
  In k (keys d) <-> dict_get k d <> None.
Proof.
  induction d as [| [k' v'] d IH]; simpl; [tauto |].
  destruct (String.eqb_spec k' k) as [E | E].
  - split; [discriminate | intros _; left; exact E].
  - rewrite <- IH. split; [intros [H | H]; [contradiction | exact H] | tauto].
Qed.

Section AnyTag.

Variable tag : vehicle -> trajectory -> trajectory.

Lemma keys_record_sample (t : Q) (d : table) (veh : vehicle) (k : string) :
  In k (keys (Reconstructor.record_sample tag t d veh))
  <-> k = veh_id veh \/ In k (keys d).
Proof. unfold Reconstructor.record_sample. apply keys_dict_set_In. Qed.

Lemma NoDup_keys_timestep (t : Q) (vehs : list vehicle) (d : table) :
  NoDup (keys d) ->
  NoDup (keys (fold_left (Reconstructor.record_sample tag t) vehs d)).
Proof.
  revert d. induction vehs as [| veh vehs IH]; intros d H; simpl;
    [exact H |].
  apply IH. unfold Reconstructor.record_sample.
  apply NoDup_keys_dict_set, H.
Qed.

Lemma NoDup_keys_read_stream (stream : list timestep) :
  NoDup (keys (Reconstructor.read_stream tag stream)).
Proof.
  unfold Reconstructor.read_stream.
  assert (H : NoDup (keys ([] : table))) by constructor.
  revert H. generalize ([] : table).
  induction stream as [| step stream IH]; intros d H; simpl; [exact H |].
  apply IH, NoDup_keys_timestep, H.
Qed.

Lemma keys_parse (stream : list timestep) :
  keys (Reconstructor.parse_fcd_file tag stream)
  = keys (Reconstructor.read_stream tag stream).
Proof.
  unfold Reconstructor.parse_fcd_file, update_values, keys. simpl.
  rewrite map_map. reflexivity.
Qed.

Lemma dict_get_parse (k : string) (stream : list timestep) :
  dict_get k (Reconstructor.parse_fcd_file tag stream)
  = option_map finish (after tag None (records_of k stream)).
Proof.
  unfold Reconstructor.parse_fcd_file, update_values. simpl.
  rewrite dict_get_map_finish. f_equal.
  unfold Reconstructor.read_stream. rewrite stream_held. reflexivity.
Qed.

(** The entries of the table: one per vehicle with a sample, holding the
    finished track of the samples of that vehicle. *)
Lemma parse_entry (stream : list timestep) (k : string) (data : trajectory) :
  In (k, data) (Reconstructor.parse_fcd_file tag stream)
  <-> records_of k stream <> []
      /\ data = finish (track tag new_trajectory (records_of k stream)).
Proof.
  split.
  - intros H. apply In_dict_get in H.
    2:{ rewrite keys_parse. apply NoDup_keys_read_stream. }
    rewrite dict_get_parse in H.
    destruct (records_of k stream) as [| r rs] eqn:E; simpl in H;
      [discriminate |].
    injection H as H. split; [discriminate | symmetry; exact H].
  - intros [H E]. subst data. apply dict_get_In, parse_held, H.
Qed.

End AnyTag.

Lemma records_of_nonempty (k : string) (stream : list timestep) :
  records_of k stream <> []
  <-> exists step veh, In step stream /\ In veh (snd step) /\ veh_id veh = k.
Proof.
  unfold records_of. split.
  - intros H. destruct (flat_map _ stream) as [| r rs] eqn:E;
      [contradiction |].
    assert (H' : In r (flat_map
                  (fun step : timestep =>
                     map (fun veh => (fst step, veh))
                       (filter (fun veh => String.eqb (veh_id veh) k)
                               (snd step))) stream)).
    { rewrite E. left. reflexivity. }
    apply in_flat_map in H'. destruct H' as (step & H1 & H2).
    apply in_map_iff in H2. destruct H2 as (veh & _ & H2).
    apply filter_In in H2. destruct H2 as [H2 H3].
    exists step, veh. repeat split; try assumption.
    apply String.eqb_eq, H3.
  - intros (step & veh & H1 & H2 & H3) E.
    assert (H' : In (fst step, veh) (flat_map
                  (fun step : timestep =>
                     map (fun veh => (fst step, veh))
                       (filter (fun veh => String.eqb (veh_id veh) k)
                               (snd step))) stream)).
    { apply in_flat_map. exists step. split; [exact H1 |].
      apply in_map. apply filter_In. split; [exact H2 |].
      apply String.eqb_eq, H3. }
    rewrite E in H'. exact H'.
Qed.

(** ** The arrays of a vehicle *)

Lemma track_speed (tag : vehicle -> trajectory -> trajectory)
    (data : trajectory) (rs : list (Q * vehicle)) :
  (forall veh d, speed (tag veh d) = speed d) ->
  speed (track tag data rs)
  = speed data ++ map (fun r => veh_speed (snd r)) rs.
Proof.
  intros H. unfold track. revert data.
  induction rs as [| r rs IH]; intros data; simpl.
  - rewrite app_nil_r. reflexivity.
  - rewrite IH. simpl. rewrite H, <- app_assoc. reflexivity.
Qed.

Lemma track_lane (tag : vehicle -> trajectory -> trajectory)
    (data : trajectory) (rs : list (Q * vehicle)) :
  (forall veh d, lane (tag veh d) = lane d) ->
  lane (track tag data rs)
  = lane data ++ map (fun r => veh_lane (snd r)) rs.
Proof.
  intros H. unfold track. revert data.
  induction rs as [| r rs IH]; intros data; simpl.
  - rewrite app_nil_r. reflexivity.
  - rewrite IH. simpl. rewrite H, <- app_assoc. reflexivity.
Qed.

Lemma length_stitch (ps stored : list Q) :
  length (stitch stored ps) = (length stored + length ps)%nat.
Proof.
  unfold stitch. revert stored.
  induction ps as [| p ps IH]; intros stored; simpl; [lia |].
  rewrite IH, length_app. simpl. lia.
Qed.

Lemma length_unwrap_laps (ps : list Q) :
  length (unwrap_laps ps) = length ps.
Proof.
  unfold unwrap_laps. generalize (seq 1 (length ps - 1)). intros l.
  revert ps. induction l as [| i l IH]; intros ps; simpl; [reflexivity |].
  rewrite IH. apply length_lap_step.
Qed.

Lemma edies_tag_keeps_arrays :
  keeps_arrays (fun _ data => data).
Proof. intros veh d. repeat split. Qed.

Lemma mixed_tag_keeps_arrays :
  keeps_arrays
    (fun veh data =>
       match type data with
       | Some _ => data
       | None =>
           {| time := time data; pos := pos data; speed := speed data;
              lane := lane data;
              type := Some (if contains "regular" (veh_type veh)
                            then "regular" else "stable")%string |}
       end).
Proof. intros veh d. destruct (type d); repeat split. Qed.

Lemma recorded_arrays (tag : vehicle -> trajectory -> trajectory)
    (stream : list timestep) :
  keeps_arrays tag ->
  Forall
    (fun e =>
       let rs := records_of (fst e) stream in
       time (snd e) = map fst rs
       /\ speed (snd e) = map (fun r => veh_speed (snd r)) rs
       /\ lane (snd e) = map (fun r => veh_lane (snd r)) rs
       /\ pos (snd e) = unwrap_laps (stitch [] (map sample_position rs))
       /\ well_formed (snd e))
    (Reconstructor.parse_fcd_file tag stream).
Proof.
  intros K. apply Forall_forall. intros [k data] H.
  apply parse_entry in H. destruct H as [_ H]. subst data. cbn [fst snd].
  set (rs := records_of k stream).
  assert (Ht : time (finish (track tag new_trajectory rs)) = map fst rs).
  { simpl. rewrite track_time by (intros; apply K). reflexivity. }
  assert (Hs : speed (finish (track tag new_trajectory rs))
               = map (fun r => veh_speed (snd r)) rs).
  { simpl. rewrite track_speed by (intros; apply K). reflexivity. }
  assert (Hl : lane (finish (track tag new_trajectory rs))
               = map (fun r => veh_lane (snd r)) rs).
  { simpl. rewrite track_lane by (intros; apply K). reflexivity. }
  assert (Hp : pos (finish (track tag new_trajectory rs))
               = unwrap_laps (stitch [] (map sample_position rs))).
  { simpl. rewrite track_pos by (intros; apply K). reflexivity. }
  repeat split; try assumption.
  - rewrite Hp, Ht, length_unwrap_laps, length_stitch, !length_map.
    reflexivity.
  - rewrite Hs, Ht, !length_map. reflexivity.
  - rewrite Hl, Ht, !length_map. reflexivity.
Qed.

Lemma keys_of_parse (tag : vehicle -> trajectory -> trajectory)
    (stream : list timestep) (k : string) :
  In k (keys (Reconstructor.parse_fcd_file tag stream))
  <-> appears k stream.
Proof.
  rewrite dict_get_keys, dict_get_parse. unfold appears.
  rewrite <- records_of_nonempty.
  destruct (records_of k stream); simpl; split; intros H; congruence.
Qed.

(** X1. The table returned by [parse_fcd_file] in either script has exactly
    one entry for each vehicle id that occurs in the stream, and none for
    any other id. *)
Theorem one_entry_per_vehicle (stream : list timestep) :
  (NoDup (keys (Edies.parse_fcd_file stream))
   /\ forall k, In k (keys (Edies.parse_fcd_file stream))
                <-> appears k stream)
  /\ (NoDup (keys (Mixed.parse_fcd_file stream))
      /\ forall k, In k (keys (Mixed.parse_fcd_file stream))
                   <-> appears k stream).
Proof.
  unfold Edies.parse_fcd_file, Mixed.parse_fcd_file.
  split; (split;
    [rewrite keys_parse; apply NoDup_keys_read_stream
    | intros k; apply keys_of_parse]).
Qed.

(** X2. In the table of either script the times, speeds and lanes of a
    vehicle are those of its samples in stream order, unchanged, and the
    four arrays of a vehicle have one entry per sample. *)
Theorem samples_are_recorded_in_order (stream : list timestep) :
  Forall (recorded stream) (Edies.parse_fcd_file stream)
  /\ Forall (recorded stream) (Mixed.parse_fcd_file stream).
Proof.
  unfold recorded.
  split;
    [pose proof (recorded_arrays _ stream edies_tag_keeps_arrays) as H
    | pose proof (recorded_arrays _ stream mixed_tag_keeps_arrays) as H];
    (eapply Forall_impl; [| exact H]);
    cbv zeta; intros e (Ht & Hs & Hl & Hp & Hw);
    (repeat split; try assumption; try apply Hw);
    rewrite Hp, length_unwrap_laps, length_stitch, length_map; reflexivity.
Qed.

(** ** The two scripts on one stream *)

Lemma keys_dict_set_same (k : string) (v v' : trajectory) (d d' : table) :
  keys d = keys d' -> keys (dict_set k v d) = keys (dict_set k v' d').
Proof.
  intros E. destruct (in_dec string_dec k (keys d)) as [H | H].
  - rewrite !keys_dict_set_known by (rewrite <- ?E; exact H). exact E.
  - rewrite !keys_dict_set_new by (rewrite <- ?E; exact H).
    rewrite E. reflexivity.
Qed.

Lemma keys_read_stream_any_tag (tag tag' : vehicle -> trajectory -> trajectory)
    (stream : list timestep) :
  keys (Reconstructor.read_stream tag stream)
  = keys (Reconstructor.read_stream tag' stream).
Proof.
  unfold Reconstructor.read_stream.
  enough (H : forall d d' : table,
             keys d = keys d' ->
             keys (fold_left
                     (fun trajectories (step : timestep) =>
                        fold_left (Reconstructor.record_sample tag (fst step))
                                  (snd step) trajectories) stream d)
             = keys (fold_left
                       (fun trajectories (step : timestep) =>
                          fold_left
                            (Reconstructor.record_sample tag' (fst step))
                            (snd step) trajectories) stream d'))
    by (apply H; reflexivity).
  induction stream as [| step stream IH]; intros d d' H; simpl; [exact H |].
  apply IH. clear IH. revert d d' H.
  induction (snd step) as [| veh vehs IH]; intros d d' H; simpl; [exact H |].
  apply IH. unfold Reconstructor.record_sample.
  apply keys_dict_set_same, H.
Qed.

Lemma track_type_edies (data : trajectory) (rs : list (Q * vehicle)) :
  type (track (fun _ d => d) data rs) = type data.
Proof.
  unfold track. revert data.
  induction rs as [| r rs IH]; intros data; simpl; [reflexivity |].
  rewrite IH. reflexivity.
Qed.

Lemma track_type_mixed (data : trajectory) (rs : list (Q * vehicle)) :
  type
    (track
       (fun veh data =>
          match type data with
          | Some _ => data
          | None =>
              {| time := time data; pos := pos data; speed := speed data;
                 lane := lane data;
                 type := Some (if contains "regular" (veh_type veh)
                               then "regular" else "stable")%string |}
          end) data rs)
  = match type data with
    | Some t => Some t
    | None => option_map (fun r => vehicle_class (snd r)) (hd_error rs)
    end.
Proof.
  unfold track. revert data.
  induction rs as [| r rs IH]; intros data; simpl.
  - destruct (type data); reflexivity.
  - rewrite IH. unfold append_sample. cbn [type].
    destruct (type data) eqn:E; cbn [type]; rewrite ?E; reflexivity.
Qed.

(** X3. On one stream the tables of the two scripts list the same vehicles
    in the same order with the same times, positions, speeds and lanes; the
    entry of [edies_analysis.py] has no type, that of
    [mixed_edies_analysis.py] has the type derived from the first sample of
    the vehicle, ['regular'] or ['stable'], whatever later samples say. *)
Theorem mixed_table_is_edies_table_with_types (stream : list timestep) :
  keys (Mixed.parse_fcd_file stream) = keys (Edies.parse_fcd_file stream)
  /\ forall k,
       match dict_get k (Edies.parse_fcd_file stream),
             dict_get k (Mixed.parse_fcd_file stream) with
       | Some d, Some d' =>
           time d' = time d /\ pos d' = pos d /\ speed d' = speed d
           /\ lane d' = lane d /\ type d = None
           /\ type d'
              = option_map (fun r => vehicle_class (snd r))
                           (hd_error (records_of k stream))
           /\ (type d' = Some "regular"%string
               \/ type d' = Some "stable"%string)
       | None, None => True
       | _, _ => False
       end.
Proof.
  split.
  - unfold Edies.parse_fcd_file, Mixed.parse_fcd_file.
    rewrite !keys_parse. apply keys_read_stream_any_tag.
  - intros k. unfold Edies.parse_fcd_file, Mixed.parse_fcd_file.
    rewrite !dict_get_parse.
    destruct (records_of k stream) as [| r rs] eqn:E; [exact I |].
    cbn [after option_map start_of].
    split; [| split; [| split; [| split; [| split; [| split]]]]].
    + simpl. rewrite !track_time by (intros; apply mixed_tag_keeps_arrays
                                     || reflexivity).
      reflexivity.
    + simpl. rewrite !track_pos by (intros; apply mixed_tag_keeps_arrays
                                    || reflexivity).
      reflexivity.
    + simpl speed. rewrite !track_speed
        by (intros; apply mixed_tag_keeps_arrays || reflexivity).
      reflexivity.
    + simpl lane. rewrite !track_lane
        by (intros; apply mixed_tag_keeps_arrays || reflexivity).
      reflexivity.
    + cbn [finish type]. apply track_type_edies.
    + cbn [finish type]. rewrite track_type_mixed. reflexivity.
    + cbn [finish type]. rewrite track_type_mixed. simpl.
      unfold vehicle_class. destruct (contains _ _); [left | right];
        reflexivity.
Qed.

(** ** The laps added by [unwrap_laps] *)

Lemma lap_count_step (ps : list Q) (i : nat) :
  (nth (S i) ps 0 < nth i ps 0 - total_length / 2
   /\ lap_count ps (S i) = S (lap_count ps i))
  \/ (nth i ps 0 - total_length / 2 <= nth (S i) ps 0
      /\ lap_count ps (S i) = lap_count ps i).
Proof.
  cbn [lap_count].
  destruct (Qlt_bool (nth (S i) ps 0) (nth i ps 0 - total_length / 2)) eqn:E.
  - left. split; [apply Qlt_bool_iff, E | reflexivity].
  - right. split; [apply Qlt_bool_false, E | reflexivity].
Qed.

Lemma laps_added_step (ps : list Q) (i : nat) (l : list Q) :
  (1 <= i < length ps)%nat ->
  laps_added_before ps i l ->
  laps_added_before ps (S i) (lap_step l i).
Proof.
  intros Hi [Hlen H]. split; [rewrite length_lap_step; exact Hlen |].
  destruct i as [| i]; [lia |].
  pose proof (H (S i) ltac:(lia)) as Hcur.
  pose proof (H i ltac:(lia)) as Hprev.
  replace (Nat.min (S i) (S i - 1)) with i in Hcur by lia.
  replace (Nat.min i (S i - 1)) with i in Hprev by lia.
  intros j Hj. pose proof (H j Hj) as Hjl.
  replace (S (S i) - 1)%nat with (S i) by lia.
  pose proof half_corridor as Hh.
  destruct (lap_step_cases l (S i)) as [[Hc E] | [Hc E]]; rewrite E;
    replace (S i - 1)%nat with i in Hc by lia;
    destruct (lap_count_step ps i) as [[Hd Ec] | [Hd Ec]];
    try (exfalso; rewrite Hcur, Hprev in Hc; lra).
  - rewrite nth_add_from by lia.
    destruct (j <? S i)%nat eqn:Ej.
    + apply Nat.ltb_lt in Ej.
      replace (Nat.min j (S i)) with j by lia.
      replace (Nat.min j (S i - 1)) with j in Hjl by lia. exact Hjl.
    + apply Nat.ltb_ge in Ej.
      replace (Nat.min j (S i)) with (S i) by lia.
      replace (Nat.min j (S i - 1)) with i in Hjl by lia.
      rewrite Hjl, Ec, inject_nat_S. ring.
  - destruct (Nat.lt_ge_cases j (S i)) as [Ej | Ej].
    + replace (Nat.min j (S i)) with j by lia.
      replace (Nat.min j (S i - 1)) with j in Hjl by lia. exact Hjl.
    + replace (Nat.min j (S i)) with (S i) by lia.
      replace (Nat.min j (S i - 1)) with i in Hjl by lia.
      rewrite Hjl, Ec. reflexivity.
Qed.

Lemma unwrap_laps_by_count (positions : list Q) (j : nat) :
  (j < length positions)%nat ->
  nth j (unwrap_laps positions) 0
  == nth j positions 0
     + inject_Z (Z.of_nat (lap_count positions j)) * total_length.
Proof.
  intros Hj. unfold unwrap_laps.
  pose proof (fold_seq_invariant (laps_added_before positions) lap_step
                (length positions - 1) 1 positions) as H.
  destruct H as [_ H].
  - split; [reflexivity |]. intros i Hi.
    replace (Nat.min i (1 - 1)) with O by lia. simpl. ring.
  - intros i l Hi. apply laps_added_step. lia.
  - rewrite (H j Hj).
    replace (Nat.min j (1 + (length positions - 1) - 1)) with j by lia.
    reflexivity.
Qed.

(** X4. The loop of [parse_fcd_file] over the positions of a vehicle keeps
    the number of positions and adds to the position of index [j] one
    corridor length for every index up to [j] whose input position lies
    more than half a corridor behind the input position before it; the
    first position is unchanged. *)
Theorem unwrap_laps_adds_whole_laps (positions : list Q) (j : nat) :
  (j < length positions)%nat ->
  length (unwrap_laps positions) = length positions
  /\ nth 0 (unwrap_laps positions) 0 == nth 0 positions 0
  /\ nth j (unwrap_laps positions) 0
     == nth j positions 0
        + inject_Z (Z.of_nat (lap_count positions j)) * total_length.
Proof.
  intros Hj. split; [apply length_unwrap_laps |]. split.
  - rewrite unwrap_laps_by_count by lia. simpl. ring.
  - apply unwrap_laps_by_count, Hj.
Qed.

(** ** The connector on every lap *)

Lemma forward_from_nth (ps : list Q) (prev : Q) (k : nat) :
  forward_from prev ps ->
  (S k < length (prev :: ps))%nat ->
  forward_step (nth k (prev :: ps) 0) (nth (S k) (prev :: ps) 0).
Proof.
  revert prev k. induction ps as [| p ps IH]; intros prev k H Hk;
    simpl in Hk; [lia |].
  destruct H as [H1 H2]. destruct k as [| k]; [exact H1 |].
  apply (IH p k H2). simpl. lia.
Qed.

Lemma forward_nth (ps : list Q) (k : nat) :
  forward ps -> (S k < length ps)%nat ->
  forward_step (nth k ps 0) (nth (S k) ps 0).
Proof.
  destruct ps as [| p ps]; simpl; [lia |].
  intros H Hk. apply (forward_from_nth ps p k H). simpl. lia.
Qed.

(** Under forward steps the positions returned are the corridor positions
    plus one corridor length for each end of the corridor passed. *)
Lemma forward_positions (cs : list Q) (j : nat) :
  forward cs -> (j < length cs)%nat ->
  length (unwrap_laps (stitch [] cs)) = length cs
  /\ nth j (unwrap_laps (stitch [] cs)) 0
     == nth j cs 0 + inject_Z (Z.of_nat (lap_count cs j)) * total_length.
Proof.
  intros Hf Hj. set (n := length cs).
  set (m := fun k => lap_count cs (Nat.min k (n - 1))).
  set (p := fun k => nth (Nat.min k (n - 1)) cs 0).
  set (x := fun k => p k + laps_done m k * total_length).
  assert (Hp : forall k, p k == x k - laps_done m k * total_length)
    by (intros k; unfold x; ring).
  assert (Hm0 : m O = O) by reflexivity.
  assert (Hcases : forall k,
             (S k <= n - 1)%nat
             /\ Nat.min k (n - 1) = k /\ Nat.min (S k) (n - 1) = S k
             \/ Nat.min (S k) (n - 1) = Nat.min k (n - 1)) by (intros k; lia).
  assert (Hm : forall k, m (S k) = m k \/ m (S k) = S (m k)).
  { intros k. unfold m.
    destruct (Hcases k) as [(_ & E1 & E2) | E]; [| left; rewrite E;
                                                    reflexivity].
    rewrite E1, E2.
    destruct (lap_count_step cs k) as [[_ E] | [_ E]]; rewrite E;
      [right | left]; reflexivity. }
  assert (Hstep : forall k,
             0 <= x (S k) - x k /\ x (S k) - x k < total_length / 2).
  { intros k. unfold x, p, m, laps_done. pose proof half_corridor as Hh.
    destruct (Hcases k) as [(Hk & E1 & E2) | E].
    - rewrite E1, E2.
      pose proof (forward_nth cs k Hf ltac:(unfold n in Hk; lia)) as Hs.
      destruct (lap_count_step cs k) as [[Hd E] | [Hd E]]; rewrite E;
        destruct Hs as [[Hs1 Hs2] | [Hs1 Hs2]];
        rewrite ?inject_nat_S; unfold total_length, Qdiv in *; lra.
    - rewrite E. split; lra. }
  assert (Ecs : map p (seq 0 n) = cs).
  { apply (nth_ext _ _ 0 0).
    - rewrite length_map, length_seq. reflexivity.
    - intros k Hk. rewrite length_map, length_seq in Hk.
      rewrite nth_map_seq by exact Hk. unfold p.
      replace (Nat.min k (n - 1)) with k by lia. reflexivity. }
  destruct (stitch_laps x p m Hp Hm0 Hm Hstep n) as [Hlen Hst].
  rewrite Ecs in Hlen, Hst.
  destruct (unwrap_laps_restores x m Hm0 Hm Hstep n (stitch [] cs) Hlen Hst)
    as [Hlen' Hun].
  split; [exact Hlen' |].
  rewrite (Hun j Hj). unfold x, p, m, laps_done.
  replace (Nat.min j (n - 1)) with j by (unfold n; lia). reflexivity.
Qed.

(** C8, as the scripts behave.  Take a vehicle whose samples move forward
    along the corridor by less than half its length from one sample to the
    next, over any number of laps.  The position returned for a sample on
    the connector [b_0] is [main_circle_length + raw position] plus one
    corridor length for every lap completed before it, none on the first
    lap; on another lane it is the raw position plus the same laps.
    Passing from the main circle to the connector completes no lap: the
    positions on both sides differ by what the stitched raw positions
    differ. *)
Theorem connector_is_stitched_on_every_lap :
  forall (stream : list timestep) (k : string),
    let rs := records_of k stream in
    let cs := map sample_position rs in
    rs <> [] ->
    forward cs ->
    exists data,
      dict_get k (Edies.parse_fcd_file stream) = Some data
      /\ time data = map fst rs
      /\ length (pos data) = length rs
      /\ forall j r,
           nth_error rs j = Some r ->
           let laps := inject_Z (Z.of_nat (lap_count cs j)) in
           (veh_lane (snd r) = "b_0"%string ->
            nth j (pos data) 0
            == main_circle_length + raw_pos (snd r) + laps * total_length)
           /\ (veh_lane (snd r) <> "b_0"%string ->
               nth j (pos data) 0 == raw_pos (snd r) + laps * total_length)
           /\ forall r',
                nth_error rs (S j) = Some r' ->
                veh_lane (snd r) <> "b_0"%string ->
                veh_lane (snd r') = "b_0"%string ->
                raw_pos (snd r) <= main_circle_length ->
                0 <= raw_pos (snd r') ->
                lap_count cs (S j) = lap_count cs j
                /\ nth (S j) (pos data) 0 - nth j (pos data) 0
                   == main_circle_length + raw_pos (snd r')
                      - raw_pos (snd r).
Proof.
  intros stream k rs cs Hne Hf.
  destruct (edies_trajectory k stream Hne) as (data & Hget & Htime & Hpos).
  fold rs in Htime, Hpos. fold cs in Hpos.
  exists data. split; [exact Hget |]. split; [exact Htime |].
  assert (Hlen : length cs = length rs) by (unfold cs; apply length_map).
  assert (Hat : forall j r, nth_error rs j = Some r ->
                  (j < length cs)%nat /\ nth j cs 0 = sample_position r).
  { intros j r Hr. split.
    - rewrite Hlen. apply nth_error_Some. congruence.
    - unfold cs. apply nth_error_nth. rewrite nth_error_map, Hr.
      reflexivity. }
  assert (Hpos' : forall j, (j < length cs)%nat ->
                    nth j (pos data) 0
                    == nth j cs 0
                       + inject_Z (Z.of_nat (lap_count cs j)) * total_length).
  { intros j Hj. rewrite Hpos. apply (forward_positions cs j Hf Hj). }
  split.
  { rewrite Hpos, <- Hlen.
    destruct cs as [| c cs'] eqn:E; [destruct rs; [congruence | discriminate] |].
    apply (forward_positions (c :: cs') 0 Hf). simpl. lia. }
  intros j r Hr laps. destruct (Hat j r Hr) as [Hj Ec].
  pose proof (Hpos' j Hj) as Hp. rewrite Ec in Hp. fold laps in Hp.
  split; [| split].
  - intros Hl. rewrite Hp. unfold sample_position, lane_position.
    rewrite Hl. reflexivity.
  - intros Hl. rewrite Hp. unfold sample_position, lane_position.
    apply String.eqb_neq in Hl. rewrite Hl. reflexivity.
  - intros r' Hr' Hl Hl' Hraw Hraw'.
    destruct (Hat (S j) r' Hr') as [Hj' Ec'].
    pose proof (Hpos' (S j) Hj') as Hp'. rewrite Ec' in Hp'.
    assert (E1 : sample_position r = raw_pos (snd r)).
    { unfold sample_position, lane_position.
      apply String.eqb_neq in Hl. rewrite Hl. reflexivity. }
    assert (E2 : sample_position r' = main_circle_length + raw_pos (snd r')).
    { unfold sample_position, lane_position. rewrite Hl'. reflexivity. }
    assert (Ecount : lap_count cs (S j) = lap_count cs j).
    { destruct (lap_count_step cs j) as [[Hd _] | [_ E]]; [| exact E].
      rewrite Ec, Ec', E1, E2 in Hd. pose proof half_corridor. lra. }
    split; [exact Ecount |].
    rewrite Hp', Hp, Ecount, E1, E2. unfold laps. ring.
Qed.

(** The statement of C8 itself fails from the second lap on: the vehicle
    of [two_laps_stream] moves forward by less than half a corridor per
    sample, and its second sample on the connector, at raw position 8.47,
    is returned at [main_circle_length + 8.47 + 1000]. *)
Lemma connector_position_gains_the_laps :
  ~ (forall (stream : list timestep) (k : string) (data : trajectory)
            (j : nat) (r : Q * vehicle),
        forward (map sample_position (records_of k stream)) ->
        dict_get k (Edies.parse_fcd_file stream) = Some data ->
        nth_error (records_of k stream) j = Some r ->
        veh_lane (snd r) = "b_0"%string ->
        nth j (pos data) 0 == main_circle_length + raw_pos (snd r)).
Proof.
  intro H.
  assert (Hf : forward (map sample_position
                          (records_of "veh0"%string two_laps_stream))).
  { change (records_of "veh0"%string two_laps_stream) with two_laps.
    simpl. unfold forward_step.
    repeat split;
      first [ left; split; vm_compute; (reflexivity || discriminate)
            | right; split; vm_compute; (reflexivity || discriminate) ]. }
  destruct (dict_get "veh0"%string (Edies.parse_fcd_file two_laps_stream))
    as [data |] eqn:E; [| vm_compute in E; discriminate].
  specialize (H two_laps_stream "veh0"%string data 5%nat
                (5, on_lane "b_0"%string (847 # 100)) Hf E eq_refl eq_refl).
  vm_compute in E. injection E as <-.
  vm_compute in H. discriminate.
Qed.

(** ** Positions and corridor positions *)

Lemma wrap_once_adds (stored : list Q) (p : Q) :
  wrap_once stored p = p \/ wrap_once stored p = p + total_length.
Proof.
  unfold wrap_once. destruct stored; [left; reflexivity |].
  destruct (Qlt_bool _ _); [right | left]; reflexivity.
Qed.

Lemma stitch_adds (ps stored : list Q) :
  exists qs,
    stitch stored ps = stored ++ qs
    /\ Forall2 (fun q p => q = p \/ q = p + total_length) qs ps.
Proof.
  unfold stitch. revert stored.
  induction ps as [| p ps IH]; intros stored; simpl.
  - exists []. split; [rewrite app_nil_r; reflexivity | constructor].
  - destruct (IH (stored ++ [wrap_once stored p])) as (qs & E & H).
    exists (wrap_once stored p :: qs). split.
    + rewrite E, <- app_assoc. reflexivity.
    + constructor; [apply wrap_once_adds | exact H].
Qed.

Lemma Forall2_nth_both {A B} (R : A -> B -> Prop) (a : list A) (b : list B)
    (da : A) (db : B) :
  Forall2 R a b ->
  forall j, (j < length a)%nat -> R (nth j a da) (nth j b db).
Proof.
  induction 1 as [| x y a b Hxy H IH]; intros j Hj; simpl in *; [lia |].
  destruct j; [exact Hxy | apply IH; lia].
Qed.

Lemma Forall2_by_nth {A B} (R : A -> B -> Prop) (da : A) (db : B)
    (a : list A) (b : list B) :
  length a = length b ->
  (forall j, (j < length a)%nat -> R (nth j a da) (nth j b db)) ->
  Forall2 R a b.
Proof.
  revert b. induction a as [| x a IH]; intros [| y b] E H; simpl in *;
    try discriminate; constructor.
  - apply (H O). lia.
  - apply IH; [lia |]. intros j Hj. apply (H (S j)). lia.
Qed.

Lemma Forall2_unmap_r {A B C} (R : A -> C -> Prop) (g : B -> C)
    (a : list A) (b : list B) :
  Forall2 R a (map g b) -> Forall2 (fun x y => R x (g y)) a b.
Proof.
  revert a. induction b as [| y b IH]; intros a H; inversion H; subst;
    constructor; auto.
Qed.

(** The stored position of each sample is its position on the corridor
    plus a whole number of corridor lengths. *)
Lemma positions_by_laps (ps : list Q) :
  Forall2
    (fun q p =>
       exists n : nat, q == p + inject_Z (Z.of_nat n) * total_length)
    (unwrap_laps (stitch [] ps)) ps.
Proof.
  destruct (stitch_adds ps []) as (qs & E & H). simpl in E.
  pose proof (Forall2_length H) as Hlen.
  apply (Forall2_by_nth _ 0 0).
  - rewrite length_unwrap_laps, E. exact Hlen.
  - intros j Hj. rewrite length_unwrap_laps in Hj.
    pose proof (unwrap_laps_by_count _ j Hj) as Hu.
    rewrite E in *.
    destruct (Forall2_nth_both _ _ _ 0 0 H j Hj) as [E' | E'].
    + exists (lap_count qs j). rewrite Hu, E'. reflexivity.
    + exists (S (lap_count qs j)). rewrite Hu, E', inject_nat_S. ring.
Qed.

Lemma Qfloor_unique (y : Q) (f : Z) :
  inject_Z f <= y -> y < inject_Z (f + 1) -> Qfloor y = f.
Proof.
  intros H1 H2.
  pose proof (Qfloor_le y) as H3. pose proof (Qlt_floor y) as H4.
  assert (H5 : inject_Z f < inject_Z (Qfloor y + 1))
    by (eapply Qle_lt_trans; eassumption).
  assert (H6 : inject_Z (Qfloor y) < inject_Z (f + 1))
    by (eapply Qle_lt_trans; eassumption).
  rewrite <- Zlt_Qlt in H5, H6. lia.
Qed.

Lemma Qfloor_add_Z (y : Q) (n : Z) :
  Qfloor (y + inject_Z n) = (Qfloor y + n)%Z.
Proof.
  pose proof (Qfloor_le y) as H3. pose proof (Qlt_floor y) as H4.
  apply Qfloor_unique.
  - rewrite inject_Z_plus. lra.
  - rewrite !inject_Z_plus in *. lra.
Qed.

Lemma corridor_position_laps (x : Q) (n : Z) :
  corridor_position (x + inject_Z n * total_length) == corridor_position x.
Proof.
  unfold corridor_position.
  assert (E : (x + inject_Z n * total_length) / total_length
              == x / total_length + inject_Z n).
  { unfold total_length. field. }
  rewrite (Qfloor_comp _ _ E), Qfloor_add_Z, inject_Z_plus. ring.
Qed.

Lemma corridor_position_comp (x y : Q) :
  x == y -> corridor_position x == corridor_position y.
Proof.
  intros E. unfold corridor_position.
  assert (E' : x / total_length == y / total_length) by (rewrite E; reflexivity).
  rewrite (Qfloor_comp _ _ E'), E. reflexivity.
Qed.

Lemma corridor_position_range (x : Q) :
  0 <= corridor_position x < total_length.
Proof.
  unfold corridor_position.
  pose proof (Qfloor_le (x / total_length)) as H1.
  pose proof (Qlt_floor (x / total_length)) as H2.
  rewrite inject_Z_plus in H2.
  set (f := inject_Z (Qfloor (x / total_length))) in *. clearbody f.
  assert (E : x == x / total_length * total_length)
    by (unfold total_length; field).
  set (y := x / total_length) in *. clearbody y.
  unfold total_length in *. split.
  - rewrite E at 1. lra.
  - rewrite E at 1. change (inject_Z 1) with 1 in H2. lra.
Qed.

Lemma corridor_position_inside (x : Q) :
  0 <= x < total_length -> corridor_position x == x.
Proof.
  intros [H1 H2]. unfold corridor_position.
  assert (E : Qfloor (x / total_length) = 0%Z).
  { apply Qfloor_unique.
    - apply Qle_shift_div_l; [reflexivity |].
      change (inject_Z 0) with 0. lra.
    - apply Qlt_shift_div_r; [reflexivity |].
      change (inject_Z (0 + 1)) with 1. lra. }
  rewrite E. simpl. ring.
Qed.

Lemma np_mod_corridor (p : Q) :
  np_mod p total_length = Fin (corridor_position p).
Proof. reflexivity. Qed.

Lemma rewrapped_positions (tag : vehicle -> trajectory -> trajectory)
    (stream : list timestep) :
  keeps_arrays tag ->
  Forall
    (fun e => Forall2 rewrapped (pos (snd e)) (records_of (fst e) stream))
    (Reconstructor.parse_fcd_file tag stream).
Proof.
  intros K. pose proof (recorded_arrays tag stream K) as H.
  eapply Forall_impl; [| exact H]. cbv zeta.
  intros e (_ & _ & _ & Hp & _). rewrite Hp.
  pose proof (positions_by_laps
                (map sample_position (records_of (fst e) stream))) as H'.
  apply Forall2_unmap_r in H'.
  eapply Forall2_impl; [| exact H'].
  intros p r [n E]. exists (corridor_position p).
  split; [apply np_mod_corridor |].
  split; [apply corridor_position_range |].
  assert (E' : corridor_position p == corridor_position (sample_position r)).
  { rewrite (corridor_position_comp _ _ E). apply corridor_position_laps. }
  split; [exact E' |].
  intros Hr. rewrite E'. apply corridor_position_inside, Hr.
Qed.

(** X5. For every sample of every vehicle, the position that
    [calculate_macroscopic_quantities] wraps with [% total_length] (for a
    corridor of 1000 m) comes back into [0, 1000) as the position of the
    sample on the corridor: the lane position reduced modulo the corridor
    length, and the lane position itself when that lies on the corridor.
    What the two loops of [parse_fcd_file] add is a whole number of
    corridor lengths. *)
Theorem wrapping_undoes_the_laps (stream : list timestep) :
  Forall
    (fun e => Forall2 rewrapped (pos (snd e)) (records_of (fst e) stream))
    (Edies.parse_fcd_file stream)
  /\ Forall
       (fun e => Forall2 rewrapped (pos (snd e)) (records_of (fst e) stream))
       (Mixed.parse_fcd_file stream).
Proof.
  split.
  - apply rewrapped_positions, edies_tag_keeps_arrays.
  - apply rewrapped_positions, mixed_tag_keeps_arrays.
Qed.

(** * The runs of the two scripts *)

(** ** The vehicle filter of the mixed script *)





Lemma filter_all {A} (l : list A) : filter (fun _ => true) l = l.
Proof. induction l; simpl; congruence. Qed.

(** A run of either script, once the time range is taken. *)
Lemma edies_by_range (dx dt L : Q) (T : table) :
  fst (Edies.calculate_macroscopic_quantities dx dt L T)
  = rbind (time_range (fun _ => true) T) (fun r =>
      aggregate_value (fun _ => true) dx dt L (fst r) (snd r) T).
Proof.
  rewrite edies_value. unfold time_range. rewrite filter_all.
  destruct (map time (map snd T)) as [| a l] eqn:E; [reflexivity |].
  cbn [np_concatenate rbind].
  destruct (np_min _); [| reflexivity]. cbn [rbind].
  destruct (np_max _); reflexivity.
Qed.

Lemma mixed_by_range (dx dt L : Q) (veh_type : option string) (T : table) :
  fst (Mixed.calculate_macroscopic_quantities dx dt L veh_type T)
  = rbind (time_range (Mixed.of_type veh_type) T) (fun r =>
      aggregate_value (Mixed.of_type veh_type) dx dt L (fst r) (snd r) T).
Proof.
  rewrite mixed_value. unfold time_range. cbv zeta.
  destruct (np_min _); [| reflexivity]. cbn [rbind].
  destruct (np_max _); reflexivity.
Qed.





(** ** The grid of a run that returns *)

Lemma run_grid (dx dt L : Q) (veh_type : option string) (T : table)
    (out : outputs) :
  fst (Edies.calculate_macroscopic_quantities dx dt L T) = Ok out
  \/ fst (Mixed.calculate_macroscopic_quantities dx dt L veh_type T) = Ok out ->
  exists keep t_min t_max t_bins x_bins,
    time_range keep T = Ok (t_min, t_max)
    /\ np_arange 0 (L + dx) dx = Ok x_bins
    /\ np_arange t_min (t_max + dt) dt = Ok t_bins
    /\ out = grid_outputs keep dx dt L t_bins x_bins T.
Proof.
  intros [H | H];
    [rewrite edies_by_range in H; exists (fun _ => true)
    | rewrite mixed_by_range in H; exists (Mixed.of_type veh_type)];
    (destruct (time_range _ T) as [[t_min t_max] |]; [| discriminate]);
    cbn [rbind fst snd] in H;
    apply aggregate_value_inv in H;
    destruct H as (t_bins & x_bins & Hx & Ht & E);
    exists t_min, t_max, t_bins, x_bins; repeat split; assumption.
Qed.

Lemma length_windows (bins : list Q) :
  length (windows bins) = (length bins - 1)%nat.
Proof.
  unfold windows. rewrite length_combine.
  destruct bins; cbn [tl length]; lia.
Qed.

Lemma length_removelast_bins (bins : list Q) :
  length (removelast bins) = (length bins - 1)%nat.
Proof.
  induction bins as [| a [| b l] IH]; simpl in *; lia.
Qed.

Lemma grid_totals_shape (keep : trajectory -> bool) (dt L : Q)
    (t_bins x_bins : list Q) (T : table) :
  length (grid_totals keep dt L t_bins x_bins T) = (length t_bins - 1)%nat
  /\ Forall (fun row => length row = (length x_bins - 1)%nat)
            (grid_totals keep dt L t_bins x_bins T).
Proof.
  unfold grid_totals. split.
  - rewrite length_map. apply length_windows.
  - apply Forall_forall. intros row H. apply in_map_iff in H.
    destruct H as (tw & E & _). subst row.
    rewrite length_map. apply length_windows.
Qed.

Lemma scaled_shape {A} (c : Q) (f : A -> Q) (grid : list (list A))
    (n m : nat) :
  length grid = n -> Forall (fun row => length row = m) grid ->
  length (scale c (map (map f) grid)) = n
  /\ Forall (fun row => length row = m) (scale c (map (map f) grid)).
Proof.
  intros Hn Hm. unfold scale. split.
  - rewrite !length_map. exact Hn.
  - rewrite map_map. apply Forall_map.
    eapply Forall_impl; [| exact Hm]. intros row E.
    rewrite !length_map. exact E.
Qed.

(** X7. When a run of either script returns, the three arrays have one row
    per time bin start and one column per space bin start that it returns
    with them. *)
Theorem outputs_have_the_shape_of_the_grid (dx dt L : Q)
    (veh_type : option string) (T : table)
    (density flow speed : list (list Q)) (t_starts x_starts : list Q) :
  fst (Edies.calculate_macroscopic_quantities dx dt L T)
    = Ok (density, flow, speed, t_starts, x_starts)
  \/ fst (Mixed.calculate_macroscopic_quantities dx dt L veh_type T)
     = Ok (density, flow, speed, t_starts, x_starts) ->
  (length density = length t_starts
   /\ Forall (fun row => length row = length x_starts) density)
  /\ (length flow = length t_starts
      /\ Forall (fun row => length row = length x_starts) flow)
  /\ (length speed = length t_starts
      /\ Forall (fun row => length row = length x_starts) speed).
Proof.
  intros H. apply run_grid in H.
  destruct H as (keep & t_min & t_max & t_bins & x_bins & _ & _ & _ & E).
  unfold grid_outputs in E. injection E as -> -> -> -> ->.
  rewrite !length_removelast_bins.
  destruct (grid_totals_shape keep dt L t_bins x_bins T) as [Hn Hm].
  split; [| split]; apply scaled_shape; assumption.
Qed.

(** ** The counters of a cell *)

Lemma py_max_ge_l (a b : Q) : a <= py_max a b.
Proof. apply (py_max_lub a b (py_max a b)). apply Qle_refl. Qed.

Lemma py_min_le_l (a b : Q) : py_min a b <= a.
Proof. apply (py_min_glb a b (py_min a b)). apply Qle_refl. Qed.

Lemma inject_nat_nonneg (n : nat) : 0 <= inject_Z (Z.of_nat n).
Proof. change 0 with (inject_Z 0). rewrite <- Zle_Qle. lia. Qed.

Lemma inject_nat_le (n m : nat) :
  (n <= m)%nat -> inject_Z (Z.of_nat n) <= inject_Z (Z.of_nat m).
Proof. intros H. rewrite <- Zle_Qle. lia. Qed.

Section CellBounds.

Variables dt L t0 t1 x0 x1 : Q.

Lemma time_in_cell_le (data : trajectory) :
  time_in_cell dt L t0 t1 x0 x1 data <= t1 - t0.
Proof.
  unfold time_in_cell.
  pose proof (py_min_le_l t1 (last (cell_times dt L t0 t1 x0 x1 data) 0)).
  pose proof (py_max_ge_l t0 (hd 0 (cell_times dt L t0 t1 x0 x1 data))).
  lra.
Qed.

Lemma distance_in_cell_le (data : trajectory) :
  distance_in_cell dt L t0 t1 x0 x1 data <= x1 - x0.
Proof.
  unfold distance_in_cell. cbv zeta.
  pose proof (py_min_le_l x1
                (last (cell_positions dt L t0 t1 x0 x1 data) 0)).
  pose proof (py_max_ge_l x0
                (hd 0 (cell_positions dt L t0 t1 x0 x1 data))).
  lra.
Qed.

Lemma process_vehicle_within (n : nat) (acc : totals) (data : trajectory) :
  within t0 t1 x0 x1 n acc ->
  within t0 t1 x0 x1 (S n) (process_vehicle dt L t0 t1 x0 x1 acc data).
Proof.
  intros (H1 & H2 & H3 & H4 & H5).
  pose proof (time_in_cell_le data) as Ht.
  pose proof (distance_in_cell_le data) as Hd.
  assert (Et : inject_Z (Z.of_nat (S n)) * (t1 - t0)
               == inject_Z (Z.of_nat n) * (t1 - t0) + (t1 - t0))
    by (rewrite inject_nat_S; ring).
  assert (Ex : inject_Z (Z.of_nat (S n)) * (x1 - x0)
               == inject_Z (Z.of_nat n) * (x1 - x0) + (x1 - x0))
    by (rewrite inject_nat_S; ring).
  unfold process_vehicle, within.
  destruct (negb (np_any _));
    [| destruct (1 <? _)%nat;
       [destruct (0 <? _)%nat;
        [destruct (Qlt_bool 0 (time_in_cell dt L t0 t1 x0 x1 data)) eqn:E1;
         [destruct (Qlt_bool 0 (distance_in_cell dt L t0 t1 x0 x1 data))
            eqn:E2 |];
         destruct (negb (forallb isnan _)) | ] | ]];
    cbn [total_time_spent total_distance vehicles_crossed
         add_time add_distance add_crossing];
    try (apply Qlt_bool_iff in E1); try (apply Qlt_bool_iff in E2);
    (split; [| split; [| split; [| split]]]);
    try lia; try lra;
    intros Hle; try (specialize (H3 Hle)); try (specialize (H4 Hle));
    lra.
Qed.

Lemma cell_totals_from (keep : trajectory -> bool) (items : table)
    (n : nat) (acc : totals) :
  within t0 t1 x0 x1 n acc ->
  within t0 t1 x0 x1 (n + length items)
    (fold_left
       (fun acc item =>
          if keep (snd item)
          then process_vehicle dt L t0 t1 x0 x1 acc (snd item) else acc)
       items acc).
Proof.
  revert n acc. induction items as [| item items IH]; intros n acc H; simpl.
  - rewrite Nat.add_0_r. exact H.
  - replace (n + S (length items))%nat with (S n + length items)%nat by lia.
    apply IH. destruct (keep (snd item)).
    + apply process_vehicle_within, H.
    + apply (process_vehicle_within n acc new_trajectory) in H.
      exact H.
Qed.

Lemma cell_totals_within (keep : trajectory -> bool) (T : table) :
  within t0 t1 x0 x1 (length T) (cell_totals dt L t0 t1 x0 x1 keep T).
Proof.
  unfold cell_totals. apply (cell_totals_from keep T 0 no_totals).
  unfold within, no_totals.
  cbn [total_time_spent total_distance vehicles_crossed].
  change (inject_Z (Z.of_nat 0)) with 0.
  split; [| split; [| split; [| split]]]; try lra; try lia; intros _; lra.
Qed.

End CellBounds.

(** ** The windows of a grid *)

Lemma windows_map_seq (f : nat -> Q) (n a : nat) :
  windows (map f (seq a n)) = map (fun i => (f i, f (S i))) (seq a (n - 1)).
Proof.
  revert a. induction n as [| m IH]; intros a; [reflexivity |].
  destruct m as [| m']; [reflexivity |].
  specialize (IH (S a)).
  replace (S (S m') - 1)%nat with (S m') by lia.
  replace (S m' - 1)%nat with m' in IH by lia.
  change (windows (map f (seq a (S (S m')))))
    with ((f a, f (S a)) :: windows (map f (seq (S a) (S m')))).
  rewrite IH. reflexivity.
Qed.

Lemma np_arange_values (start stop step : Q) (bins : list Q) :
  np_arange start stop step = Ok bins ->
  ~ step == 0
  /\ bins = map (fun i => start + inject_Z (Z.of_nat i) * step)
                (seq 0 (Z.to_nat (Qceiling ((stop - start) / step)))).
Proof.
  unfold np_arange. destruct (Qeq_bool step 0) eqn:E; [discriminate |].
  intros H. injection H as H. split; [| symmetry; exact H].
  apply Qeq_bool_neq, E.
Qed.

Lemma np_arange_windows (start stop step : Q) (bins : list Q)
    (w : Q * Q) :
  np_arange start stop step = Ok bins ->
  In w (windows bins) ->
  exists i : nat,
    (S i < length bins)%nat
    /\ fst w = start + inject_Z (Z.of_nat i) * step
    /\ snd w = start + inject_Z (Z.of_nat (S i)) * step.
Proof.
  intros H Hw. apply np_arange_values in H. destruct H as [_ H].
  rewrite H in Hw. rewrite windows_map_seq in Hw.
  apply in_map_iff in Hw. destruct Hw as (i & E & Hi).
  apply in_seq in Hi. exists i. subst w. split; [| split; reflexivity].
  rewrite H, length_map, length_seq. lia.
Qed.

Lemma window_width (start stop step : Q) (bins : list Q) (w : Q * Q) :
  np_arange start stop step = Ok bins ->
  In w (windows bins) -> snd w == fst w + step.
Proof.
  intros H Hw. destruct (np_arange_windows _ _ _ _ _ H Hw) as (i & _ & E1 & E2).
  rewrite E1, E2, inject_nat_S. ring.
Qed.

Lemma time_range_ordered (keep : trajectory -> bool) (T : table)
    (t_min t_max : Q) :
  time_range keep T = Ok (t_min, t_max) -> t_min <= t_max.
Proof.
  unfold time_range. cbv zeta.
  destruct (np_min _) as [a |] eqn:E1; [| discriminate].
  destruct (np_max _) as [b |] eqn:E2; [| discriminate].
  cbn [rbind]. intros H. injection H as -> ->.
  eapply np_min_le_np_max; eassumption.
Qed.

Lemma no_time_window_backwards (dt t_min t_max : Q) (t_bins : list Q) :
  dt < 0 -> t_min <= t_max ->
  np_arange t_min (t_max + dt) dt = Ok t_bins -> windows t_bins = [].
Proof.
  intros Hdt Hle H. apply windows_short.
  apply (np_arange_descending t_min (t_max + dt) dt); [exact Hdt | lra | exact H].
Qed.

(** ** The values of a cell *)

Lemma Qdiv_nonneg (a b : Q) : 0 <= a -> 0 < b -> 0 <= a / b.
Proof.
  intros Ha Hb. apply Qle_shift_div_l; [exact Hb | lra].
Qed.

Lemma Qdiv_mult_cancel (a b : Q) : ~ b == 0 -> a / b * b == a.
Proof. intros H. field. exact H. Qed.

Lemma cell_values_bounded (dx dt t0 t1 x0 x1 : Q) (n : nat) (acc : totals) :
  0 < dt -> t1 == t0 + dt ->
  within t0 t1 x0 x1 n acc ->
  bounded_values dx dt n
    (cell_density dx dt acc * 1000, cell_flow dt acc * 3600,
     cell_speed acc * (36 # 10)).
Proof.
  intros Hdt Ew (H1 & H2 & H3 & _ & H5).
  assert (H3' : total_time_spent acc <= inject_Z (Z.of_nat n) * dt).
  { assert (Hle : t0 <= t1) by lra. specialize (H3 Hle).
    assert (E : inject_Z (Z.of_nat n) * (t1 - t0)
                == inject_Z (Z.of_nat n) * dt) by (rewrite Ew; ring).
    rewrite <- E. exact H3. }
  pose proof (inject_nat_nonneg n) as HN.
  pose proof (inject_nat_le _ _ H5) as HC.
  pose proof (inject_nat_nonneg (vehicles_crossed acc)) as HC0.
  unfold bounded_values. cbn [fst snd].
  unfold cell_density, cell_flow, cell_speed.
  assert (Hf : Qlt_bool 0 dt = true) by (apply Qlt_bool_iff, Hdt).
  rewrite Hf. clear H3.
  set (N := inject_Z (Z.of_nat n)) in *. clearbody N.
  set (c := inject_Z (Z.of_nat (vehicles_crossed acc))) in *. clearbody c.
  set (s := total_time_spent acc) in *. clearbody s.
  set (d := total_distance acc) in *. clearbody d.
  split; [| split; [| split; [| split]]].
  - destruct (Qlt_bool 0 (dx * dt)) eqn:E; [| lra].
    apply Qlt_bool_iff in E.
    pose proof (Qdiv_nonneg s (dx * dt) H1 E). lra.
  - destruct (Qlt_bool 0 (dx * dt)) eqn:E; [| lra].
    apply Qlt_bool_iff in E.
    assert (Ek : s / (dx * dt) * (dx * dt) == s)
      by (apply Qdiv_mult_cancel; lra).
    set (k := s / (dx * dt)) in *. clearbody k. nra.
  - pose proof (Qdiv_nonneg c dt HC0 Hdt). lra.
  - assert (Ek : c / dt * dt == c) by (apply Qdiv_mult_cancel; lra).
    set (k := c / dt) in *. clearbody k. nra.
  - destruct (Qlt_bool 0 s) eqn:E; [| lra].
    apply Qlt_bool_iff in E.
    pose proof (Qdiv_nonneg d s H2 E). lra.
Qed.

Lemma grid_totals_Forall (P : totals -> Prop) (keep : trajectory -> bool)
    (dt L : Q) (t_bins x_bins : list Q) (T : table) :
  (forall tw xw,
      In tw (windows t_bins) -> In xw (windows x_bins) ->
      P (cell_totals dt L (fst tw) (snd tw) (fst xw) (snd xw) keep T)) ->
  Forall (Forall P) (grid_totals keep dt L t_bins x_bins T).
Proof.
  intros H. unfold grid_totals. apply Forall_map, Forall_forall.
  intros tw Htw. apply Forall_map, Forall_forall. intros xw Hxw.
  apply H; assumption.
Qed.

Lemma scaled_Forall {A} (P : Q -> Prop) (P' : A -> Prop) (c : Q)
    (f : A -> Q) (grid : list (list A)) :
  Forall (Forall P') grid ->
  (forall a, P' a -> P (f a * c)) ->
  Forall (Forall P) (scale c (map (map f) grid)).
Proof.
  intros H Hf. unfold scale. rewrite map_map. apply Forall_map.
  eapply Forall_impl; [| exact H]. intros row Hrow.
  rewrite map_map. apply Forall_map.
  eapply Forall_impl; [| exact Hrow]. intros a Ha. apply Hf, Ha.
Qed.

Lemma grid_values_bounded (keep : trajectory -> bool)
    (dx dt L t_min t_max : Q) (t_bins x_bins : list Q) (T : table) :
  t_min <= t_max ->
  np_arange t_min (t_max + dt) dt = Ok t_bins ->
  Forall
    (Forall
       (fun acc =>
          bounded_values dx dt (length T)
            (cell_density dx dt acc * 1000, cell_flow dt acc * 3600,
             cell_speed acc * (36 # 10))))
    (grid_totals keep dt L t_bins x_bins T).
Proof.
  intros Hle Ht.
  destruct (Qlt_le_dec 0 dt) as [Hdt | Hdt].
  - apply grid_totals_Forall. intros tw xw Htw _.
    apply (cell_values_bounded dx dt (fst tw) (snd tw) (fst xw) (snd xw)).
    + exact Hdt.
    + apply (window_width _ _ _ _ _ Ht Htw).
    + apply cell_totals_within.
  - destruct (np_arange_values _ _ _ _ Ht) as [Hne _].
    assert (Hneg : dt < 0).
    { apply Qle_lteq in Hdt. destruct Hdt as [H | H]; [exact H |].
      contradiction. }
    unfold grid_totals.
    rewrite (no_time_window_backwards dt t_min t_max t_bins Hneg Hle Ht).
    constructor.
Qed.

(** X8. When a run of either script returns, no entry of the three arrays
    is negative, every density [d], in veh/km, satisfies
    [d * dx <= 1000 * n] and every flow [f], in veh/hr, satisfies
    [f * dt <= 3600 * n], where [n] is the number of vehicles of the table:
    a cell holds at most all the vehicles for all of its time window, and
    counts each vehicle at most once. *)
Theorem outputs_are_bounded (dx dt L : Q) (veh_type : option string)
    (T : table) (density flow speed : list (list Q))
    (t_starts x_starts : list Q) :
  fst (Edies.calculate_macroscopic_quantities dx dt L T)
    = Ok (density, flow, speed, t_starts, x_starts)
  \/ fst (Mixed.calculate_macroscopic_quantities dx dt L veh_type T)
     = Ok (density, flow, speed, t_starts, x_starts) ->
  let n := inject_Z (Z.of_nat (length T)) in
  Forall (Forall (fun d => 0 <= d /\ d * dx <= 1000 * n)) density
  /\ Forall (Forall (fun f => 0 <= f /\ f * dt <= 3600 * n)) flow
  /\ Forall (Forall (fun v => 0 <= v)) speed.
Proof.
  intros H n. apply run_grid in H.
  destruct H as (keep & t_min & t_max & t_bins & x_bins & Hr & _ & Ht & E).
  unfold grid_outputs in E. injection E as -> -> -> _ _.
  pose proof (grid_values_bounded keep dx dt L t_min t_max t_bins x_bins T
                (time_range_ordered _ _ _ _ Hr) Ht) as H.
  split; [| split];
    (eapply scaled_Forall; [exact H |]);
    unfold bounded_values; cbn [fst snd]; intros acc Ha; tauto.
Qed.

(** ** The number of bins *)

Lemma Qceiling_add_1 (y : Q) : Qceiling (y + 1) = (Qceiling y + 1)%Z.
Proof.
  unfold Qceiling.
  assert (E : - (y + 1) == - y + inject_Z (-1)) by (simpl; ring).
  rewrite (Qfloor_comp _ _ E), Qfloor_add_Z. lia.
Qed.

Lemma Qceiling_nonneg (y : Q) : 0 <= y -> (0 <= Qceiling y)%Z.
Proof.
  intros H. pose proof (Qle_ceiling y) as H'.
  assert (H2 : inject_Z 0 <= inject_Z (Qceiling y))
    by (change (inject_Z 0) with 0; lra).
  rewrite <- Zle_Qle in H2. exact H2.
Qed.

Lemma removelast_map_seq {A} (f : nat -> A) (n : nat) :
  removelast (map f (seq 0 n)) = map f (seq 0 (n - 1)).
Proof.
  destruct n as [| m]; [reflexivity |].
  replace (S m - 1)%nat with m by lia.
  rewrite seq_S, map_app. simpl. apply removelast_last.
Qed.

(** The edges of [np.arange(start, stop + step, step)] for a positive step
    and [start <= stop]: one more than [ceil((stop - start) / step)]. *)
Lemma np_arange_edges (start stop step : Q) :
  0 < step -> start <= stop ->
  let n := Z.to_nat (Qceiling ((stop - start) / step)) in
  np_arange start (stop + step) step
  = Ok (map (fun i => start + inject_Z (Z.of_nat i) * step) (seq 0 (S n))).
Proof.
  intros Hs Hle n. unfold np_arange.
  destruct (Qeq_bool step 0) eqn:E.
  { apply Qeq_bool_iff in E. lra. }
  assert (E' : (stop + step - start) / step == (stop - start) / step + 1)
    by (field; lra).
  rewrite (Qceiling_comp _ _ E'), Qceiling_add_1.
  assert (H : (0 <= Qceiling ((stop - start) / step))%Z).
  { apply Qceiling_nonneg, Qdiv_nonneg; lra. }
  replace (Z.to_nat (Qceiling ((stop - start) / step) + 1)) with (S n)
    by (unfold n; lia).
  reflexivity.
Qed.

Lemma aggregate_value_returns (keep : trajectory -> bool)
    (dx dt L t_min t_max : Q) (T : table) :
  0 < dx -> 0 < dt -> 0 <= L -> t_min <= t_max ->
  exists density flow speed,
    aggregate_value keep dx dt L t_min t_max T
    = Ok (density, flow, speed,
          map (fun i => t_min + inject_Z (Z.of_nat i) * dt)
              (seq 0 (Z.to_nat (Qceiling ((t_max - t_min) / dt)))),
          map (fun j => 0 + inject_Z (Z.of_nat j) * dx)
              (seq 0 (Z.to_nat (Qceiling (L / dx))))).
Proof.
  intros Hdx Hdt HL Hle. unfold aggregate_value.
  rewrite (np_arange_edges 0 L dx Hdx HL).
  rewrite (np_arange_edges t_min t_max dt Hdt Hle).
  cbv zeta. cbn [rbind].
  assert (E : Qceiling ((L - 0) / dx) = Qceiling (L / dx)).
  { apply Qceiling_comp. unfold Qminus. rewrite Qplus_0_r. reflexivity. }
  rewrite E.
  set (nx := Z.to_nat (Qceiling (L / dx))).
  set (nt := Z.to_nat (Qceiling ((t_max - t_min) / dt))).
  unfold np_zeros. rewrite !length_map, !length_seq.
  destruct ((Z.of_nat (S nt) - 1 <? 0)%Z || (Z.of_nat (S nx) - 1 <? 0)%Z)
    eqn:E0.
  { apply orb_true_iff in E0. destruct E0 as [E0 | E0];
      apply Z.ltb_lt in E0; lia. }
  cbn [rbind]. unfold grid_outputs. cbv zeta.
  rewrite !removelast_map_seq.
  replace (S nt - 1)%nat with nt by lia.
  replace (S nx - 1)%nat with nx by lia.
  do 3 eexists. reflexivity.
Qed.

Lemma time_range_of_a_sample (keep : trajectory -> bool) (T : table) :
  Exists (fun e => keep (snd e) = true /\ time (snd e) <> []) T ->
  exists t_min t_max, time_range keep T = Ok (t_min, t_max).
Proof.
  intros H. unfold time_range. cbv zeta.
  assert (Hne : List.concat (map time (filter keep (map snd T))) <> []).
  { induction H as [e T [Hk Ht] | e T _ IH]; simpl.
    - rewrite Hk. simpl. destruct (time (snd e)); [congruence | discriminate].
    - destruct (keep (snd e)); [| exact IH]. simpl.
      intros E. apply app_eq_nil in E. apply IH, E. }
  destruct (List.concat _) as [| a l]; [congruence |].
  cbn [np_min np_max rbind]. eauto.
Qed.

(** X9. With positive steps, a corridor length that is not negative and a
    table of arrays of one length per vehicle, a run of
    [edies_analysis.py] returns as soon as one vehicle has a sample, and a
    run of [mixed_edies_analysis.py], on a table in which every vehicle has
    a type or without a type asked for, as soon as one vehicle that it
    considers has a sample: no exception is raised on such inputs. *)
Theorem valid_inputs_return (dx dt L : Q) (veh_type : option string)
    (T : table) :
  0 < dx -> 0 < dt -> 0 <= L ->
  Forall (fun e => aligned (snd e)) T ->
  (Exists (fun e => time (snd e) <> []) T ->
   exists out,
     fst (Edies.calculate_macroscopic_quantities dx dt L T) = Ok out)
  /\ (veh_type = None \/ typed T ->
      Exists (fun e => Mixed.of_type veh_type (snd e) = true
                       /\ time (snd e) <> []) T ->
      exists out,
        fst (Mixed.calculate_macroscopic_quantities dx dt L veh_type T)
        = Ok out).
Proof.
  intros Hdx Hdt HL _. split.
  - intros H.
    destruct (time_range_of_a_sample (fun _ => true) T) as (a & b & Hr).
    { eapply Exists_impl; [| exact H]. intros e He. split;
        [reflexivity | exact He]. }
    rewrite edies_by_range, Hr. cbn [rbind fst snd].
    destruct (aggregate_value_returns (fun _ => true) dx dt L a b T Hdx Hdt HL
                (time_range_ordered _ _ _ _ Hr)) as (d & f & s & E).
    eexists. exact E.
  - intros _ H.
    destruct (time_range_of_a_sample _ T H) as (a & b & Hr).
    rewrite mixed_by_range, Hr. cbn [rbind fst snd].
    destruct (aggregate_value_returns (Mixed.of_type veh_type) dx dt L a b T
                Hdx Hdt HL (time_range_ordered _ _ _ _ Hr))
      as (d & f & s & E).
    eexists. exact E.
Qed.

(** ** Every point of the grid lies in one bin *)

Lemma nth_error_map_seq {A} (g : nat -> A) (n j : nat) :
  nth_error (map g (seq 0 n)) j = if (j <? n)%nat then Some (g j) else None.
Proof.
  destruct (j <? n)%nat eqn:E.
  - apply Nat.ltb_lt in E. rewrite nth_error_map, nth_error_seq.
    apply Nat.ltb_lt in E. rewrite E. reflexivity.
  - apply Nat.ltb_ge in E. apply nth_error_None.
    rewrite length_map, length_seq. exact E.
Qed.

Lemma inject_to_nat (z : Z) :
  (0 <= z)%Z -> inject_Z (Z.of_nat (Z.to_nat z)) = inject_Z z.
Proof. intros H. rewrite Z2Nat.id by exact H. reflexivity. Qed.

Lemma np_arange_bin (start stop step q : Q) (bins : list Q) :
  0 < step ->
  np_arange start (stop + step) step = Ok bins ->
  start <= q < stop ->
  let j := Z.to_nat (Qfloor ((q - start) / step)) in
  (exists w, nth_error (windows bins) j = Some w /\ fst w <= q < snd w)
  /\ forall j' w',
       nth_error (windows bins) j' = Some w' ->
       fst w' <= q < snd w' -> j' = j.
Proof.
  intros Hs Ha [Hq1 Hq2] j.
  set (n := Z.to_nat (Qceiling ((stop - start) / step))).
  assert (Hb : bins
               = map (fun i => start + inject_Z (Z.of_nat i) * step)
                     (seq 0 (S n))).
  { pose proof (np_arange_edges start stop step Hs ltac:(lra)) as He.
    cbv zeta in He. fold n in He. congruence. }
  clear Ha. subst bins. rewrite windows_map_seq.
  replace (S n - 1)%nat with n by lia.
  set (y := (q - start) / step) in *.
  assert (Ey : y * step == q - start) by (unfold y; field; lra).
  assert (Hy : 0 <= y) by (unfold y; apply Qdiv_nonneg; lra).
  pose proof (Qfloor_le y) as F1. pose proof (Qlt_floor y) as F2.
  rewrite inject_Z_plus in F2. change (inject_Z 1) with 1 in F2.
  assert (F0 : (0 <= Qfloor y)%Z).
  { assert (H : inject_Z 0 < inject_Z (Qfloor y + 1)).
    { rewrite inject_Z_plus. change (inject_Z 0) with 0.
      change (inject_Z 1) with 1. lra. }
    rewrite <- Zlt_Qlt in H. lia. }
  assert (Hj : (j < n)%nat).
  { set (z := (stop - start) / step).
    assert (Ez : z * step == stop - start) by (unfold z; field; lra).
    pose proof (Qle_ceiling z) as C1.
    assert (H : inject_Z (Qfloor y) < inject_Z (Qceiling z)).
    { apply Qle_lt_trans with y; [exact F1 |].
      apply Qlt_le_trans with z; [| exact C1].
      clearbody y z. nra. }
    rewrite <- Zlt_Qlt in H. unfold j, n. fold z. lia. }
  assert (Ej : inject_Z (Z.of_nat j) = inject_Z (Qfloor y))
    by (apply inject_to_nat, F0).
  split.
  - eexists. rewrite nth_error_map_seq.
    apply Nat.ltb_lt in Hj. rewrite Hj. split; [reflexivity |].
    cbn [fst snd]. rewrite inject_nat_S, Ej.
    apply (Qmult_le_r _ _ step Hs) in F1.
    apply (Qmult_lt_r _ _ step Hs) in F2. split; lra.
  - intros j' w' H' [H1 H2]. rewrite nth_error_map_seq in H'.
    destruct (j' <? n)%nat; [| discriminate]. injection H' as H'.
    subst w'. cbv beta in H1, H2. cbn [fst snd] in H1, H2.
    assert (H2' : q < start + (inject_Z (Z.of_nat j') + 1) * step)
      by (rewrite <- inject_nat_S; exact H2).
    assert (E : Qfloor y = Z.of_nat j').
    { apply Qfloor_unique.
      - apply (Qmult_le_r _ _ step Hs). lra.
      - rewrite inject_Z_plus. change (inject_Z 1) with 1.
        apply (Qmult_lt_r _ _ step Hs). lra. }
    unfold j. rewrite E. lia.
Qed.

Lemma np_mod_range (p L : Q) :
  0 < L -> exists q, np_mod p L = Fin q /\ 0 <= q < L.
Proof.
  intros HL. unfold np_mod.
  destruct (Qeq_bool L 0) eqn:E.
  { apply Qeq_bool_iff in E. lra. }
  eexists. split; [reflexivity |].
  pose proof (Qfloor_le (p / L)) as H1.
  pose proof (Qlt_floor (p / L)) as H2.
  rewrite inject_Z_plus in H2. change (inject_Z 1) with 1 in H2.
  set (f := inject_Z (Qfloor (p / L))) in *. clearbody f.
  assert (Ey : p / L * L == p) by (field; lra).
  set (y := p / L) in *. clearbody y. split; nra.
Qed.

Lemma in_cell_finite (x0 x1 q : Q) :
  in_cell x0 x1 (Fin q) = true <-> x0 <= q < x1.
Proof.
  unfold in_cell. cbn [np_le np_lt].
  rewrite andb_true_iff, Qle_bool_iff, Qlt_bool_iff. reflexivity.
Qed.

(** X10. With a positive space step and a positive corridor length, every
    position, once wrapped with [% total_length], lies in exactly one
    space bin of the grid of a run: no sample falls between two bins or
    beyond the last one. *)
Theorem every_position_has_one_space_bin (dx L p : Q) (x_bins : list Q) :
  0 < dx -> 0 < L ->
  x_edges dx L = Ok x_bins ->
  exists j,
    (exists xw, nth_error (windows x_bins) j = Some xw
                /\ in_cell (fst xw) (snd xw) (np_mod p L) = true)
    /\ forall j' xw',
         nth_error (windows x_bins) j' = Some xw' ->
         in_cell (fst xw') (snd xw') (np_mod p L) = true -> j' = j.
Proof.
  intros Hdx HL Hx. unfold x_edges in Hx.
  destruct (np_mod_range p L HL) as (q & E & Hq). rewrite E.
  destruct (np_arange_bin 0 L dx q x_bins Hdx Hx Hq) as [(w & Hw & Hin) Hu].
  exists (Z.to_nat (Qfloor ((q - 0) / dx))). split.
  - exists w. split; [exact Hw | apply in_cell_finite, Hin].
  - intros j' xw' H1 H2. apply (Hu j' xw' H1). apply in_cell_finite, H2.
Qed.

(** ** The time range and the time bins *)

Lemma fold_py_min_lower (tl : list Q) (a x : Q) :
  In x (a :: tl) -> fold_left py_min tl a <= x.
Proof.
  revert a. induction tl as [| b tl IH]; intros a H; simpl in *.
  - destruct H as [E | []]. subst. apply Qle_refl.
  - pose proof (fold_py_min_le tl (py_min a b)) as H1.
    pose proof (proj1 (py_min_glb a b (py_min a b)) (Qle_refl _)) as [H2 H3].
    destruct H as [E | [E | H]].
    + subst. lra.
    + subst. lra.
    + apply IH. right. exact H.
Qed.

Lemma fold_py_max_upper (tl : list Q) (a x : Q) :
  In x (a :: tl) -> x <= fold_left py_max tl a.
Proof.
  revert a. induction tl as [| b tl IH]; intros a H; simpl in *.
  - destruct H as [E | []]. subst. apply Qle_refl.
  - pose proof (fold_py_max_ge tl (py_max a b)) as H1.
    pose proof (proj1 (py_max_lub a b (py_max a b)) (Qle_refl _)) as [H2 H3].
    destruct H as [E | [E | H]].
    + subst. lra.
    + subst. lra.
    + apply IH. right. exact H.
Qed.

Lemma time_range_bounds (keep : trajectory -> bool) (T : table)
    (t_min t_max : Q) (e : string * trajectory) (t : Q) :
  time_range keep T = Ok (t_min, t_max) ->
  In e T -> keep (snd e) = true -> In t (time (snd e)) ->
  t_min <= t <= t_max.
Proof.
  unfold time_range. cbv zeta. intros H He Hk Ht.
  assert (Hin : In t (List.concat (map time (filter keep (map snd T))))).
  { apply in_concat. exists (time (snd e)). split; [| exact Ht].
    apply in_map, filter_In. split; [apply in_map, He | exact Hk]. }
  destruct (List.concat _) as [| a l]; [contradiction |].
  cbn [np_min np_max rbind] in H. injection H as <- <-. split.
  - apply fold_py_min_lower, Hin.
  - apply fold_py_max_upper, Hin.
Qed.

(** X11. With a positive time step, every sample time of the vehicles that
    a run keeps lies between the first and the last time found, and every
    time from the first up to, but not including, the last lies in exactly
    one time bin of the grid. *)
Theorem every_time_has_one_time_bin (dt : Q) (keep : trajectory -> bool)
    (T : table) (t_min t_max : Q) (t_bins : list Q) :
  0 < dt ->
  time_range keep T = Ok (t_min, t_max) ->
  np_arange t_min (t_max + dt) dt = Ok t_bins ->
  (forall e t, In e T -> keep (snd e) = true -> In t (time (snd e)) ->
               t_min <= t <= t_max)
  /\ forall t, t_min <= t < t_max ->
       exists j,
         (exists tw, nth_error (windows t_bins) j = Some tw
                     /\ fst tw <= t < snd tw)
         /\ forall j' tw',
              nth_error (windows t_bins) j' = Some tw' ->
              fst tw' <= t < snd tw' -> j' = j.
Proof.
  intros Hdt Hr Ht. split.
  - intros e t. apply time_range_bounds, Hr.
  - intros t Hin.
    exists (Z.to_nat (Qfloor ((t - t_min) / dt))).
    apply (np_arange_bin t_min t_max dt t t_bins Hdt Ht Hin).
Qed.

(** ** Vehicles with fewer than two samples *)

Lemma length_take_mask_le {A} (a : list A) (mask : list bool) :
  (length (take_mask a mask) <= length a)%nat.
Proof.
  unfold take_mask. rewrite length_map.
  revert mask. induction a as [| x a IH]; intros [| b mask]; simpl; try lia.
  destruct b; simpl; specialize (IH mask); lia.
Qed.

Lemma process_vehicle_few (dt L t0 t1 x0 x1 : Q) (acc : totals)
    (data : trajectory) :
  (length (time data) <= 1)%nat ->
  process_vehicle dt L t0 t1 x0 x1 acc data = acc.
Proof.
  intros H. unfold process_vehicle.
  destruct (negb (np_any _)); [reflexivity |].
  pose proof (length_take_mask_le (time data) (time_mask dt t0 t1 data)) as H'.
  fold (window_times dt t0 t1 data) in H'.
  destruct (1 <? length (window_times dt t0 t1 data))%nat eqn:E;
    [| reflexivity].
  apply Nat.ltb_lt in E. lia.
Qed.

(** X12. A vehicle with fewer than two samples changes no counter of any
    cell, in either script: the counters of a cell are those of the table
    without such vehicles. *)
Theorem lone_samples_count_nowhere (dt L t_start t_end x_start x_end : Q)
    (keep : trajectory -> bool) (T : table) :
  cell_totals dt L t_start t_end x_start x_end keep T
  = cell_totals dt L t_start t_end x_start x_end keep
      (filter (fun e => (1 <? length (time (snd e)))%nat) T).
Proof.
  unfold cell_totals. generalize no_totals.
  induction T as [| e T IH]; intros acc; simpl; [reflexivity |].
  destruct (1 <? length (time (snd e)))%nat eqn:E; simpl.
  - apply IH.
  - apply Nat.ltb_ge in E.
    rewrite (process_vehicle_few dt L t_start t_end x_start x_end acc
               (snd e) E).
    destruct (keep (snd e)); apply IH.
Qed.

(** ** Runs without a sample *)

Lemma no_times (keep : trajectory -> bool) (T : table) :
  Forall (fun e => keep (snd e) = false \/ time (snd e) = []) T ->
  List.concat (map time (filter keep (map snd T))) = [].
Proof.
  induction 1 as [| e T [H | H] _ IH]; simpl; [reflexivity | |].
  - rewrite H. exact IH.
  - destruct (keep (snd e)); [| exact IH].
    simpl. rewrite H, IH. reflexivity.
Qed.

(** X19. On a table in which every vehicle has a type, or without a type
    asked for, a run of [mixed_edies_analysis.py] fails with the
    [ValueError] of an empty [min] when the vehicles it considers have no
    sample: so for ['stable'] on a table of regular vehicles. *)
Theorem a_run_without_samples_raises (dx dt L : Q)
    (veh_type : option string) (T : table) :
  veh_type = None \/ typed T ->
  Forall (fun e => Mixed.of_type veh_type (snd e) = false
                   \/ time (snd e) = []) T ->
  fst (Mixed.calculate_macroscopic_quantities dx dt L veh_type T)
  = Raise ValueError.
Proof.
  intros _ H.
  rewrite mixed_by_range. unfold time_range. cbv zeta.
  rewrite (no_times _ T H). reflexivity.
Qed.

(** * The other scripts *)

(** ** [unwrap_positions] *)

Lemma windows_nth (a : list Q) (k : nat) :
  (S k < length a)%nat ->
  nth k (windows a) (0, 0) = (nth k a 0, nth (S k) a 0).
Proof.
  revert k. induction a as [| x a IH]; intros k H; simpl in H; [lia |].
  destruct a as [| y a]; simpl in H; [lia |].
  change (windows (x :: y :: a)) with ((x, y) :: windows (y :: a)).
  destruct k as [| k]; [reflexivity |].
  cbn [nth]. rewrite IH by (simpl; lia). reflexivity.
Qed.

Lemma length_np_diff (a : list Q) : length (np_diff a) = (length a - 1)%nat.
Proof.
  unfold np_diff. rewrite length_map. apply length_windows.
Qed.

Lemma nth_map_inside {A B} (f : A -> B) (l : list A) (k : nat)
    (da : A) (db : B) :
  (k < length l)%nat -> nth k (map f l) db = f (nth k l da).
Proof.
  revert k. induction l as [| x l IH]; intros [| k] H; simpl in *;
    try lia; [reflexivity | apply IH; lia].
Qed.

Lemma np_diff_nth (a : list Q) (k : nat) :
  (S k < length a)%nat ->
  nth k (np_diff a) 0 = nth (S k) a 0 - nth k a 0.
Proof.
  intros H. unfold np_diff.
  change (combine a (tl a)) with (windows a).
  rewrite (nth_map_inside _ _ _ (0, 0)) by (rewrite length_windows; lia).
  rewrite windows_nth by exact H. reflexivity.
Qed.

Lemma In_take_mask_seq (m : list bool) (a k : nat) :
  In k (take_mask (seq a (length m)) m)
  <-> (a <= k)%nat /\ nth (k - a) m false = true.
Proof.
  revert a. induction m as [| b m IH]; intros a.
  - simpl. split; [tauto |]. intros [_ H]. destruct (k - a)%nat; discriminate.
  - cbn [length seq]. rewrite take_mask_cons.
    destruct (Nat.eq_dec k a) as [E | E].
    + subst k. replace (a - a)%nat with O by lia. cbn [nth].
      destruct b.
      * split; [intros _; split; [lia | reflexivity] | intros _; left;
                                                        reflexivity].
      * rewrite IH. split; [intros [H _]; lia | intros [_ H]; discriminate].
    + assert (Hn : forall X, nth (k - a) (b :: m) X
                             = nth (k - S a) m X \/ (k < a)%nat).
      { intros X. destruct (Nat.lt_ge_cases k a) as [H | H];
          [right; exact H | left].
        replace (k - a)%nat with (S (k - S a)) by lia. reflexivity. }
      destruct b.
      * cbn [In]. rewrite IH. split.
        -- intros [H | [H1 H2]]; [congruence |]. split; [lia |].
           destruct (Hn false) as [H | H]; [rewrite H; exact H2 | lia].
        -- intros [H1 H2]. right. split; [lia |].
           destruct (Hn false) as [H | H]; [rewrite <- H; exact H2 | lia].
      * rewrite IH. split.
        -- intros [H1 H2]. split; [lia |].
           destruct (Hn false) as [H | H]; [rewrite H; exact H2 | lia].
        -- intros [H1 H2]. split; [lia |].
           destruct (Hn false) as [H | H]; [rewrite <- H; exact H2 | lia].
Qed.

Lemma In_np_where (mask : list bool) (k : nat) :
  In k (np_where mask) <-> nth k mask false = true.
Proof.
  unfold np_where. rewrite In_take_mask_seq.
  replace (k - 0)%nat with k by lia. split; [tauto | split; [lia | tauto]].
Qed.

Lemma length_add_at (i : nat) (c : Q) (l : list Q) :
  length (add_at i c l) = length l.
Proof.
  unfold add_at. rewrite length_app.
  rewrite <- (firstn_skipn i l) at 3. rewrite length_app.
  destruct (skipn i l); reflexivity.
Qed.

Lemma nth_add_at (c : Q) (l : list Q) (i j : nat) :
  (i < length l)%nat ->
  nth j (add_at i c l) 0
  = if (j =? i)%nat then nth j l 0 + c else nth j l 0.
Proof.
  revert i j. induction l as [| x l IH]; intros i j H; simpl in H; [lia |].
  destruct i as [| i].
  - destruct j; reflexivity.
  - destruct j as [| j]; [reflexivity |].
    change (add_at (S i) c (x :: l)) with (x :: add_at i c l).
    cbn [nth]. rewrite IH by lia. reflexivity.
Qed.

(** The test [i > 0 and i-1 in jumps] on the corridor of [parse_fcd_file]
    is the test of the loop of that function. *)
Lemma jump_test (positions : list Q) (i : nat) :
  (S i < length positions)%nat ->
  existsb (Nat.eqb i)
    (np_where (map (fun d => Qlt_bool d (- total_length / 2))
                   (np_diff positions)))
  = Qlt_bool (nth (S i) positions 0)
             (nth i positions 0 - total_length / 2).
Proof.
  intros H. apply eq_true_iff_eq.
  rewrite existsb_exists, Qlt_bool_iff. split.
  - intros (k & Hk & E). apply Nat.eqb_eq in E. subst k.
    apply In_np_where in Hk.
    rewrite (nth_map_inside _ _ _ 0) in Hk by (rewrite length_np_diff; lia).
    rewrite np_diff_nth in Hk by exact H.
    apply Qlt_bool_iff in Hk.
    assert (E : - total_length / 2 == - (500)) by reflexivity.
    pose proof half_corridor. lra.
  - intros Hlt. exists i. split; [| apply Nat.eqb_refl].
    apply In_np_where.
    rewrite (nth_map_inside _ _ _ 0) by (rewrite length_np_diff; lia).
    rewrite np_diff_nth by exact H.
    apply Qlt_bool_iff.
    assert (E : - total_length / 2 == - (500)) by reflexivity.
    pose proof half_corridor. lra.
Qed.

Lemma unwrap_positions_by_count (times positions : list Q) :
  length (unwrap_positions times positions total_length) = length positions
  /\ forall j, (j < length positions)%nat ->
       nth j (unwrap_positions times positions total_length) 0
       == nth j positions 0
          + inject_Z (Z.of_nat (lap_count positions j)) * total_length.
Proof.
  unfold unwrap_positions. cbv zeta.
  set (jumps := np_where _).
  set (step := fun (state : nat * list Q) (i : nat) => _).
  pose proof (fold_seq_invariant
                (fun i (st : nat * list Q) => lap_added i positions st)
                step (length positions) 0 (O, positions)) as H.
  destruct H as (_ & Hlen & H).
  - split; [reflexivity |]. split; [reflexivity |].
    intros j Hj. cbn [snd]. reflexivity.
  - intros i [lap l] Hi (E1 & E2 & E3). cbn [fst snd] in E1, E2, E3.
    assert (Elap : (if (0 <? i)%nat && existsb (Nat.eqb (i - 1)) jumps
                    then S lap else lap) = lap_count positions i).
    { destruct i as [| i']; [subst lap; reflexivity |].
      replace (S i' - 1)%nat with i' in * by lia.
      cbn [Nat.ltb Nat.leb andb]. unfold jumps.
      rewrite jump_test by lia. subst lap. reflexivity. }
    unfold step, lap_added. cbn [fst snd]. rewrite Elap.
    split; [replace (S i - 1)%nat with i by lia; reflexivity |].
    split; [rewrite length_add_at; exact E2 |].
    intros j Hj. rewrite nth_add_at by lia.
    specialize (E3 j Hj).
    destruct (Nat.eqb_spec j i) as [E | E].
    + subst j. rewrite Nat.ltb_irrefl in E3.
      replace (i <? S i)%nat with true by (symmetry; apply Nat.ltb_lt; lia).
      rewrite E3. reflexivity.
    + destruct (j <? i)%nat eqn:E4.
      * apply Nat.ltb_lt in E4.
        replace (j <? S i)%nat with true by (symmetry; apply Nat.ltb_lt; lia).
        exact E3.
      * apply Nat.ltb_ge in E4.
        replace (j <? S i)%nat with false
          by (symmetry; apply Nat.ltb_ge; lia).
        exact E3.
  - split; [exact Hlen |]. intros j Hj. rewrite (H j Hj).
    replace (j <? 0 + length positions)%nat with true
      by (symmetry; apply Nat.ltb_lt; lia).
    reflexivity.
Qed.

(** X13. [unwrap_positions] of [plot_trajectories.py], called with the
    corridor length of [parse_fcd_file], returns what the loop over the
    positions in [parse_fcd_file] leaves, as rational numbers: the two
    ways of counting laps, by jump indices and by shifting the rest of the
    array, agree. *)
Theorem unwrap_positions_is_unwrap_laps (times positions : list Q) :
  Forall2 Qeq (unwrap_positions times positions total_length)
              (unwrap_laps positions).
Proof.
  destruct (unwrap_positions_by_count times positions) as [Hlen H].
  apply (Forall2_by_nth _ 0 0).
  - rewrite Hlen, length_unwrap_laps. reflexivity.
  - intros j Hj. rewrite Hlen in Hj.
    rewrite (H j Hj), unwrap_laps_by_count by exact Hj. reflexivity.
Qed.

(** ** Detector data *)

Lemma combine_map_both {A B C} (f : A -> B) (g : A -> C) (l : list A) :
  combine (map f l) (map g l) = map (fun x => (f x, g x)) l.
Proof. induction l; simpl; congruence. Qed.

Lemma detector_read_intervals (intervals : list interval)
    (flows speeds occupancies : list Q) :
  Detector.read_intervals intervals (flows, speeds, occupancies)
  = if forallb readable intervals
    then Some (flows ++ map flow_of (filter measured intervals),
               speeds ++ map speed_of (filter measured intervals),
               occupancies ++ map occupancy_of (filter measured intervals))
    else None.
Proof.
  revert flows speeds occupancies.
  induction intervals as [| i rest IH]; intros flows speeds occupancies.
  - simpl. rewrite !app_nil_r. reflexivity.
  - cbn [Detector.read_intervals forallb filter].
    destruct (a_harmonicMeanSpeed i) as [v |] eqn:Ev.
    2:{ assert (Hr : readable i = false)
          by (unfold readable; rewrite Ev; reflexivity).
        rewrite Hr. reflexivity. }
    cbn [obind]. destruct (Qlt_bool 0 v) eqn:Ep.
    2:{ assert (Hr : readable i = true)
          by (unfold readable; rewrite Ev, Ep; reflexivity).
        assert (Hm : measured i = false)
          by (unfold measured, speed_of; rewrite Ev; exact Ep).
        rewrite Hr, Hm. cbn [andb]. apply IH. }
    assert (Hm : measured i = true)
      by (unfold measured, speed_of; rewrite Ev; exact Ep).
    destruct (a_flow i) as [f |] eqn:Ef.
    2:{ assert (Hr : readable i = false)
          by (unfold readable; rewrite Ev, Ep, Ef; reflexivity).
        rewrite Hr. reflexivity. }
    destruct (a_occupancy i) as [o |] eqn:Eo.
    2:{ assert (Hr : readable i = false)
          by (unfold readable; rewrite Ev, Ep, Ef, Eo; reflexivity).
        rewrite Hr. reflexivity. }
    assert (Hr : readable i = true)
      by (unfold readable; rewrite Ev, Ep, Ef, Eo; reflexivity).
    assert (E1 : flow_of i = f) by (unfold flow_of; rewrite Ef; reflexivity).
    assert (E2 : speed_of i = v)
      by (unfold speed_of; rewrite Ev; reflexivity).
    assert (E3 : occupancy_of i = o)
      by (unfold occupancy_of; rewrite Eo; reflexivity).
    rewrite Hr, Hm. cbn [obind andb map]. rewrite IH, E1, E2, E3.
    destruct (forallb readable rest); [| reflexivity].
    rewrite <- !app_assoc. reflexivity.
Qed.

Lemma mixed_detector_read_intervals (intervals : list interval)
    (acc : MixedDetector.data) :
  MixedDetector.read_intervals intervals acc
  = if forallb has_begin intervals
    then Some {| MixedDetector.flow :=
                   MixedDetector.flow acc
                   ++ map flow_of (filter measured intervals);
                 MixedDetector.speed :=
                   MixedDetector.speed acc
                   ++ map speed_of (filter measured intervals);
                 MixedDetector.density :=
                   MixedDetector.density acc
                   ++ map density_of (filter measured intervals);
                 MixedDetector.time :=
                   MixedDetector.time acc
                   ++ map begin_of (filter measured intervals) |}
    else None.
Proof.
  revert acc. induction intervals as [| i rest IH]; intros acc.
  - simpl. rewrite !app_nil_r. destruct acc; reflexivity.
  - cbn [MixedDetector.read_intervals forallb filter].
    destruct (a_begin i) as [t |] eqn:Et.
    2:{ assert (Hb : has_begin i = false)
          by (unfold has_begin; rewrite Et; reflexivity).
        rewrite Hb. reflexivity. }
    assert (Hb : has_begin i = true)
      by (unfold has_begin; rewrite Et; reflexivity).
    assert (E0 : begin_of i = t)
      by (unfold begin_of; rewrite Et; reflexivity).
    rewrite Hb. cbn [obind andb].
    fold (flow_of i). fold (speed_of i).
    destruct (Qle_bool (speed_of i) 0) eqn:Ev.
    + assert (Hm : measured i = false)
        by (unfold measured, Qlt_bool; rewrite Ev; reflexivity).
      rewrite Hm. apply IH.
    + assert (Hm : measured i = true)
        by (unfold measured, Qlt_bool; rewrite Ev; reflexivity).
      fold (measured i). fold (density_of i).
      rewrite Hm, IH.
      cbn [MixedDetector.flow MixedDetector.speed MixedDetector.density
           MixedDetector.time map].
      rewrite E0.
      destruct (forallb has_begin rest); [| reflexivity].
      rewrite <- !app_assoc. reflexivity.
Qed.

Lemma detector_data (intervals : list interval) (d : Detector.data) :
  Detector.read_detector_data intervals = Some d ->
  forallb readable intervals = true
  /\ Detector.flow d = map flow_of (filter measured intervals)
  /\ Detector.space_mean_speed d = map speed_of (filter measured intervals)
  /\ Detector.occupancy d = map occupancy_of (filter measured intervals)
  /\ Detector.density d = map density_of (filter measured intervals).
Proof.
  unfold Detector.read_detector_data. rewrite detector_read_intervals.
  destruct (forallb readable intervals); [| discriminate].
  cbn [obind app]. intros H. injection H as <-.
  cbn [Detector.flow Detector.space_mean_speed Detector.occupancy
       Detector.density].
  repeat split.
  rewrite map_map, combine_map_both, map_map.
  apply map_ext_in. intros i Hi. apply filter_In in Hi.
  unfold density_of. rewrite (proj2 Hi). reflexivity.
Qed.

Lemma mixed_detector_data (intervals : list interval)
    (d : MixedDetector.data) :
  MixedDetector.read_detector_data intervals = Some d ->
  forallb has_begin intervals = true
  /\ MixedDetector.flow d = map flow_of (filter measured intervals)
  /\ MixedDetector.speed d = map speed_of (filter measured intervals)
  /\ MixedDetector.time d = map begin_of (filter measured intervals)
  /\ MixedDetector.density d = map density_of (filter measured intervals).
Proof.
  unfold MixedDetector.read_detector_data.
  rewrite mixed_detector_read_intervals.
  destruct (forallb has_begin intervals); [| discriminate].
  intros H. injection H as <-. repeat split.
Qed.

Lemma measured_points (intervals : list interval) (j : nat) :
  let kept := filter measured intervals in
  (j < length kept)%nat ->
  0 < nth j (map speed_of kept) 0
  /\ nth j (map density_of kept) 0 * (nth j (map speed_of kept) 0 * (36 # 10))
     == nth j (map flow_of kept) 0.
Proof.
  intros kept Hj.
  set (i := nth j kept
              {| a_begin := None; a_flow := None;
                 a_harmonicMeanSpeed := None; a_occupancy := None |}).
  rewrite !(nth_map_inside _ _ _
              {| a_begin := None; a_flow := None;
                 a_harmonicMeanSpeed := None; a_occupancy := None |})
    by exact Hj.
  fold i.
  assert (Hi : measured i = true).
  { assert (H : In i kept) by (apply nth_In, Hj).
    apply filter_In in H. apply H. }
  unfold density_of. rewrite Hi.
  unfold measured in Hi. apply Qlt_bool_iff in Hi.
  split; [exact Hi |].
  set (v := speed_of i) in *. set (f := flow_of i). clearbody v f.
  field. lra.
Qed.

(** X14. Every point that [read_detector_data] returns, in either script,
    comes from an interval with a positive harmonic mean speed, and its
    density [k], flow [q] and speed [v] satisfy [k * (v * 3.6) = q]; the
    arrays returned have one entry per such interval, so that no point is
    the result of a division by zero. *)
Theorem detector_points_satisfy_the_flow_relation
    (intervals : list interval) :
  (forall d, Detector.read_detector_data intervals = Some d ->
     length (Detector.flow d) = length (filter measured intervals)
     /\ length (Detector.space_mean_speed d) = length (Detector.flow d)
     /\ length (Detector.occupancy d) = length (Detector.flow d)
     /\ length (Detector.density d) = length (Detector.flow d)
     /\ forall j, (j < length (Detector.flow d))%nat ->
          0 < nth j (Detector.space_mean_speed d) 0
          /\ nth j (Detector.density d) 0
             * (nth j (Detector.space_mean_speed d) 0 * (36 # 10))
             == nth j (Detector.flow d) 0)
  /\ (forall d, MixedDetector.read_detector_data intervals = Some d ->
        length (MixedDetector.flow d) = length (filter measured intervals)
        /\ length (MixedDetector.speed d) = length (MixedDetector.flow d)
        /\ length (MixedDetector.time d) = length (MixedDetector.flow d)
        /\ length (MixedDetector.density d) = length (MixedDetector.flow d)
        /\ forall j, (j < length (MixedDetector.flow d))%nat ->
             0 < nth j (MixedDetector.speed d) 0
             /\ nth j (MixedDetector.density d) 0
                * (nth j (MixedDetector.speed d) 0 * (36 # 10))
                == nth j (MixedDetector.flow d) 0).
Proof.
  split; intros d H;
    [apply detector_data in H | apply mixed_detector_data in H];
    destruct H as (_ & E1 & E2 & E3 & E4);
    rewrite E1, E2, E3, E4, !length_map;
    (split; [reflexivity | split; [reflexivity | split; [reflexivity |
       split; [reflexivity |]]]]);
    intros j Hj; apply (measured_points intervals j Hj).
Qed.

(** X15. On intervals that all have a [begin] attribute, whenever
    [read_detector_data] of [plot_fundamental_diagram.py] returns, that of
    [plot_mixed_fundamental.py] returns the same flows, speeds and
    densities. *)
Theorem detector_readers_agree (intervals : list interval)
    (d : Detector.data) :
  Forall (fun i => a_begin i <> None) intervals ->
  Detector.read_detector_data intervals = Some d ->
  exists d',
    MixedDetector.read_detector_data intervals = Some d'
    /\ MixedDetector.flow d' = Detector.flow d
    /\ MixedDetector.speed d' = Detector.space_mean_speed d
    /\ MixedDetector.density d' = Detector.density d.
Proof.
  intros Hb H. apply detector_data in H.
  destruct H as (_ & E1 & E2 & _ & E4).
  unfold MixedDetector.read_detector_data.
  rewrite mixed_detector_read_intervals.
  assert (E : forallb has_begin intervals = true).
  { apply forallb_forall. intros i Hi.
    rewrite Forall_forall in Hb. specialize (Hb i Hi).
    unfold has_begin. destruct (a_begin i); [reflexivity | contradiction]. }
  rewrite E. eexists. split; [reflexivity |].
  cbn [MixedDetector.flow MixedDetector.speed MixedDetector.density
       MixedDetector.no_data app].
  rewrite E1, E2, E4. repeat split.
Qed.

(** X16. [read_detector_data] of [plot_mixed_fundamental.py] fails only on
    an interval without [begin]: a missing flow or speed is read as 0, and
    a speed of 0 drops the interval.  That of
    [plot_fundamental_diagram.py] fails on an interval without
    [harmonicMeanSpeed], and on one with a positive speed but no flow or
    no occupancy. *)
Theorem detector_readers_fail_on_missing_attributes
    (intervals : list interval) :
  (MixedDetector.read_detector_data intervals = None
   <-> Exists (fun i => a_begin i = None) intervals)
  /\ (Detector.read_detector_data intervals = None
      <-> Exists
            (fun i =>
               a_harmonicMeanSpeed i = None
               \/ (measured i = true
                   /\ (a_flow i = None \/ a_occupancy i = None)))
            intervals).
Proof.
  split.
  - unfold MixedDetector.read_detector_data.
    rewrite mixed_detector_read_intervals.
    destruct (forallb has_begin intervals) eqn:E.
    + split; [discriminate |]. intros H. exfalso.
      apply Exists_exists in H. destruct H as (i & Hi & Hn).
      rewrite forallb_forall in E. specialize (E i Hi).
      unfold has_begin in E. rewrite Hn in E. discriminate.
    + split; [intros _ | reflexivity].
      apply Exists_exists.
      induction intervals as [| i rest IH]; [discriminate |].
      cbn [forallb] in E. apply andb_false_iff in E. destruct E as [E | E].
      * exists i. split; [left; reflexivity |].
        unfold has_begin in E. destruct (a_begin i); [discriminate |
                                                       reflexivity].
      * destruct (IH E) as (i' & Hi' & Hn).
        exists i'. split; [right; exact Hi' | exact Hn].
  - unfold Detector.read_detector_data. rewrite detector_read_intervals.
    destruct (forallb readable intervals) eqn:E.
    + cbn [obind]. split; [discriminate |]. intros H. exfalso.
      apply Exists_exists in H. destruct H as (i & Hi & Hn).
      rewrite forallb_forall in E. specialize (E i Hi).
      unfold readable in E.
      destruct (a_harmonicMeanSpeed i) as [v |] eqn:Ev;
        [| discriminate].
      destruct Hn as [Hn | [Hm Hn]]; [discriminate |].
      unfold measured, speed_of in Hm. rewrite Ev in Hm.
      cbn [get_or_zero] in Hm. rewrite Hm in E.
      destruct Hn as [Hn | Hn]; rewrite Hn in E;
        [| destruct (a_flow i)]; discriminate.
    + cbn [obind]. split; [intros _ | reflexivity].
      apply Exists_exists.
      induction intervals as [| i rest IH]; [discriminate |].
      cbn [forallb] in E. apply andb_false_iff in E. destruct E as [E | E].
      * exists i. split; [left; reflexivity |].
        unfold readable in E. unfold measured, speed_of.
        destruct (a_harmonicMeanSpeed i) as [v |];
          [| left; reflexivity].
        cbn [get_or_zero]. right.
        destruct (Qlt_bool 0 v); [| discriminate].
        split; [reflexivity |].
        destruct (a_flow i); [| left; reflexivity].
        destruct (a_occupancy i); [discriminate | right; reflexivity].
      * destruct (IH E) as (i' & Hi' & Hn).
        exists i'. split; [right; exact Hi' | exact Hn].
Qed.

(** ** [get_vehicle_types] *)

Lemma types_get_app (k k' : string) (v : string)
    (d : list (string * string)) :
  types_get k (d ++ [(k', v)])
  = match types_get k d with
    | Some t => Some t
    | None => if String.eqb k' k then Some v else None
    end.
Proof.
  induction d as [| [k0 v0] d IH]; simpl; [reflexivity |].
  destruct (String.eqb k0 k); [reflexivity | exact IH].
Qed.

Lemma types_get_note_type (k : string) (d : list (string * string))
    (veh : vehicle) :
  types_get k (note_type d veh)
  = match types_get k d with
    | Some t => Some t
    | None =>
        if String.eqb (veh_id veh) k then Some (vehicle_class veh) else None
    end.
Proof.
  unfold note_type.
  destruct (types_get (veh_id veh) d) as [t |] eqn:E.
  - destruct (types_get k d) as [t' |] eqn:E'; [reflexivity |].
    destruct (String.eqb_spec (veh_id veh) k) as [Ek | Ek]; [| reflexivity].
    rewrite Ek in E. congruence.
  - apply types_get_app.
Qed.

Lemma types_get_timestep (k : string) (vehs : list vehicle)
    (d : list (string * string)) :
  types_get k (fold_left note_type vehs d)
  = match types_get k d with
    | Some t => Some t
    | None =>
        option_map vehicle_class
          (hd_error (filter (fun veh => String.eqb (veh_id veh) k) vehs))
    end.
Proof.
  revert d. induction vehs as [| veh vehs IH]; intros d; simpl.
  - destruct (types_get k d); reflexivity.
  - rewrite IH, types_get_note_type.
    destruct (types_get k d); [reflexivity |].
    destruct (String.eqb (veh_id veh) k); reflexivity.
Qed.

Lemma types_get_stream (k : string) (stream : list timestep)
    (d : list (string * string)) :
  types_get k
    (fold_left
       (fun vehicle_types (step : timestep) =>
          fold_left note_type (snd step) vehicle_types)
       stream d)
  = match types_get k d with
    | Some t => Some t
    | None =>
        option_map (fun r => vehicle_class (snd r))
                   (hd_error (records_of k stream))
    end.
Proof.
  revert d. induction stream as [| step stream IH]; intros d; simpl.
  - destruct (types_get k d); reflexivity.
  - rewrite IH, types_get_timestep.
    destruct (types_get k d); [reflexivity |].
    destruct (filter _ (snd step)) as [| veh vehs]; reflexivity.
Qed.

(** X17. [get_vehicle_types] of [plot_mixed_fundamental.py] gives every
    vehicle the type that [parse_fcd_file] of [mixed_edies_analysis.py]
    stores for it, and no type to a vehicle that the table lacks: both
    classify the first element of the vehicle. *)
Theorem get_vehicle_types_agrees_with_the_table (stream : list timestep)
    (k : string) :
  types_get k (get_vehicle_types stream)
  = match dict_get k (Mixed.parse_fcd_file stream) with
    | Some data => type data
    | None => None
    end.
Proof.
  unfold get_vehicle_types. rewrite types_get_stream. cbn [types_get].
  unfold Mixed.parse_fcd_file. rewrite dict_get_parse.
  destruct (records_of k stream) as [| r rs]; [reflexivity |].
  cbn [after option_map start_of finish type].
  rewrite track_type_mixed. reflexivity.
Qed.

(** ** The Greenshields model *)

Lemma greenshields_flow (k uf kj : Q) :
  0 < kj ->
  uf * kj / 4 - k * greenshields_model k uf kj
  == uf / kj * ((k - kj / 2) * (k - kj / 2)).
Proof.
  intros H. unfold greenshields_model. field. lra.
Qed.

(** X18. For a free-flow speed [uf >= 0] and a jam density [kj > 0],
    [greenshields_model] gives [uf] at density 0 and 0 at density [kj],
    does not increase with the density, and the flow [k * u(k)] it implies
    is at most [uf * kj / 4] at every density, the value it takes at
    [kj / 2]. *)
Theorem greenshields_capacity (uf kj : Q) :
  0 <= uf -> 0 < kj ->
  greenshields_model 0 uf kj == uf
  /\ greenshields_model kj uf kj == 0
  /\ (forall k k', k <= k' ->
        greenshields_model k' uf kj <= greenshields_model k uf kj)
  /\ (forall k, k * greenshields_model k uf kj <= uf * kj / 4)
  /\ kj / 2 * greenshields_model (kj / 2) uf kj == uf * kj / 4.
Proof.
  intros Huf Hkj. split; [| split; [| split; [| split]]].
  - unfold greenshields_model. field. lra.
  - unfold greenshields_model. field. lra.
  - intros k k' Hk. unfold greenshields_model.
    assert (H : k / kj <= k' / kj).
    { apply Qle_shift_div_l; [exact Hkj |].
      assert (E : k / kj * kj == k) by (field; lra). rewrite E. exact Hk. }
    set (a := k / kj) in *. set (b := k' / kj) in *. clearbody a b. nra.
  - intros k. pose proof (greenshields_flow k uf kj Hkj) as E.
    assert (H : 0 <= uf / kj * ((k - kj / 2) * (k - kj / 2))).
    { apply Qmult_le_0_compat.
      - apply Qle_shift_div_l; [exact Hkj | lra].
      - set (x := k - kj / 2). clearbody x. nra. }
    rewrite <- E in H. lra.
  - unfold greenshields_model. field. lra.
Qed.

(** ** These statements at concrete inputs *)

Lemma unwrap_laps_adds_whole_laps_witness :
  (1 < length one_lap)%nat
  /\ length (unwrap_laps one_lap) = length one_lap
  /\ nth 0 (unwrap_laps one_lap) 0 == nth 0 one_lap 0
  /\ nth 1 (unwrap_laps one_lap) 0
     == nth 1 one_lap 0
        + inject_Z (Z.of_nat (lap_count one_lap 1)) * total_length.
Proof.
  assert (H : (1 < length one_lap)%nat) by (simpl; lia).
  split; [exact H |].
  exact (unwrap_laps_adds_whole_laps one_lap 1 H).
Defined.

Lemma outputs_have_the_shape_of_the_grid_witness :
  fst (Edies.calculate_macroscopic_quantities 500 10 1000 one_vehicle)
  = Ok (one_vehicle_density, one_vehicle_flow, one_vehicle_speed,
        snd (fst one_vehicle_outputs), snd one_vehicle_outputs)
  /\ (length one_vehicle_density = length (snd (fst one_vehicle_outputs))
      /\ Forall (fun row => length row = length (snd one_vehicle_outputs))
                one_vehicle_density)
  /\ (length one_vehicle_flow = length (snd (fst one_vehicle_outputs))
      /\ Forall (fun row => length row = length (snd one_vehicle_outputs))
                one_vehicle_flow)
  /\ (length one_vehicle_speed = length (snd (fst one_vehicle_outputs))
      /\ Forall (fun row => length row = length (snd one_vehicle_outputs))
                one_vehicle_speed).
Proof.
  assert (H : fst (Edies.calculate_macroscopic_quantities 500 10 1000
                     one_vehicle)
              = Ok (one_vehicle_density, one_vehicle_flow, one_vehicle_speed,
                    snd (fst one_vehicle_outputs), snd one_vehicle_outputs))
    by (vm_compute; reflexivity).
  split; [exact H |].
  exact (outputs_have_the_shape_of_the_grid 500 10 1000 None one_vehicle
           _ _ _ _ _ (or_introl H)).
Defined.

Lemma outputs_are_bounded_witness :
  fst (Edies.calculate_macroscopic_quantities 500 10 1000 one_vehicle)
  = Ok (one_vehicle_density, one_vehicle_flow, one_vehicle_speed,
        snd (fst one_vehicle_outputs), snd one_vehicle_outputs)
  /\ Forall (Forall (fun d => 0 <= d /\ d * 500 <= 1000 * 1))
            one_vehicle_density
  /\ Forall (Forall (fun f => 0 <= f /\ f * 10 <= 3600 * 1)) one_vehicle_flow
  /\ Forall (Forall (fun v => 0 <= v)) one_vehicle_speed.
Proof.
  assert (H : fst (Edies.calculate_macroscopic_quantities 500 10 1000
                     one_vehicle)
              = Ok (one_vehicle_density, one_vehicle_flow, one_vehicle_speed,
                    snd (fst one_vehicle_outputs), snd one_vehicle_outputs))
    by (vm_compute; reflexivity).
  split; [exact H |].
  exact (outputs_are_bounded 500 10 1000 None one_vehicle
           _ _ _ _ _ (or_introl H)).
Defined.

Lemma valid_inputs_return_witness :
  0 < 500 /\ 0 < 10 /\ 0 <= 1000
  /\ Forall (fun e => aligned (snd e)) one_vehicle
  /\ Exists (fun e => time (snd e) <> []) one_vehicle
  /\ typed one_vehicle
  /\ Exists (fun e => Mixed.of_type (Some "regular"%string) (snd e) = true
                      /\ time (snd e) <> []) one_vehicle
  /\ (exists out,
        fst (Edies.calculate_macroscopic_quantities 500 10 1000 one_vehicle)
        = Ok out)
  /\ exists out,
       fst (Mixed.calculate_macroscopic_quantities 500 10 1000
              (Some "regular"%string) one_vehicle)
       = Ok out.
Proof.
  assert (H1 : 0 < 500) by reflexivity.
  assert (H2 : 0 < 10) by reflexivity.
  assert (H3 : 0 <= 1000) by discriminate.
  assert (H4 : Forall (fun e => aligned (snd e)) one_vehicle)
    by (repeat constructor).
  assert (H5 : Exists (fun e => time (snd e) <> []) one_vehicle)
    by (left; discriminate).
  assert (H6 : typed one_vehicle) by (repeat constructor; discriminate).
  assert (H7 : Exists (fun e => Mixed.of_type (Some "regular"%string) (snd e)
                                = true
                                /\ time (snd e) <> []) one_vehicle)
    by (left; split; [reflexivity | discriminate]).
  repeat (split; [assumption |]).
  destruct (valid_inputs_return 500 10 1000 (Some "regular"%string)
              one_vehicle H1 H2 H3 H4) as [He Hm].
  split; [exact (He H5) | exact (Hm (or_intror H6) H7)].
Defined.

Lemma every_position_has_one_space_bin_witness :
  0 < 500 /\ 0 < 1000 /\ x_edges 500 1000 = Ok [0; 500; 1000]
  /\ exists j,
       (exists xw, nth_error (windows [0; 500; 1000]) j = Some xw
                   /\ in_cell (fst xw) (snd xw) (np_mod 1250 1000) = true)
       /\ forall j' xw',
            nth_error (windows [0; 500; 1000]) j' = Some xw' ->
            in_cell (fst xw') (snd xw') (np_mod 1250 1000) = true -> j' = j.
Proof.
  assert (H1 : 0 < 500) by reflexivity.
  assert (H2 : 0 < 1000) by reflexivity.
  assert (H3 : x_edges 500 1000 = Ok [0; 500; 1000])
    by (vm_compute; reflexivity).
  repeat (split; [assumption |]).
  exact (every_position_has_one_space_bin 500 1000 1250 [0; 500; 1000]
           H1 H2 H3).
Defined.

Lemma every_time_has_one_time_bin_witness :
  0 < 10
  /\ time_range (fun _ => true) one_vehicle = Ok (0, 10)
  /\ np_arange 0 (10 + 10) 10 = Ok [0; 10]
  /\ (forall e t, In e one_vehicle -> In t (time (snd e)) -> 0 <= t <= 10)
  /\ forall t, 0 <= t < 10 ->
       exists j,
         (exists tw, nth_error (windows [0; 10]) j = Some tw
                     /\ fst tw <= t < snd tw)
         /\ forall j' tw',
              nth_error (windows [0; 10]) j' = Some tw' ->
              fst tw' <= t < snd tw' -> j' = j.
Proof.
  assert (H1 : 0 < 10) by reflexivity.
  assert (H2 : time_range (fun _ => true) one_vehicle = Ok (0, 10))
    by reflexivity.
  assert (H3 : np_arange 0 (10 + 10) 10 = Ok [0; 10])
    by (vm_compute; reflexivity).
  repeat (split; [assumption |]).
  destruct (every_time_has_one_time_bin 10 (fun _ => true) one_vehicle
              0 10 [0; 10] H1 H2 H3) as [Ha Hb].
  split; [| exact Hb].
  intros e t He Ht. exact (Ha e t He eq_refl Ht).
Defined.

Lemma detector_readers_agree_witness :
  Forall (fun i => a_begin i <> None) two_intervals
  /\ Detector.read_detector_data two_intervals = Some two_intervals_data
  /\ exists d',
       MixedDetector.read_detector_data two_intervals = Some d'
       /\ MixedDetector.flow d' = Detector.flow two_intervals_data
       /\ MixedDetector.speed d'
          = Detector.space_mean_speed two_intervals_data
       /\ MixedDetector.density d' = Detector.density two_intervals_data.
Proof.
  assert (H1 : Forall (fun i => a_begin i <> None) two_intervals)
    by (repeat constructor; discriminate).
  assert (H2 : Detector.read_detector_data two_intervals
               = Some two_intervals_data) by reflexivity.
  repeat (split; [assumption |]).
  exact (detector_readers_agree two_intervals two_intervals_data H1 H2).
Defined.

Lemma greenshields_capacity_witness :
  0 <= 100 /\ 0 < 120
  /\ greenshields_model 0 100 120 == 100
  /\ greenshields_model 120 100 120 == 0
  /\ (forall k k', k <= k' ->
        greenshields_model k' 100 120 <= greenshields_model k 100 120)
  /\ (forall k, k * greenshields_model k 100 120 <= 100 * 120 / 4)
  /\ 120 / 2 * greenshields_model (120 / 2) 100 120 == 100 * 120 / 4.
Proof.
  assert (H1 : 0 <= 100) by discriminate.
  assert (H2 : 0 < 120) by reflexivity.
  repeat (split; [assumption |]).
  exact (greenshields_capacity 100 120 H1 H2).
Defined.

Lemma a_run_without_samples_raises_witness :
  (Some "stable"%string = None \/ typed one_vehicle)
  /\ Forall (fun e => Mixed.of_type (Some "stable"%string) (snd e) = false
                      \/ time (snd e) = []) one_vehicle
  /\ fst (Mixed.calculate_macroscopic_quantities 500 10 1000
            (Some "stable"%string) one_vehicle)
     = Raise ValueError.
Proof.
  assert (H0 : Some "stable"%string = None \/ typed one_vehicle)
    by (right; repeat constructor; discriminate).
  assert (H : Forall (fun e => Mixed.of_type (Some "stable"%string) (snd e)
                               = false
                               \/ time (snd e) = []) one_vehicle)
    by (repeat constructor).
  split; [exact H0 |]. split; [exact H |].
  exact (a_run_without_samples_raises 500 10 1000 (Some "stable"%string)
           one_vehicle H0 H).
Defined.


Lemma connector_is_stitched_on_every_lap_witness :
  records_of "veh0"%string two_laps_stream <> []
  /\ forward (map sample_position (records_of "veh0"%string two_laps_stream))
  /\ exists data,
       dict_get "veh0"%string (Edies.parse_fcd_file two_laps_stream) = Some data
       /\ nth 1 (pos data) 0 == main_circle_length + (847 # 100)
       /\ nth 5 (pos data) 0
          == main_circle_length + (847 # 100) + 1 * total_length
       /\ nth 1 (pos data) 0 - nth 0 (pos data) 0
          == main_circle_length + (847 # 100) - 890.
Proof.
  assert (Hne : records_of "veh0"%string two_laps_stream <> []) by discriminate.
  assert (Hf : forward (map sample_position
                          (records_of "veh0"%string two_laps_stream))).
  { change (records_of "veh0"%string two_laps_stream) with two_laps.
    simpl. unfold forward_step.
    repeat split;
      first [ left; split; vm_compute; (reflexivity || discriminate)
            | right; split; vm_compute; (reflexivity || discriminate) ]. }
  split; [exact Hne |]. split; [exact Hf |].
  destruct (connector_is_stitched_on_every_lap two_laps_stream "veh0"%string
              Hne Hf) as (data & Hget & _ & _ & Hall).
  exists data. split; [exact Hget |].
  destruct (Hall 1%nat (1, on_lane "b_0"%string (847 # 100)) eq_refl)
    as (H1 & _ & _).
  destruct (Hall 5%nat (5, on_lane "b_0"%string (847 # 100)) eq_refl)
    as (H5 & _ & _).
  destruct (Hall 0%nat (0, on_lane "a_0"%string 890) eq_refl) as (_ & _ & H0).
  split; [| split].
  - rewrite (H1 eq_refl). vm_compute. reflexivity.
  - rewrite (H5 eq_refl). vm_compute. reflexivity.
  - destruct (H0 (1, on_lane "b_0"%string (847 # 100)) eq_refl) as [_ Hd].
    + discriminate.
    + reflexivity.
    + vm_compute. discriminate.
    + vm_compute. discriminate.
    + rewrite Hd. reflexivity.
Defined.
